(** * Bolt Blaster Arena: the simulation core of [src/App.tsx]

    A shallow embedding of the per-frame game loop, the weapon and economy
    operations and the wave spawner, followed by the properties the
    specification states about them.

    Numbers.  A TypeScript [number] is an IEEE double.  Fields that only ever
    hold integers (health, damage, levels, costs, currency, score, the wave
    counter, the invincibility timer, millisecond time stamps) are modelled
    as [Z]; fields that hold fractions (ammo, positions, velocities, angles,
    cooldowns, particle lifetimes) are modelled as exact rationals [Q].
    Rounding of doubles is therefore idealised: [x * 1.3] is the exact
    product.

    Exceptions.  Reading a field of [undefined] (a weapon index outside the
    roster) throws a [TypeError]; the functions that can do so return an
    [option], [None] standing for the exception.

    The [Math] object.  [Math.cos], [Math.sin], [Math.atan2], [Math.sqrt],
    [Math.PI] and the stream behind [Math.random()] have no rational
    counterpart; they are the fields of the class [JsMath] and every
    definition is parametric in it.  The number of [Math.random()] calls made
    so far is part of the modelled world, so that each call reads the next
    element of the stream. *)

From Stdlib Require Import ZArith QArith Qround Qabs List String Bool Lia Lqa.
Import ListNotations.

Local Open Scope Z_scope.

(** ** JavaScript helpers *)

Class JsMath := {
  cos : Q -> Q;
  sin : Q -> Q;
  atan2 : Q -> Q -> Q;
  sqrt : Q -> Q;
  PI : Q;
  (** [random i] is the value returned by the [i]-th call of [Math.random()] *)
  random : nat -> Q
}.

(** [a < b] on numbers *)
Definition Qltb (a b : Q) : bool := negb (Qle_bool b a).

Definition Math_min (a b : Q) : Q := if Qle_bool a b then a else b.
Definition Math_max (a b : Q) : Q := if Qle_bool a b then b else a.

(** [arr.splice(i, 1)] *)
Fixpoint splice1 {A} (i : nat) (l : list A) : list A :=
  match l, i with
  | [], _ => []
  | _ :: r, O => r
  | a :: r, S j => a :: splice1 j r
  end.

(** [arr[i] = v], for [i] inside the array (the only use made of it) *)
Fixpoint setAt {A} (i : nat) (v : A) (l : list A) : list A :=
  match l, i with
  | [], _ => []
  | _ :: r, O => v :: r
  | a :: r, S j => a :: setAt j v r
  end.

(** ** Data model (the interfaces of the source) *)

Module Particle.
Record t := mk {
  x : Q; y : Q; vx : Q; vy : Q;
  life : Q; maxLife : Q;
  color : string; size : Q
}.
End Particle.

Module Bolt.
Record t := mk { x : Q; y : Q; collected : bool; sparkle : Q }.
End Bolt.

Inductive EnemyType := drone | tank | boss.

Module Enemy.
Record t := mk {
  x : Q; y : Q;
  health : Z; maxHealth : Z;
  type : EnemyType;
  angle : Q;
  shootCooldown : Q
}.
Definition set_health (v : Z) (e : t) : t :=
  mk (x e) (y e) v (maxHealth e) (type e) (angle e) (shootCooldown e).
End Enemy.

Module Projectile.
Record t := mk {
  x : Q; y : Q; vx : Q; vy : Q;
  damage : Z;
  isEnemy : bool;
  color : string;
  size : Z
}.
End Projectile.

Module Weapon.
Record t := mk {
  name : string;
  damage : Z;
  fireRate : Z;
  ammoMax : Z;
  ammoCost : Z;
  color : string;
  projectileSize : Z;
  spread : Q;
  level : Z;
  upgradeCost : Z
}.
End Weapon.

Module Player.
Record t := mk {
  x : Q; y : Q; vx : Q; vy : Q;
  health : Z; maxHealth : Z;
  angle : Q;
  invincible : Z
}.
Definition set_pos (x' y' : Q) (p : t) : t :=
  mk x' y' (vx p) (vy p) (health p) (maxHealth p) (angle p) (invincible p).
Definition set_vx (v : Q) (p : t) : t :=
  mk (x p) (y p) v (vy p) (health p) (maxHealth p) (angle p) (invincible p).
Definition set_vy (v : Q) (p : t) : t :=
  mk (x p) (y p) (vx p) v (health p) (maxHealth p) (angle p) (invincible p).
Definition set_angle (v : Q) (p : t) : t :=
  mk (x p) (y p) (vx p) (vy p) (health p) (maxHealth p) v (invincible p).
Definition set_invincible (v : Z) (p : t) : t :=
  mk (x p) (y p) (vx p) (vy p) (health p) (maxHealth p) (angle p) v.
Definition set_health (v : Z) (p : t) : t :=
  mk (x p) (y p) (vx p) (vy p) v (maxHealth p) (angle p) (invincible p).
End Player.

Module GameState.
Record t := mk {
  player : Player.t;
  weapons : list Weapon.t;
  currentWeapon : nat;
  ammo : Q;
  bolts : Z;
  totalBolts : Z;
  enemies : list Enemy.t;
  projectiles : list Projectile.t;
  particles : list Particle.t;
  boltPickups : list Bolt.t;
  wave : Z;
  score : Z;
  gameOver : bool;
  paused : bool;
  started : bool
}.
Definition set_player (v : Player.t) (s : t) : t :=
  mk v (weapons s) (currentWeapon s) (ammo s) (bolts s) (totalBolts s)
     (enemies s) (projectiles s) (particles s) (boltPickups s) (wave s)
     (score s) (gameOver s) (paused s) (started s) .
Definition set_weapons (v : list Weapon.t) (s : t) : t :=
  mk (player s) v (currentWeapon s) (ammo s) (bolts s) (totalBolts s)
     (enemies s) (projectiles s) (particles s) (boltPickups s) (wave s)
     (score s) (gameOver s) (paused s) (started s) .
Definition set_currentWeapon (v : nat) (s : t) : t :=
  mk (player s) (weapons s) v (ammo s) (bolts s) (totalBolts s) (enemies s)
     (projectiles s) (particles s) (boltPickups s) (wave s) (score s)
     (gameOver s) (paused s) (started s) .
Definition set_ammo (v : Q) (s : t) : t :=
  mk (player s) (weapons s) (currentWeapon s) v (bolts s) (totalBolts s)
     (enemies s) (projectiles s) (particles s) (boltPickups s) (wave s)
     (score s) (gameOver s) (paused s) (started s) .
Definition set_bolts (v : Z) (s : t) : t :=
  mk (player s) (weapons s) (currentWeapon s) (ammo s) v (totalBolts s)
     (enemies s) (projectiles s) (particles s) (boltPickups s) (wave s)
     (score s) (gameOver s) (paused s) (started s) .
Definition set_totalBolts (v : Z) (s : t) : t :=
  mk (player s) (weapons s) (currentWeapon s) (ammo s) (bolts s) v
     (enemies s) (projectiles s) (particles s) (boltPickups s) (wave s)
     (score s) (gameOver s) (paused s) (started s) .
Definition set_enemies (v : list Enemy.t) (s : t) : t :=
  mk (player s) (weapons s) (currentWeapon s) (ammo s) (bolts s)
     (totalBolts s) v (projectiles s) (particles s) (boltPickups s) (wave s)
     (score s) (gameOver s) (paused s) (started s) .
Definition set_projectiles (v : list Projectile.t) (s : t) : t :=
  mk (player s) (weapons s) (currentWeapon s) (ammo s) (bolts s)
     (totalBolts s) (enemies s) v (particles s) (boltPickups s) (wave s)
     (score s) (gameOver s) (paused s) (started s) .
Definition set_particles (v : list Particle.t) (s : t) : t :=
  mk (player s) (weapons s) (currentWeapon s) (ammo s) (bolts s)
     (totalBolts s) (enemies s) (projectiles s) v (boltPickups s) (wave s)
     (score s) (gameOver s) (paused s) (started s) .
Definition set_boltPickups (v : list Bolt.t) (s : t) : t :=
  mk (player s) (weapons s) (currentWeapon s) (ammo s) (bolts s)
     (totalBolts s) (enemies s) (projectiles s) (particles s) v (wave s)
     (score s) (gameOver s) (paused s) (started s) .
Definition set_wave (v : Z) (s : t) : t :=
  mk (player s) (weapons s) (currentWeapon s) (ammo s) (bolts s)
     (totalBolts s) (enemies s) (projectiles s) (particles s) (boltPickups s)
     v (score s) (gameOver s) (paused s) (started s) .
Definition set_score (v : Z) (s : t) : t :=
  mk (player s) (weapons s) (currentWeapon s) (ammo s) (bolts s)
     (totalBolts s) (enemies s) (projectiles s) (particles s) (boltPickups s)
     (wave s) v (gameOver s) (paused s) (started s) .
Definition set_gameOver (v : bool) (s : t) : t :=
  mk (player s) (weapons s) (currentWeapon s) (ammo s) (bolts s)
     (totalBolts s) (enemies s) (projectiles s) (particles s) (boltPickups s)
     (wave s) (score s) v (paused s) (started s) .
Definition set_paused (v : bool) (s : t) : t :=
  mk (player s) (weapons s) (currentWeapon s) (ammo s) (bolts s)
     (totalBolts s) (enemies s) (projectiles s) (particles s) (boltPickups s)
     (wave s) (score s) (gameOver s) v (started s) .
Definition set_started (v : bool) (s : t) : t :=
  mk (player s) (weapons s) (currentWeapon s) (ammo s) (bolts s)
     (totalBolts s) (enemies s) (projectiles s) (particles s) (boltPickups s)
     (wave s) (score s) (gameOver s) (paused s) v.
End GameState.

(** The mutable cells the callbacks close over: [gameStateRef.current],
    [lastShotRef.current], and the position in the [Math.random()] stream. *)
Record World := mkWorld {
  gs : GameState.t;
  lastShot : Z;
  rng : nat
}.

(** What a tick reads from the input refs and the clock: [keysRef],
    [mouseRef], [shootingRef] and [Date.now()]. *)
Record Input := mkInput {
  keys : list string;
  mouseX : Q;
  mouseY : Q;
  shooting : bool;
  now : Z
}.

Definition CANVAS_WIDTH : Z := 1200.
Definition CANVAS_HEIGHT : Z := 700.

(** [upd f w]: a mutation of [gameStateRef.current] *)
Definition upd (f : GameState.t -> GameState.t) (w : World) : World :=
  mkWorld (f (gs w)) (lastShot w) (rng w).

Definition initialWeapons : list Weapon.t :=
  [ Weapon.mk "Blaster" 10 200 100 1 "#00d4ff" 6 0 1 50;
    Weapon.mk "Combustor" 25 400 50 2 "#ff6b35" 10 0.1 1 100;
    Weapon.mk "Plasma Storm" 5 50 200 1 "#a855f7" 4 0.3 1 150;
    Weapon.mk "Devastator" 50 800 20 5 "#f7c94b" 15 0 1 200 ].

(** The object literal shared by the initial [useRef] and [resetGame],
    up to the [started] flag. *)
Definition freshState (started : bool) : GameState.t :=
  GameState.mk
    (Player.mk (inject_Z CANVAS_WIDTH / 2) (inject_Z CANVAS_HEIGHT / 2) 0 0
               100 100 0 0)
    initialWeapons 0%nat 100 0 0 [] [] [] [] 1 0 false false started.

Definition initialWorld : World := mkWorld (freshState false) 0 0%nat.

(** ** Operations *)

Section Game.
Context {M : JsMath}.

(** [Math.random()] *)
Definition Math_random (w : World) : Q * World :=
  (random (rng w), mkWorld (gs w) (lastShot w) (S (rng w))).

(** One iteration of the loop of [spawnParticles]. *)
Definition pushParticle (x y : Q) (color : string) (speed : Q) (w : World)
  : World :=
  let (r1, w1) := Math_random w in
  let angle := (r1 * PI * 2)%Q in
  let (r2, w2) := Math_random w1 in
  let velocity := (r2 * speed + 1)%Q in
  let (r3, w3) := Math_random w2 in
  let (r4, w4) := Math_random w3 in
  upd (fun s => GameState.set_particles
         (GameState.particles s ++
          [Particle.mk x y (cos angle * velocity) (sin angle * velocity)
                       (30 + r3 * 20) 50 color (2 + r4 * 3)]) s) w4.

Fixpoint spawnParticles (x y : Q) (color : string) (count : nat) (speed : Q)
  (w : World) : World :=
  match count with
  | O => w
  | S c => spawnParticles x y color c speed (pushParticle x y color speed w)
  end.

(** One iteration of the loop of [spawnBolts]. *)
Definition pushBolt (x y : Q) (w : World) : World :=
  let (r1, w1) := Math_random w in
  let angle := (r1 * PI * 2)%Q in
  let (r2, w2) := Math_random w1 in
  let dist := (r2 * 30)%Q in
  let (r3, w3) := Math_random w2 in
  upd (fun s => GameState.set_boltPickups
         (GameState.boltPickups s ++
          [Bolt.mk (x + cos angle * dist) (y + sin angle * dist) false
                   (r3 * PI * 2)]) s) w3.

Fixpoint spawnBolts (x y : Q) (count : nat) (w : World) : World :=
  match count with
  | O => w
  | S c => spawnBolts x y c (pushBolt x y w)
  end.

Definition pushEnemy (e : Enemy.t) (w : World) : World :=
  upd (fun s => GameState.set_enemies (GameState.enemies s ++ [e]) s) w.

(** One iteration of the loop of [spawnWave]: entry side, position, variant
    (the [&&] draws its random number only when [wave > 3]), cooldown. *)
Definition spawnOne (wave : Z) (w : World) : World :=
  let (r1, w1) := Math_random w in
  let side := Qfloor (r1 * 4) in
  let (r2, w2) := Math_random w1 in
  let '(x, y) :=
    if side =? 0 then ((r2 * inject_Z CANVAS_WIDTH)%Q, (-50)%Q)
    else if side =? 1 then
      (inject_Z (CANVAS_WIDTH + 50), (r2 * inject_Z CANVAS_HEIGHT)%Q)
    else if side =? 2 then
      ((r2 * inject_Z CANVAS_WIDTH)%Q, inject_Z (CANVAS_HEIGHT + 50))
    else ((-50)%Q, (r2 * inject_Z CANVAS_HEIGHT)%Q) in
  let '(type, w3) :=
    if 3 <? wave then
      let (r3, w3) := Math_random w2 in
      (if Qltb r3 0.2 then tank else drone, w3)
    else (drone, w2) in
  let healthMult := match type with tank => 3 | _ => 1 end in
  let (r4, w4) := Math_random w3 in
  pushEnemy (Enemy.mk x y ((30 + wave * 10) * healthMult)
                      ((30 + wave * 10) * healthMult) type 0 (r4 * 60)) w4.

Fixpoint spawnLoop (count : nat) (wave : Z) (w : World) : World :=
  match count with
  | O => w
  | S c => spawnLoop c wave (spawnOne wave w)
  end.

Definition spawnBoss (wave : Z) : Enemy.t :=
  Enemy.mk (inject_Z CANVAS_WIDTH / 2) (-100) (200 + wave * 50)
           (200 + wave * 50) boss 0 0.

Definition spawnWave (wave : Z) (w : World) : World :=
  let enemyCount := 3 + wave * 2 in
  let w1 := spawnLoop (Z.to_nat enemyCount) wave w in
  if wave mod 5 =? 0 then pushEnemy (spawnBoss wave) w1 else w1.

(** [shoot]: [None] is the [TypeError] of reading [weapon.fireRate] when
    [state.weapons[state.currentWeapon]] is [undefined]. *)
Definition shoot (now : Z) (w : World) : option World :=
  let state := gs w in
  match nth_error (GameState.weapons state) (GameState.currentWeapon state) with
  | None => None
  | Some weapon =>
    if now - lastShot w <? Weapon.fireRate weapon then Some w
    else if Qltb (GameState.ammo state) (inject_Z (Weapon.ammoCost weapon))
    then Some w
    else
      let w1 := mkWorld (GameState.set_ammo
                           (GameState.ammo state
                            - inject_Z (Weapon.ammoCost weapon))%Q state)
                        now (rng w) in
      let (r, w2) := Math_random w1 in
      let spread := ((r - 0.5) * Weapon.spread weapon)%Q in
      let pl := GameState.player state in
      let angle := (Player.angle pl + spread)%Q in
      let w3 :=
        upd (fun s => GameState.set_projectiles
               (GameState.projectiles s ++
                [Projectile.mk (Player.x pl + cos angle * 30)
                               (Player.y pl + sin angle * 30)
                               (cos angle * 15) (sin angle * 15)
                               (Weapon.damage weapon * Weapon.level weapon)
                               false (Weapon.color weapon)
                               (Weapon.projectileSize weapon)]) s) w2 in
      Some (spawnParticles (Player.x pl + cos angle * 30)
                           (Player.y pl + sin angle * 30)
                           (Weapon.color weapon) 5 2 w3)
  end.

(** [upgradeWeapon]: [None] is the [TypeError] for an index outside the
    roster; the [setUiState] call only copies values to the display. *)
Definition upgradeWeapon (index : nat) (w : World) : option World :=
  let state := gs w in
  match nth_error (GameState.weapons state) index with
  | None => None
  | Some weapon =>
    if (Weapon.upgradeCost weapon <=? GameState.bolts state)
       && (Weapon.level weapon <? 5)
    then
      let weapon' :=
        Weapon.mk (Weapon.name weapon)
                  (Qfloor (inject_Z (Weapon.damage weapon) * 1.3))
                  (Weapon.fireRate weapon)
                  (Qfloor (inject_Z (Weapon.ammoMax weapon) * 1.2))
                  (Weapon.ammoCost weapon) (Weapon.color weapon)
                  (Weapon.projectileSize weapon) (Weapon.spread weapon)
                  (Weapon.level weapon + 1)
                  (Qfloor (inject_Z (Weapon.upgradeCost weapon) * 1.8)) in
      Some (upd (fun s =>
                   GameState.set_weapons
                     (setAt index weapon' (GameState.weapons s))
                     (GameState.set_bolts
                        (GameState.bolts s - Weapon.upgradeCost weapon) s)) w)
    else Some w
  end.

(** *** The frame callback [gameLoop], one sub-step at a time *)

(** [keysRef.current.has(k)] *)
Definition has (k : string) (ks : list string) : bool :=
  existsb (String.eqb k) ks.

(** "Update player movement" and "Update player angle" *)
Definition movePlayer (inp : Input) (w : World) : World :=
  let speed : Q := 5%Q in
  let ks := keys inp in
  let pl := GameState.player (gs w) in
  let vy :=
    if has "w" ks || has "arrowup" ks then (- speed)%Q
    else if has "s" ks || has "arrowdown" ks then speed
    else (Player.vy pl * 0.8)%Q in
  let vx :=
    if has "a" ks || has "arrowleft" ks then (- speed)%Q
    else if has "d" ks || has "arrowright" ks then speed
    else (Player.vx pl * 0.8)%Q in
  let x := Math_max 30 (Math_min (inject_Z (CANVAS_WIDTH - 30))
                                 (Player.x pl + vx)) in
  let y := Math_max 30 (Math_min (inject_Z (CANVAS_HEIGHT - 30))
                                 (Player.y pl + vy)) in
  let angle := atan2 (mouseY inp - y) (mouseX inp - x) in
  upd (GameState.set_player
         (Player.set_angle angle
            (Player.set_pos x y (Player.set_vx vx (Player.set_vy vy pl))))) w.

(** "Shooting" *)
Definition shootStep (inp : Input) (w : World) : option World :=
  if shooting inp then shoot (now inp) w else Some w.

(** "Update invincibility" *)
Definition tickInvincible (w : World) : World :=
  let pl := GameState.player (gs w) in
  if 0 <? Player.invincible pl
  then upd (GameState.set_player
              (Player.set_invincible (Player.invincible pl - 1) pl)) w
  else w.

Definition moveProjectile (p : Projectile.t) : Projectile.t :=
  Projectile.mk (Projectile.x p + Projectile.vx p)
                (Projectile.y p + Projectile.vy p)
                (Projectile.vx p) (Projectile.vy p) (Projectile.damage p)
                (Projectile.isEnemy p) (Projectile.color p)
                (Projectile.size p).

Definition inBounds (p : Projectile.t) : bool :=
  Qltb (-50) (Projectile.x p)
  && Qltb (Projectile.x p) (inject_Z (CANVAS_WIDTH + 50))
  && Qltb (-50) (Projectile.y p)
  && Qltb (Projectile.y p) (inject_Z (CANVAS_HEIGHT + 50)).

(** "Update projectiles" *)
Definition updateProjectiles (w : World) : World :=
  upd (fun s => GameState.set_projectiles
         (filter inBounds (map moveProjectile (GameState.projectiles s))) s) w.

(** The body of the [forEach] of "Update enemies": the enemy as mutated and
    the projectiles it pushes. *)
Definition updateEnemy (pl : Player.t) (enemy : Enemy.t)
  : Enemy.t * list Projectile.t :=
  let dx := (Player.x pl - Enemy.x enemy)%Q in
  let dy := (Player.y pl - Enemy.y enemy)%Q in
  let dist := sqrt (dx * dx + dy * dy) in
  let angle := atan2 dy dx in
  let ty := Enemy.type enemy in
  let moveSpeed : Q :=
    match ty with tank => 1%Q | boss => 1.5%Q | drone => 2%Q end in
  let '(x, y) :=
    if Qltb 150 dist
    then ((Enemy.x enemy + dx / dist * moveSpeed)%Q,
          (Enemy.y enemy + dy / dist * moveSpeed)%Q)
    else (Enemy.x enemy, Enemy.y enemy) in
  let cd := (Enemy.shootCooldown enemy - 1)%Q in
  if Qle_bool cd 0 then
    let fireRate : Q :=
      match ty with boss => 30%Q | tank => 90%Q | drone => 120%Q end in
    let shots :=
      match ty with
      | boss =>
        map (fun i : Z =>
               let spreadAngle := (angle + inject_Z (i - 2) * 0.3)%Q in
               Projectile.mk x y (cos spreadAngle * 6) (sin spreadAngle * 6)
                             15 true "#ff3366" 8)
            [0; 1; 2; 3; 4]
      | _ =>
        [Projectile.mk x y (cos angle * 5) (sin angle * 5)
                       (match ty with tank => 15 | _ => 10 end)
                       true "#ff3366" 6]
      end in
    (Enemy.mk x y (Enemy.health enemy) (Enemy.maxHealth enemy) ty angle
              fireRate, shots)
  else
    (Enemy.mk x y (Enemy.health enemy) (Enemy.maxHealth enemy) ty angle cd,
     []).

Fixpoint forEachEnemy (pl : Player.t) (es : list Enemy.t)
  : list Enemy.t * list Projectile.t :=
  match es with
  | [] => ([], [])
  | e :: r =>
    let (e', shots) := updateEnemy pl e in
    let (r', more) := forEachEnemy pl r in
    (e' :: r', shots ++ more)
  end.

(** "Update enemies" *)
Definition updateEnemies (w : World) : World :=
  let s := gs w in
  let (es, shots) := forEachEnemy (GameState.player s) (GameState.enemies s) in
  upd (fun s => GameState.set_enemies es
         (GameState.set_projectiles (GameState.projectiles s ++ shots) s)) w.

(** *** "Collision detection" *)

Definition enemySize (ty : EnemyType) : Z :=
  match ty with boss => 50 | tank => 35 | drone => 25 end.

Definition boltCount (ty : EnemyType) : nat :=
  match ty with boss => 20 | tank => 8 | drone => 3 end%nat.

Definition scoreValue (ty : EnemyType) : Z :=
  match ty with boss => 500 | tank => 100 | drone => 50 end.

(** The overlap test of a player projectile against an enemy. *)
Definition overlaps (p : Projectile.t) (e : Enemy.t) : bool :=
  let size := enemySize (Enemy.type e) in
  let dx := (Projectile.x p - Enemy.x e)%Q in
  let dy := (Projectile.y p - Enemy.y e)%Q in
  Qltb (dx * dx + dy * dy)
       (inject_Z ((size + Projectile.size p) * (size + Projectile.size p))).

(** The body of the [if] once projectile [p] overlaps [e = enemies[i]]. *)
Definition hitEnemy (i : nat) (e : Enemy.t) (p : Projectile.t) (w : World)
  : World :=
  let e' := Enemy.set_health (Enemy.health e - Projectile.damage p) e in
  let w1 := upd (fun s => GameState.set_enemies
                   (setAt i e' (GameState.enemies s)) s) w in
  let w2 := spawnParticles (Projectile.x p) (Projectile.y p)
                           (Projectile.color p) 8 3 w1 in
  if Enemy.health e' <=? 0 then
    let w3 := spawnBolts (Enemy.x e) (Enemy.y e) (boltCount (Enemy.type e))
                         w2 in
    let w4 := spawnParticles (Enemy.x e) (Enemy.y e) "#ff6b35" 30 5 w3 in
    upd (fun s => GameState.set_enemies (splice1 i (GameState.enemies s))
           (GameState.set_score
              (GameState.score s + scoreValue (Enemy.type e)) s)) w4
  else w2.

(** [for (let i = n - 1; i >= 0; i--)]: [Some w'] when the callback returned
    [false] from inside the loop, [None] when the loop ran to its end.  The
    loop starts at [n = enemies.length], so [enemies[i]] is always defined. *)
Fixpoint enemyLoop (n : nat) (p : Projectile.t) (w : World) : option World :=
  match n with
  | O => None
  | S i =>
    match nth_error (GameState.enemies (gs w)) i with
    | Some e => if overlaps p e then Some (hitEnemy i e p w)
                else enemyLoop i p w
    | None => enemyLoop i p w
    end
  end.

(** The overlap test of an enemy projectile against the player. *)
Definition touchesPlayer (p : Projectile.t) (pl : Player.t) : bool :=
  let dx := (Projectile.x p - Player.x pl)%Q in
  let dy := (Projectile.y p - Player.y pl)%Q in
  Qltb (dx * dx + dy * dy) 900.

Definition hitPlayer (p : Projectile.t) (w : World) : World :=
  let pl := GameState.player (gs w) in
  let pl' := Player.set_invincible 60
               (Player.set_health (Player.health pl - Projectile.damage p)
                                  pl) in
  let w1 := upd (GameState.set_player pl') w in
  let w2 := spawnParticles (Player.x pl') (Player.y pl') "#ff3366" 15 3 w1 in
  if Player.health pl' <=? 0
  then upd (GameState.set_gameOver true) w2
  else w2.

(** The callback of the collision [filter]: the value returned and the
    world as mutated. *)
Definition collide (p : Projectile.t) (w : World) : bool * World :=
  if negb (Projectile.isEnemy p) then
    match enemyLoop (List.length (GameState.enemies (gs w))) p w with
    | Some w' => (false, w')
    | None => (true, w)
    end
  else
    let pl := GameState.player (gs w) in
    if touchesPlayer p pl && (Player.invincible pl <=? 0)
    then (false, hitPlayer p w)
    else (true, w).

Fixpoint filterCollide (ps : list Projectile.t) (w : World)
  : list Projectile.t * World :=
  match ps with
  | [] => ([], w)
  | p :: r =>
    let (keep, w1) := collide p w in
    let (kept, w2) := filterCollide r w1 in
    (if keep then p :: kept else kept, w2)
  end.

Definition collisions (w : World) : World :=
  let (kept, w') := filterCollide (GameState.projectiles (gs w)) w in
  upd (GameState.set_projectiles kept) w'.

(** *** "Collect bolts" *)

Definition inReach (pl : Player.t) (bolt : Bolt.t) : bool :=
  let dx := (Player.x pl - Bolt.x bolt)%Q in
  let dy := (Player.y pl - Bolt.y bolt)%Q in
  Qltb (dx * dx + dy * dy) 1600.

Definition collectBolt (bolt : Bolt.t) (w : World) : Bolt.t * World :=
  let '(collected, w1) :=
    if negb (Bolt.collected bolt)
       && inReach (GameState.player (gs w)) bolt
    then (true,
          spawnParticles (Bolt.x bolt) (Bolt.y bolt) "#f7c94b" 5 3
            (upd (fun s => GameState.set_totalBolts (GameState.totalBolts s + 1)
                     (GameState.set_bolts (GameState.bolts s + 1) s)) w))
    else (Bolt.collected bolt, w) in
  (Bolt.mk (Bolt.x bolt) (Bolt.y bolt) collected (Bolt.sparkle bolt + 0.1),
   w1).

Fixpoint forEachBolt (bs : list Bolt.t) (w : World) : list Bolt.t * World :=
  match bs with
  | [] => ([], w)
  | b :: r =>
    let (b', w1) := collectBolt b w in
    let (r', w2) := forEachBolt r w1 in
    (b' :: r', w2)
  end.

Definition collectBolts (w : World) : World :=
  let (bs, w') := forEachBolt (GameState.boltPickups (gs w)) w in
  upd (GameState.set_boltPickups
         (filter (fun b => negb (Bolt.collected b)) bs)) w'.

(** *** "Ammo regen", "Wave progression", "Update particles" *)

Definition regenAmmo (w : World) : option World :=
  let state := gs w in
  match nth_error (GameState.weapons state) (GameState.currentWeapon state) with
  | None => None
  | Some weapon =>
    if Qltb (GameState.ammo state) (inject_Z (Weapon.ammoMax weapon))
    then Some (upd (GameState.set_ammo
                      (Math_min (inject_Z (Weapon.ammoMax weapon))
                                (GameState.ammo state + 0.1))) w)
    else Some w
  end.

Definition waveProgression (w : World) : World :=
  match GameState.enemies (gs w) with
  | [] =>
    let w1 := upd (fun s => GameState.set_wave (GameState.wave s + 1) s) w in
    spawnWave (GameState.wave (gs w1)) w1
  | _ :: _ => w
  end.

Definition moveParticle (p : Particle.t) : Particle.t :=
  Particle.mk (Particle.x p + Particle.vx p) (Particle.y p + Particle.vy p)
              (Particle.vx p * 0.95) (Particle.vy p * 0.95)
              (Particle.life p - 1) (Particle.maxLife p) (Particle.color p)
              (Particle.size p).

Definition updateParticles (w : World) : World :=
  upd (fun s => GameState.set_particles
         (filter (fun p => Qltb 0 (Particle.life p))
                 (map moveParticle (GameState.particles s))) s) w.

(** *** The tick *)

(** Everything from "Update player movement" to the end of "Collision
    detection". *)
Definition simulate (inp : Input) (w : World) : option World :=
  match shootStep inp (movePlayer inp w) with
  | None => None
  | Some w1 =>
    Some (collisions (updateEnemies (updateProjectiles (tickInvincible w1))))
  end.

(** Everything from "Collect bolts" to "Update particles"; the rendering
    that follows only reads the state. *)
Definition afterCollisions (w : World) : option World :=
  match regenAmmo (collectBolts w) with
  | None => None
  | Some w1 => Some (updateParticles (waveProgression w1))
  end.

Definition gated (s : GameState.t) : bool :=
  negb (GameState.started s) || GameState.paused s || GameState.gameOver s.

(** [gameLoop], with the canvas mounted.  [None] is an uncaught
    [TypeError]. *)
Definition gameLoop (inp : Input) (w : World) : option World :=
  if gated (gs w) then Some w
  else
    match simulate inp w with
    | None => None
    | Some w1 => afterCollisions w1
    end.

(** Successive frames. *)
Fixpoint run (inps : list Input) (w : World) : option World :=
  match inps with
  | [] => Some w
  | inp :: r =>
    match gameLoop inp w with
    | None => None
    | Some w1 => run r w1
    end
  end.

(** *** Event handlers and buttons *)

(** Keys ['1'] .. ['4'] and a click on a weapon slot, with [index] the slot
    chosen.  [None] is the [TypeError] for a slot outside the roster. *)
Definition selectWeapon (index : nat) (w : World) : option World :=
  match nth_error (GameState.weapons (gs w)) index with
  | None => None
  | Some weapon =>
    Some (upd (fun s =>
                 GameState.set_ammo
                   (Math_min (GameState.ammo s)
                             (inject_Z (Weapon.ammoMax weapon)))
                   (GameState.set_currentWeapon index s)) w)
  end.

Definition togglePause (w : World) : World :=
  upd (fun s => GameState.set_paused (negb (GameState.paused s)) s) w.

Definition startGame (w : World) : World :=
  spawnWave 1 (upd (GameState.set_started true) w).

Definition resetGame (w : World) : World :=
  spawnWave 1 (mkWorld (freshState true) (lastShot w) (rng w)).

End Game.

(** ** Runs of the application

    What can happen to the world between two renderings: a frame, a weapon
    key or a click on a weapon slot, a click on an upgrade button, the
    pause key, the start button, the retry button. *)
Inductive Event :=
| Frame (inp : Input)
| Select (index : nat)
| Upgrade (index : nat)
| Pause
| Start
| Retry.

Definition handle {M : JsMath} (ev : Event) (w : World) : option World :=
  match ev with
  | Frame inp => gameLoop inp w
  | Select index => selectWeapon index w
  | Upgrade index => upgradeWeapon index w
  | Pause => Some (togglePause w)
  | Start => Some (startGame w)
  | Retry => Some (resetGame w)
  end.

Fixpoint play {M : JsMath} (evs : list Event) (w : World) : option World :=
  match evs with
  | [] => Some w
  | ev :: r =>
    match handle ev w with
    | None => None
    | Some w1 => play r w1
    end
  end.

(** ** Predicates and views used in the statements *)

(** The variant of a non-boss enemy of wave [wave] whose variant draw of
    [Math.random()] returned [r]: a tank when [wave > 3] and [r < 0.2], a
    drone otherwise. *)
Definition waveVariant (wave : Z) (r : Q) : EnemyType :=
  if (3 <? wave) && Qltb r 0.2 then tank else drone.

(** How many random numbers [spawnWave wave] draws for each non-boss
    enemy: the entry side, the position along it, the variant (drawn only
    when [wave > 3]) and the first fire cooldown. *)
Definition drawsPerEnemy (wave : Z) : nat := if 3 <? wave then 4 else 3.

(** [e] is the non-boss enemy number [i] (from 0) that [spawnWave wave]
    creates when [r0] random numbers had been drawn before the call.  When
    [wave > 3] its variant is decided by the third of the four numbers
    drawn for it, which is number [r0 + 4 * i + 2] of the stream; it is at
    full health for its variant. *)
Definition waveEnemy {M : JsMath} (wave : Z) (r0 i : nat) (e : Enemy.t)
  : Prop :=
  Enemy.type e = waveVariant wave (random (r0 + 4 * i + 2)) /\
  Enemy.health e =
    (30 + 10 * wave) * (match Enemy.type e with tank => 3 | _ => 1 end) /\
  Enemy.maxHealth e = Enemy.health e.

(** What the collision pass never writes. *)
Definition collisionFrame (w : World) :=
  let s := gs w in
  (GameState.weapons s, GameState.currentWeapon s, GameState.ammo s,
   GameState.bolts s, GameState.totalBolts s, GameState.wave s,
   GameState.paused s, GameState.started s, lastShot w,
   GameState.projectiles s,
   (Player.x (GameState.player s), Player.y (GameState.player s),
    Player.vx (GameState.player s), Player.vy (GameState.player s),
    Player.angle (GameState.player s),
    Player.maxHealth (GameState.player s))).

(** What the part of the tick before the collision pass never writes. *)
Definition motionFrame (w : World) :=
  let s := gs w in
  (GameState.weapons s, GameState.currentWeapon s, GameState.bolts s,
   GameState.totalBolts s, GameState.wave s, GameState.paused s,
   GameState.started s, GameState.gameOver s, GameState.boltPickups s,
   GameState.score s,
   (Player.health (GameState.player s),
    Player.maxHealth (GameState.player s))).

(** The in-flight enemy projectiles do not heal. *)
Definition harmful (p : Projectile.t) : Prop :=
  Projectile.isEnemy p = true -> 0 <= Projectile.damage p.

(** The bounds a tick maintains: a valid active weapon with a non-negative
    per-shot cost, ammo within [[0, ammoMax]], health at most [maxHealth],
    and no healing enemy projectile in flight. *)
Definition bounded (w : World) : Prop :=
  let s := gs w in
  exists weapon,
    nth_error (GameState.weapons s) (GameState.currentWeapon s) = Some weapon /\
    0 <= Weapon.ammoCost weapon /\
    (0 <= GameState.ammo s)%Q /\
    (GameState.ammo s <= inject_Z (Weapon.ammoMax weapon))%Q /\
    Player.health (GameState.player s)
      <= Player.maxHealth (GameState.player s) /\
    Forall harmful (GameState.projectiles s).

(** Every weapon of the roster has a non-negative cost and capacity. *)
Definition sound (w : World) : Prop :=
  Forall (fun wp => 0 <= Weapon.ammoCost wp /\ 0 <= Weapon.ammoMax wp)
         (GameState.weapons (gs w)).

(** The pickups a player at [pl] collects in "Collect bolts". *)
Definition reachable (pl : Player.t) (bs : list Bolt.t) : list Bolt.t :=
  filter (fun b => negb (Bolt.collected b) && inReach pl b) bs.

(** A pickup after the [forEach] of "Collect bolts". *)
Definition visited (pl : Player.t) (b : Bolt.t) : Bolt.t :=
  Bolt.mk (Bolt.x b) (Bolt.y b) (Bolt.collected b || inReach pl b)
          (Bolt.sparkle b + 0.1).

(** The ammo after "Ammo regen". *)
Definition regenerated (ammo : Q) (ammoMax : Z) : Q :=
  if Qltb ammo (inject_Z ammoMax)
  then Math_min (inject_Z ammoMax) (ammo + 0.1)
  else ammo.


(** ** Concrete inputs used by the examples

    An instance of [JsMath] that is exact at the arguments the examples
    below evaluate: [cos 0 = 1], [sin 0 = 0], [atan2 0 d = 0] for [d > 0];
    every [Math.random()] returns [0], so every random angle is [0].
    [sqrt] is the integer square root of the integer part, exact on the
    perfect squares. *)
Definition exampleMath : JsMath := {|
  cos := fun _ => 1%Q;
  sin := fun _ => 0%Q;
  atan2 := fun _ _ => 0%Q;
  sqrt := fun q => inject_Z (Z.sqrt (Qfloor q));
  PI := 3.141592653589793%Q;
  random := fun _ => 0%Q
|}.

(** A second instance, with a random stream that takes ten values and
    with the rational parametrisation of the unit circle in place of the
    trigonometric functions: [cos a * cos a + sin a * sin a == 1] holds for
    every [a], and neither function is constant. *)
Definition variedMath : JsMath := {|
  cos := fun a => ((1 - a * a) / (1 + a * a))%Q;
  sin := fun a => (2 * a / (1 + a * a))%Q;
  atan2 := fun _ _ => 0%Q;
  sqrt := fun q => inject_Z (Z.sqrt (Qfloor q));
  PI := 3.141592653589793%Q;
  random := fun i => (inject_Z (Z.of_nat i mod 10) / 10)%Q
|}.

(** The first weapon of the roster at level 1. *)
Definition blaster : Weapon.t :=
  Weapon.mk "Blaster" 10 200 100 1 "#00d4ff" 6 0 1 50.

(** A running game with nothing on the field. *)
Definition runningWorld : World := mkWorld (freshState true) 0 0%nat.

(** The third weapon of the roster at level 1. *)
Definition plasmaStorm : Weapon.t :=
  Weapon.mk "Plasma Storm" 5 50 200 1 "#a855f7" 4 0.3 1 150.

(** A running game with nothing on the field, the Plasma Storm selected,
    and three random numbers drawn so far. *)
Definition stormWorld : World :=
  mkWorld (GameState.set_currentWeapon 2 (freshState true)) 0 3%nat.

(** A running game in which the player holds exactly 50 bolts, the price of
    the first upgrade of the Blaster. *)
Definition richWorld : World := upd (GameState.set_bolts 50) runningWorld.

(** The mouse 100 units to the right of the player's start position, no key
    held, no button held. *)
Definition idleInput (now : Z) : Input :=
  mkInput [] (inject_Z (CANVAS_WIDTH / 2 + 100)) (inject_Z (CANVAS_HEIGHT / 2))
          false now.

(** A drone with 30 health at the top of the field, and a player projectile
    of a given damage right on it. *)
Definition drone30 : Enemy.t := Enemy.mk 600 100 30 30 drone 0 60.

Definition arenaWorld : World :=
  upd (GameState.set_enemies [drone30]) runningWorld.

Definition shot (damage : Z) : Projectile.t :=
  Projectile.mk 600 100 0 (-15) damage false "#00d4ff" 6.

(** A drone's projectile (damage 10) and a tank's projectile (damage 15)
    resting on the player's start position. *)
Definition enemyShot : Projectile.t :=
  Projectile.mk 600 350 0 0 10 true "#ff3366" 6.

Definition tankShot : Projectile.t :=
  Projectile.mk 600 350 0 0 15 true "#ff3366" 6.

(** A running game late in a run: the player, standing at the start
    position, is down to [health], and the field holds the given enemies,
    projectiles and pickups. *)
Definition lateWorld (health : Z) (enemies : list Enemy.t)
  (projectiles : list Projectile.t) (pickups : list Bolt.t) : World :=
  mkWorld
    (GameState.mk (Player.mk 600 350 0 0 health 100 0 0) initialWeapons 0%nat
                  50 0 0 enemies projectiles [] pickups 1 0 false false true)
    0 0%nat.

(** The last stand: 10 health left, an enemy projectile of damage 10 on the
    player, a drone with 30 health to the left with the player's own
    projectile (damage 30) where the drone will be after its move, and a
    pickup at the player's feet. *)
Definition lastStand : World :=
  lateWorld 10
    [Enemy.mk 300 350 30 30 drone 0 60]
    [enemyShot; Projectile.mk 302 350 0 0 30 false "#00d4ff" 6]
    [Bolt.mk 600 350 false 0].

(** ** Constants of the enemy variants, as the frame callback inlines them *)

(** Frames between two volleys. *)
Definition enemyFireRate (ty : EnemyType) : Q :=
  match ty with boss => 30 | tank => 90 | drone => 120 end.

(** Projectiles per volley. *)
Definition volley (ty : EnemyType) : nat :=
  match ty with boss => 5 | _ => 1 end%nat.

(** Damage of each projectile of a volley. *)
Definition enemyDamage (ty : EnemyType) : Z :=
  match ty with drone => 10 | _ => 15 end.

(** ** More views *)

(** What "Shooting" never writes. *)
Definition shotFrame (w : World) :=
  let s := gs w in
  (GameState.player s, GameState.weapons s, GameState.currentWeapon s,
   GameState.bolts s, GameState.totalBolts s, GameState.enemies s,
   GameState.boltPickups s, GameState.wave s, GameState.score s,
   GameState.gameOver s, GameState.paused s, GameState.started s).

(** Where the player is, how fast it moves and where it faces. *)
Definition pose (w : World) :=
  let pl := GameState.player (gs w) in
  (Player.x pl, Player.y pl, Player.vx pl, Player.vy pl, Player.angle pl).

(** [n] successive runs of a step that may throw. *)
Fixpoint times {A} (n : nat) (f : A -> option A) (a : A) : option A :=
  match n with
  | O => Some a
  | S k => match f a with Some b => times k f b | None => None end
  end.

(** The books of the collision pass: enemies on the field, score, pickups
    on the field. *)
Definition tally (w : World) : nat * Z * nat :=
  (List.length (GameState.enemies (gs w)), GameState.score (gs w),
   List.length (GameState.boltPickups (gs w))).

(** [w'] differs from [w] by [k] kills: [k] enemies fewer, between 50 and
    500 points and between 3 and 20 pickups more for each. *)
Definition kills (k : nat) (w w' : World) : Prop :=
  let '(e, s, b) := tally w in
  let '(e', s', b') := tally w' in
  (e' + k = e)%nat /\
  50 * Z.of_nat k <= s' - s /\ s' - s <= 500 * Z.of_nat k /\
  (b + 3 * k <= b')%nat /\ (b' <= b + 20 * k)%nat.

(** An enemy projectile carries the damage of a drone or of a tank or
    boss. *)
Definition regular (p : Projectile.t) : Prop :=
  Projectile.isEnemy p = true ->
  Projectile.damage p = 10 \/ Projectile.damage p = 15.

(** The roster and the counters are in order: four weapons, an active slot
    among them, levels from 1 to 5, non-negative prices, a balance between
    0 and the lifetime total, a wave number from 1, a non-negative score. *)
Definition tidy (w : World) : Prop :=
  let s := gs w in
  List.length (GameState.weapons s) = 4%nat /\
  (GameState.currentWeapon s < 4)%nat /\
  Forall (fun wp => 1 <= Weapon.level wp <= 5 /\ 0 <= Weapon.upgradeCost wp)
         (GameState.weapons s) /\
  0 <= GameState.bolts s <= GameState.totalBolts s /\
  1 <= GameState.wave s /\
  0 <= GameState.score s.

(** The player's health is in order: at most 100, above -15, positive while
    the game is not over; only regular enemy projectiles are in flight. *)
Definition hardy (w : World) : Prop :=
  let s := gs w in
  let pl := GameState.player s in
  Player.maxHealth pl = 100 /\
  -15 < Player.health pl <= 100 /\
  (GameState.gameOver s = false -> 0 < Player.health pl) /\
  Forall regular (GameState.projectiles s).

(** The slot of a key or click is one of the four. *)
Definition inRoster (ev : Event) : Prop :=
  match ev with
  | Select index | Upgrade index => (index < 4)%nat
  | _ => True
  end.

(** A short session: start, pick the Devastator, one frame, try an
    upgrade, pause over a frame, retry. *)
Definition sampleRun : list Event :=
  [Start; Select 3; Frame (idleInput 0); Upgrade 0; Pause;
   Frame (idleInput 16); Pause; Retry].

(** [e] waits 50 units outside one of the four edges of the field. *)
Definition onEntryFrame (e : Enemy.t) : Prop :=
  let x := Enemy.x e in
  let y := Enemy.y e in
  ((y == -50)%Q /\ (0 <= x)%Q /\ (x < 1200)%Q) \/
  ((x == 1250)%Q /\ (0 <= y)%Q /\ (y < 700)%Q) \/
  ((y == 750)%Q /\ (0 <= x)%Q /\ (x < 1200)%Q) \/
  ((x == -50)%Q /\ (0 <= y)%Q /\ (y < 700)%Q).

(** ** The world entering the collision pass *)

(** "Update invincibility", "Update projectiles" and "Update enemies", run
    on the world [w1] that "Shooting" leaves: the steps of the frame
    callback between "Shooting" and "Collision detection". *)
Definition beforeCollisions {M : JsMath} (w1 : World) : World :=
  updateEnemies (updateProjectiles (tickInvincible w1)).

(** Two drones with 30 health on the same spot above the player, and a
    player projectile of damage 30 one frame below them, flying up. *)
Definition duelWorld : World :=
  lateWorld 100
    [Enemy.mk 600 250 30 30 drone 0 60; Enemy.mk 600 250 30 30 drone 0 60]
    [Projectile.mk 600 265 0 (-15) 30 false "#00d4ff" 6] [].

(** A drone far to the left, and two enemy projectiles of damage 10
    resting on the player. *)
Definition ambushWorld : World :=
  lateWorld 100 [Enemy.mk 300 350 30 30 drone 0 60] [enemyShot; enemyShot] [].

(** [p] stays strictly inside the field extended by a margin of 50 after
    each of its first [n] displacements. *)
Definition survives (n : nat) (p : Projectile.t) : bool :=
  forallb (fun k => inBounds (Nat.iter k moveProjectile p)) (seq 1 n).

(** ** Frames in which the roster of enemies is stable *)

(** The test [enemy.shootCooldown <= 0] of "Update enemies", made after
    the cooldown has been counted down by one. *)
Definition firing (e : Enemy.t) : bool :=
  Qle_bool (Enemy.shootCooldown e - 1) 0.

(** [e'] is [e] up to its health. *)
Definition hurt (e e' : Enemy.t) : Prop :=
  e' = Enemy.set_health (Enemy.health e') e.

(** Running frames, none of which removes an enemy or spawns a wave. *)
Fixpoint calm {M : JsMath} (inps : list Input) (w : World) : Prop :=
  match inps with
  | [] => True
  | inp :: r =>
    gated (gs w) = false /\
    exists w',
      gameLoop inp w = Some w' /\
      List.length (GameState.enemies (gs w'))
        = List.length (GameState.enemies (gs w)) /\
      GameState.wave (gs w') = GameState.wave (gs w) /\
      calm r w'
  end.

(** A drone far to the left of the player whose cooldown is 3, and
    nothing in flight. *)
Definition standoffWorld : World :=
  lateWorld 100 [Enemy.mk 300 350 30 30 drone 0 3] [] [].

(** * Properties *)

(** Arithmetic stays folded under [simpl]. *)
#[local] Arguments Z.add : simpl never.
#[local] Arguments Z.sub : simpl never.
#[local] Arguments Z.mul : simpl never.
#[local] Arguments Z.div : simpl never.
#[local] Arguments Z.modulo : simpl never.
#[local] Arguments Z.leb : simpl never.
#[local] Arguments Z.ltb : simpl never.
#[local] Arguments Z.eqb : simpl never.
#[local] Arguments Z.to_nat : simpl never.
#[local] Arguments Qplus : simpl never.
#[local] Arguments Qminus : simpl never.
#[local] Arguments Qmult : simpl never.
#[local] Arguments Qdiv : simpl never.
#[local] Arguments Qopp : simpl never.
#[local] Arguments Qfloor : simpl never.
#[local] Arguments Qle_bool : simpl never.
#[local] Arguments inject_Z : simpl never.
#[local] Arguments Qltb : simpl never.
#[local] Arguments Math_min : simpl never.
#[local] Arguments Math_max : simpl never.
#[local] Arguments Nat.mul : simpl never.

(** ** Comparisons and arrays *)

Lemma Qltb_lt (a b : Q) : Qltb a b = true <-> (a < b)%Q.
Proof.
  unfold Qltb. rewrite negb_true_iff.
  split; intro H.
  - apply Qnot_le_lt. intro L. apply Qle_bool_iff in L. congruence.
  - destruct (Qle_bool b a) eqn:E; trivial.
    apply Qle_bool_iff in E. exfalso. apply (Qlt_not_le _ _ H E).
Qed.

Lemma Qltb_ge (a b : Q) : Qltb a b = false <-> (b <= a)%Q.
Proof.
  unfold Qltb. rewrite negb_false_iff. apply Qle_bool_iff.
Qed.


Lemma setAt_length {A} (i : nat) (v : A) (l : list A) :
  List.length (setAt i v l) = List.length l.
Proof.
  revert i; induction l as [|a r IH]; intros [|j]; simpl; auto.
Qed.

Lemma setAt_same {A} (i : nat) (v a : A) (l : list A) :
  nth_error l i = Some a -> nth_error (setAt i v l) i = Some v.
Proof.
  revert i; induction l as [|b r IH]; intros [|j]; simpl;
    try discriminate; auto.
Qed.

Lemma setAt_other {A} (i j : nat) (v : A) (l : list A) :
  j <> i -> nth_error (setAt i v l) j = nth_error l j.
Proof.
  revert i j; induction l as [|b r IH]; intros [|i] [|j] H; simpl; auto;
    try congruence.
Qed.

Lemma splice1_length {A} (i : nat) (a : A) (l : list A) :
  nth_error l i = Some a -> S (List.length (splice1 i l)) = List.length l.
Proof.
  revert i; induction l as [|b r IH]; intros [|j]; simpl;
    try discriminate; auto.
Qed.

Lemma splice1_before {A} (i j : nat) (l : list A) :
  (j < i)%nat -> nth_error (splice1 i l) j = nth_error l j.
Proof.
  revert i j; induction l as [|b r IH]; intros [|i] [|j] H; simpl; auto;
    try lia.
  apply IH. lia.
Qed.

Lemma splice1_after {A} (i j : nat) (l : list A) :
  (i <= j)%nat -> nth_error (splice1 i l) j = nth_error l (S j).
Proof.
  revert i j; induction l as [|b r IH]; intros [|i] [|j] H; simpl; auto;
    try lia.
  apply IH. lia.
Qed.

(** ** Frames of the spawning helpers *)

Section SpawnFacts.
Context {M : JsMath}.

Lemma world_eta (w : World) : mkWorld (gs w) (lastShot w) (rng w) = w.
Proof. destruct w; reflexivity. Qed.

Lemma mkWorld_eq (s s' : GameState.t) (l l' : Z) (r r' : nat) :
  s = s' -> l = l' -> r = r' -> mkWorld s l r = mkWorld s' l' r'.
Proof. now intros -> -> ->. Qed.

Lemma set_particles_eta (s : GameState.t) :
  GameState.set_particles (GameState.particles s) s = s.
Proof. destruct s; reflexivity. Qed.

Lemma set_boltPickups_eta (s : GameState.t) :
  GameState.set_boltPickups (GameState.boltPickups s) s = s.
Proof. destruct s; reflexivity. Qed.

Lemma set_enemies_eta (s : GameState.t) :
  GameState.set_enemies (GameState.enemies s) s = s.
Proof. destruct s; reflexivity. Qed.

(** [spawnParticles] appends [count] particles and draws [4 * count] random
    numbers; nothing else changes. *)
Lemma spawnParticles_spec (x y : Q) (c : string) (count : nat) (sp : Q)
  (w : World) :
  exists ps,
    List.length ps = count /\
    spawnParticles x y c count sp w =
    mkWorld (GameState.set_particles (GameState.particles (gs w) ++ ps) (gs w))
            (lastShot w) (rng w + 4 * count).
Proof.
  revert w. induction count as [|n IH]; intro w.
  - exists []. split; [reflexivity|].
    simpl. rewrite app_nil_r, set_particles_eta, Nat.add_0_r.
    symmetry. apply world_eta.
  - simpl spawnParticles.
    destruct (IH (pushParticle x y c sp w)) as (ps & L & E).
    rewrite E. unfold pushParticle. simpl.
    eexists (_ :: ps). split; [simpl; now rewrite L|].
    rewrite <- app_assoc. simpl.
    apply mkWorld_eq; [reflexivity | reflexivity | lia].
Qed.

(** [spawnBolts] appends [count] uncollected pickups and draws [3 * count]
    random numbers; nothing else changes. *)
Lemma spawnBolts_spec (x y : Q) (count : nat) (w : World) :
  exists bs,
    List.length bs = count /\
    Forall (fun b => Bolt.collected b = false) bs /\
    spawnBolts x y count w =
    mkWorld (GameState.set_boltPickups
               (GameState.boltPickups (gs w) ++ bs) (gs w))
            (lastShot w) (rng w + 3 * count).
Proof.
  revert w. induction count as [|n IH]; intro w.
  - exists []. split; [reflexivity|]. split; [constructor|].
    simpl. rewrite app_nil_r, set_boltPickups_eta, Nat.add_0_r.
    symmetry. apply world_eta.
  - simpl spawnBolts.
    destruct (IH (pushBolt x y w)) as (bs & L & F & E).
    rewrite E. unfold pushBolt. simpl.
    eexists (_ :: bs). split; [simpl; now rewrite L|].
    split.
    2: { rewrite <- app_assoc. simpl.
         apply mkWorld_eq; [reflexivity | reflexivity | lia]. }
    constructor; [reflexivity | exact F].
Qed.

(** One iteration of the loop of [spawnWave]: the enemy appended and the
    random numbers drawn. *)
Lemma spawnOne_spec (wave : Z) (w : World) :
  exists e,
    waveEnemy wave (rng w) 0 e /\
    spawnOne wave w =
    mkWorld (GameState.set_enemies (GameState.enemies (gs w) ++ [e]) (gs w))
            (lastShot w) (rng w + drawsPerEnemy wave).
Proof.
  unfold spawnOne, waveEnemy, waveVariant, drawsPerEnemy. simpl.
  replace (rng w + 4 * 0 + 2)%nat with (S (S (rng w))) by lia.
  destruct (3 <? wave) eqn:Hw; simpl;
    match goal with
    | |- context [let '(_, _) := ?c in _] => destruct c as [x y]
    end; unfold pushEnemy, upd; simpl; eexists;
    (split; [| apply mkWorld_eq; [reflexivity | reflexivity | lia]]); simpl.
  - split; [reflexivity|]. split; [ring | reflexivity].
  - split; [reflexivity|]. split; [ring | reflexivity].
Qed.

Lemma spawnLoop_spec (count : nat) (wave : Z) (w : World) :
  exists es,
    List.length es = count /\
    (forall i e, nth_error es i = Some e -> waveEnemy wave (rng w) i e) /\
    spawnLoop count wave w =
    mkWorld (GameState.set_enemies (GameState.enemies (gs w) ++ es) (gs w))
            (lastShot w) (rng w + drawsPerEnemy wave * count).
Proof.
  revert w. induction count as [|n IH]; intro w.
  - exists []. split; [reflexivity|].
    split; [intros [|i] e H; discriminate|].
    simpl. rewrite app_nil_r, set_enemies_eta, Nat.mul_0_r, Nat.add_0_r.
    symmetry. apply world_eta.
  - simpl spawnLoop.
    destruct (spawnOne_spec wave w) as (e & He & E1). rewrite E1.
    destruct (IH (mkWorld (GameState.set_enemies
                             (GameState.enemies (gs w) ++ [e]) (gs w))
                          (lastShot w) (rng w + drawsPerEnemy wave)))
      as (es & L & F & E).
    rewrite E. exists (e :: es).
    split; [simpl; now rewrite L|].
    split.
    + intros [|i] e' H.
      * injection H as <-. exact He.
      * specialize (F i e' H). cbn [rng] in F.
        unfold waveEnemy in *. unfold waveVariant in *.
        unfold drawsPerEnemy in F.
        destruct (3 <? wave) eqn:Hw.
        -- replace (rng w + 4 * S i + 2)%nat
             with (rng w + 4 + 4 * i + 2)%nat by lia. exact F.
        -- cbn [andb] in *. exact F.
    + cbn [gs lastShot rng GameState.enemies GameState.set_enemies].
      rewrite <- app_assoc.
      apply mkWorld_eq; [reflexivity | reflexivity | lia].
Qed.

(** [spawnWave] only appends enemies (at least one whenever [0 <= wave])
    and draws random numbers. *)
Lemma spawnWave_frame (wave : Z) (w : World) :
  exists es r,
    (0 <= wave -> es <> []) /\
    spawnWave wave w =
    mkWorld (GameState.set_enemies (GameState.enemies (gs w) ++ es) (gs w))
            (lastShot w) r.
Proof.
  unfold spawnWave.
  destruct (spawnLoop_spec (Z.to_nat (3 + wave * 2)) wave w)
    as (es & L & _ & E).
  rewrite E.
  set (r := (rng w + drawsPerEnemy wave * Z.to_nat (3 + wave * 2))%nat).
  assert (N : 0 <= wave -> es <> []).
  { intros Hw ->. simpl in L. lia. }
  destruct (wave mod 5 =? 0).
  - exists (es ++ [spawnBoss wave]), r. split.
    + intros Hw Hnil. apply app_eq_nil in Hnil. now apply N.
    + unfold pushEnemy, upd. simpl. rewrite <- app_assoc. reflexivity.
  - now exists es, r.
Qed.

End SpawnFacts.

(** From here on the spawning loops are used through the lemmas above. *)
#[local] Arguments spawnParticles : simpl never.
#[local] Arguments spawnBolts : simpl never.
#[local] Arguments spawnLoop : simpl never.
#[local] Arguments spawnWave : simpl never.

(** ** The wave spawner *)

(** C5.  For a wave number [n >= 1], [spawnWave n] appends to the enemy
    collection exactly [3 + 2n] non-boss enemies, each a tank or a drone
    with [health = maxHealth = (30 + 10n) * 3] for a tank and
    [(30 + 10n) * 1] for a drone.  The variant of enemy number [i] (from 0)
    is decided by that enemy's own draw: with [r0] numbers drawn before the
    call, it is a tank exactly when [n > 3] and number [r0 + 4i + 2] of the
    random stream (the third of the four numbers drawn for that enemy) is
    below [0.2]; so for [n <= 3], where only three numbers are drawn per
    enemy, every enemy is a drone.  After them it appends exactly one boss,
    with health [200 + 50n], zero fire cooldown, at the top-centre entry
    point [(600, -100)], if and only if [n mod 5 = 0].  Nothing else in the
    game state changes, and the call draws [4] (for [n > 3]) or [3] random
    numbers per non-boss enemy and none for the boss. *)
Theorem spawnWave_spec {M : JsMath} (n : Z) (w : World) :
  1 <= n ->
  exists es,
    spawnWave n w =
    mkWorld (GameState.set_enemies
               (GameState.enemies (gs w) ++ es ++
                (if n mod 5 =? 0 then [spawnBoss n] else []))
               (gs w))
            (lastShot w) (rng w + drawsPerEnemy n * List.length es) /\
    Z.of_nat (List.length es) = 3 + 2 * n /\
    (forall i e, nth_error es i = Some e ->
                 waveEnemy n (rng w) i e /\ Enemy.type e <> boss) /\
    (forall i e, nth_error es i = Some e ->
                 (Enemy.type e = tank <->
                  3 < n /\ (random (rng w + 4 * i + 2) < 0.2)%Q)) /\
    (n <= 3 -> Forall (fun e => Enemy.type e = drone) es) /\
    Z.of_nat (List.length
                (es ++ (if n mod 5 =? 0 then [spawnBoss n] else []))) =
      3 + 2 * n + (if n mod 5 =? 0 then 1 else 0) /\
    Enemy.type (spawnBoss n) = boss /\
    Enemy.health (spawnBoss n) = 200 + 50 * n /\
    Enemy.maxHealth (spawnBoss n) = 200 + 50 * n /\
    (Enemy.shootCooldown (spawnBoss n) == 0)%Q /\
    (Enemy.x (spawnBoss n) == 600)%Q /\
    (Enemy.y (spawnBoss n) == -100)%Q.
Proof.
  intro Hn. unfold spawnWave.
  destruct (spawnLoop_spec (Z.to_nat (3 + n * 2)) n w) as (es & L & F & E).
  rewrite E. exists es.
  assert (Les : Z.of_nat (List.length es) = 3 + 2 * n) by (rewrite L; lia).
  assert (Hty : forall i e, nth_error es i = Some e ->
                  Enemy.type e =
                  waveVariant n (random (rng w + 4 * i + 2)))
    by (intros i e H; exact (proj1 (F i e H))).
  split.
  { rewrite L. destruct (n mod 5 =? 0).
    - unfold pushEnemy, upd. simpl. rewrite <- app_assoc. reflexivity.
    - rewrite app_nil_r. reflexivity. }
  split; [exact Les|].
  split.
  { intros i e H. split; [exact (F i e H)|].
    rewrite (Hty i e H). unfold waveVariant.
    destruct ((3 <? n) && Qltb (random (rng w + 4 * i + 2)) 0.2);
      discriminate. }
  split.
  { intros i e H. rewrite (Hty i e H). unfold waveVariant.
    destruct (3 <? n) eqn:H3; cbn [andb].
    - apply Z.ltb_lt in H3.
      destruct (Qltb (random (rng w + 4 * i + 2)) 0.2) eqn:Hq.
      + apply Qltb_lt in Hq. tauto.
      + split; [discriminate|]. intros [_ Hlt].
        apply Qltb_lt in Hlt. congruence.
    - apply Z.ltb_ge in H3. split; [discriminate | lia]. }
  split.
  { intro H3. apply Forall_forall. intros e He.
    destruct (In_nth_error _ _ He) as (i & Hi).
    rewrite (Hty i e Hi). unfold waveVariant.
    apply Z.ltb_ge in H3. now rewrite H3. }
  split.
  { rewrite length_app, Nat2Z.inj_add, Les.
    destruct (n mod 5 =? 0); reflexivity. }
  unfold spawnBoss. simpl.
  repeat split; try reflexivity; ring.
Qed.

(** Wave 5 on an empty field with the ten-valued random stream: 13
    non-boss enemies and the boss, 52 numbers drawn.  The variant draws are
    the numbers 2, 6, 10, ... of the stream, that is 0.2, 0.6, 0, 0.4, 0.8,
    ...: enemy 0 is a drone with 80 health, enemy 2 a tank with 240. *)
Lemma spawnWave_spec_witness :
  1 <= 5 /\
  exists es e0 e2,
    spawnWave (M := variedMath) 5 runningWorld =
    mkWorld (GameState.set_enemies (es ++ [spawnBoss 5]) (gs runningWorld))
            0 52 /\
    List.length es = 13%nat /\
    nth_error es 0 = Some e0 /\ nth_error es 2 = Some e2 /\
    (Enemy.type e0, Enemy.health e0) = (drone, 80) /\
    (Enemy.type e2, Enemy.health e2) = (tank, 240).
Proof.
  split; [lia|].
  destruct (spawnWave_spec (M := variedMath) 5 runningWorld)
    as (es & E & L & F & _); [lia|].
  assert (L' : List.length es = 13%nat) by lia.
  destruct (nth_error es 0) as [e0|] eqn:H0;
    [|apply nth_error_None in H0; lia].
  destruct (nth_error es 2) as [e2|] eqn:H2;
    [|apply nth_error_None in H2; lia].
  exists es, e0, e2.
  split; [rewrite E, L'; reflexivity|].
  split; [exact L'|]. split; [exact H0|]. split; [exact H2|].
  destruct (F _ _ H0) as [(T0 & Hh0 & _) _].
  destruct (F _ _ H2) as [(T2 & Hh2 & _) _].
  rewrite Hh0, Hh2, T0, T2. split; reflexivity.
Defined.

(** ** The guard of the frame callback *)

Lemma gated_iff (s : GameState.t) :
  gated s = true <->
  GameState.started s = false \/ GameState.paused s = true \/
  GameState.gameOver s = true.
Proof.
  unfold gated. rewrite !orb_true_iff, negb_true_iff. tauto.
Qed.

Lemma run_gated {M : JsMath} (inps : list Input) (w : World) :
  gated (gs w) = true -> run inps w = Some w.
Proof.
  intro G. induction inps as [|inp r IH]; [reflexivity|].
  simpl. unfold gameLoop. rewrite G. exact IH.
Qed.

(** C9.  In a state where [started] is false, or [paused] is true, or
    [gameOver] is true, one tick returns the world exactly as it was: no
    movement, firing, motion, collision, pickup, regeneration or spawning.
    Hence every later tick is a no-op too, whatever the inputs, and only an
    explicit reset (which clears the flags) lets the simulation proceed. *)
Theorem gameLoop_gated {M : JsMath} (inp : Input) (w : World) :
  GameState.started (gs w) = false \/ GameState.paused (gs w) = true \/
  GameState.gameOver (gs w) = true ->
  gameLoop inp w = Some w /\
  (forall inps, run inps w = Some w) /\
  gated (gs (resetGame w)) = false.
Proof.
  intro H. apply gated_iff in H.
  split; [unfold gameLoop; now rewrite H|].
  split; [intro inps; now apply run_gated|].
  unfold resetGame.
  destruct (spawnWave_frame 1 (mkWorld (freshState true) (lastShot w) (rng w)))
    as (es & r & _ & E).
  rewrite E. reflexivity.
Qed.

(** Before the start button is pressed the loop does nothing. *)
Lemma gameLoop_gated_witness :
  (GameState.started (gs initialWorld) = false \/
   GameState.paused (gs initialWorld) = true \/
   GameState.gameOver (gs initialWorld) = true) /\
  gameLoop (M := exampleMath) (idleInput 0) initialWorld = Some initialWorld /\
  (forall inps, run (M := exampleMath) inps initialWorld = Some initialWorld) /\
  gated (gs (resetGame (M := exampleMath) initialWorld)) = false.
Proof.
  split; [left; reflexivity|].
  apply (gameLoop_gated (M := exampleMath)). left; reflexivity.
Defined.

(** ** Weapon upgrades *)

(** C4.  For a weapon index of the roster, [upgradeWeapon] succeeds exactly
    when [bolts >= upgradeCost] and [level < 5].  On success the balance
    drops by exactly [upgradeCost], the level grows by one, and [damage],
    [ammoMax], [upgradeCost] become the floors of 1.3, 1.2 and 1.8 times
    their old values; the weapon's other fields, the other weapons and the
    rest of the world are untouched.  Otherwise (balance below the cost, or
    level 5 or more whatever the balance) the world is returned unchanged. *)
Theorem upgradeWeapon_spec (index : nat) (w : World)
  (weapon : Weapon.t) :
  nth_error (GameState.weapons (gs w)) index = Some weapon ->
  (Weapon.upgradeCost weapon <= GameState.bolts (gs w) /\
   Weapon.level weapon < 5 ->
   exists w' weapon',
     upgradeWeapon index w = Some w' /\
     GameState.bolts (gs w') =
       GameState.bolts (gs w) - Weapon.upgradeCost weapon /\
     nth_error (GameState.weapons (gs w')) index = Some weapon' /\
     Weapon.level weapon' = Weapon.level weapon + 1 /\
     Weapon.damage weapon' = Qfloor (inject_Z (Weapon.damage weapon) * 1.3) /\
     Weapon.ammoMax weapon' = Qfloor (inject_Z (Weapon.ammoMax weapon) * 1.2) /\
     Weapon.upgradeCost weapon' =
       Qfloor (inject_Z (Weapon.upgradeCost weapon) * 1.8) /\
     (Weapon.name weapon', Weapon.fireRate weapon', Weapon.ammoCost weapon',
      Weapon.color weapon', Weapon.projectileSize weapon',
      Weapon.spread weapon') =
     (Weapon.name weapon, Weapon.fireRate weapon, Weapon.ammoCost weapon,
      Weapon.color weapon, Weapon.projectileSize weapon,
      Weapon.spread weapon) /\
     (forall j, j <> index ->
        nth_error (GameState.weapons (gs w')) j =
        nth_error (GameState.weapons (gs w)) j) /\
     List.length (GameState.weapons (gs w')) =
       List.length (GameState.weapons (gs w)) /\
     w' = upd (fun s => GameState.set_weapons (GameState.weapons (gs w'))
                          (GameState.set_bolts (GameState.bolts (gs w')) s))
              w) /\
  (GameState.bolts (gs w) < Weapon.upgradeCost weapon \/
   5 <= Weapon.level weapon ->
   upgradeWeapon index w = Some w).
Proof.
  intro Hw. unfold upgradeWeapon. rewrite Hw. split.
  - intros [Hb Hl].
    apply Z.leb_le in Hb. apply Z.ltb_lt in Hl. rewrite Hb, Hl. simpl.
    do 2 eexists. split; [reflexivity|]. simpl.
    split; [reflexivity|].
    split; [eapply setAt_same; exact Hw|]. simpl.
    repeat (split; [reflexivity|]).
    split; [intros j Hj; now apply setAt_other|].
    split; [apply setAt_length | reflexivity].
  - intros [Hb | Hl].
    + apply Z.leb_gt in Hb. now rewrite Hb.
    + apply Z.ltb_ge in Hl. rewrite Hl. now rewrite andb_false_r.
Qed.

(** With exactly 50 bolts the Blaster (10 damage, 100 ammo, cost 50) is
    upgraded; with none it is not. *)
Lemma upgradeWeapon_spec_witness :
  nth_error (GameState.weapons (gs richWorld)) 0 =
    Some (Weapon.mk "Blaster" 10 200 100 1 "#00d4ff" 6 0 1 50) /\
  (exists w' weapon',
     upgradeWeapon 0 richWorld = Some w' /\
     GameState.bolts (gs w') = 0 /\
     nth_error (GameState.weapons (gs w')) 0 = Some weapon' /\
     Weapon.level weapon' = 2 /\
     Weapon.damage weapon' = 13 /\
     Weapon.ammoMax weapon' = 120 /\
     Weapon.upgradeCost weapon' = 90) /\
  upgradeWeapon 0 runningWorld = Some runningWorld.
Proof.
  split; [reflexivity|]. split.
  - destruct (upgradeWeapon_spec 0%nat richWorld
                (Weapon.mk "Blaster" 10 200 100 1 "#00d4ff" 6 0 1 50)
                eq_refl) as [Hs _].
    destruct Hs as (w' & weapon' & E & Hb & Hn & Hl & Hd & Ha & Hc & _).
    + simpl. lia.
    + exists w', weapon'. repeat split; assumption.
  - apply (upgradeWeapon_spec 0%nat runningWorld
             (Weapon.mk "Blaster" 10 200 100 1 "#00d4ff" 6 0 1 50) eq_refl).
    left. simpl. lia.
Defined.

(** ** Firing *)

Section ShootFacts.
Context {M : JsMath}.

(** The projectile a successful [shoot] emits. *)
Lemma shoot_fires (now : Z) (w : World) (weapon : Weapon.t) :
  nth_error (GameState.weapons (gs w)) (GameState.currentWeapon (gs w)) =
    Some weapon ->
  Weapon.fireRate weapon <= now - lastShot w ->
  (inject_Z (Weapon.ammoCost weapon) <= GameState.ammo (gs w))%Q ->
  exists ps,
    let pl := GameState.player (gs w) in
    let angle :=
      (Player.angle pl + (random (rng w) - 0.5) * Weapon.spread weapon)%Q in
    shoot now w =
    Some (mkWorld
            (GameState.set_particles (GameState.particles (gs w) ++ ps)
               (GameState.set_projectiles
                  (GameState.projectiles (gs w) ++
                   [Projectile.mk (Player.x pl + cos angle * 30)
                                  (Player.y pl + sin angle * 30)
                                  (cos angle * 15) (sin angle * 15)
                                  (Weapon.damage weapon * Weapon.level weapon)
                                  false (Weapon.color weapon)
                                  (Weapon.projectileSize weapon)])
                  (GameState.set_ammo
                     (GameState.ammo (gs w)
                      - inject_Z (Weapon.ammoCost weapon))%Q (gs w))))
            now (S (rng w) + 4 * 5)).
Proof.
  intros Hw Hc Ha. unfold shoot. rewrite Hw.
  apply Z.ltb_ge in Hc. rewrite Hc.
  apply Qltb_ge in Ha. rewrite Ha.
  unfold Math_random. simpl.
  match goal with
  | |- context [spawnParticles ?x ?y ?c ?n ?s ?w0] =>
    destruct (spawnParticles_spec x y c n s w0) as (ps & _ & E)
  end.
  exists ps. rewrite E. reflexivity.
Qed.

Lemma shoot_blocked (now : Z) (w : World) (weapon : Weapon.t) :
  nth_error (GameState.weapons (gs w)) (GameState.currentWeapon (gs w)) =
    Some weapon ->
  now - lastShot w < Weapon.fireRate weapon \/
  (GameState.ammo (gs w) < inject_Z (Weapon.ammoCost weapon))%Q ->
  shoot now w = Some w.
Proof.
  intros Hw H. unfold shoot. rewrite Hw.
  destruct (now - lastShot w <? Weapon.fireRate weapon) eqn:Hc; [reflexivity|].
  destruct H as [H | H].
  - apply Z.ltb_ge in Hc. lia.
  - apply Qltb_lt in H. now rewrite H.
Qed.

End ShootFacts.

(** C3.  With the active weapon [weapon]: when both the cooldown condition
    ([now - lastShot >= fireRate]) and the ammo condition
    ([ammo >= ammoCost]) hold, [shoot] deducts exactly [ammoCost], records
    [now], and appends exactly one projectile [p]: player-owned, with
    damage [damage * level], launched 30 units in front of the player with
    velocity [(cos a * 15, sin a * 15)].  The launch angle [a] is the
    player's facing angle plus the offset [off = (r - 0.5) * spread], where
    [r] is the one number [shoot] draws from the random stream for the
    projectile; for [0 <= r < 1] the offset lies within
    [-spread/2, +spread/2], and the velocity has magnitude 15 whenever
    [(cos a, sin a)] is a unit vector.  Five cosmetic particles are added
    and twenty more numbers drawn for them; nothing else changes.  A second
    attempt less than [fireRate] after the shot changes nothing.  When
    either condition fails the world is returned unchanged: no projectile,
    same ammo. *)
Theorem shoot_spec {M : JsMath} (now : Z) (w : World) (weapon : Weapon.t) :
  nth_error (GameState.weapons (gs w)) (GameState.currentWeapon (gs w)) =
    Some weapon ->
  (0 <= random (rng w))%Q -> (random (rng w) < 1)%Q ->
  (0 <= Weapon.spread weapon)%Q ->
  let s := gs w in
  let pl := GameState.player s in
  let off := ((random (rng w) - 0.5) * Weapon.spread weapon)%Q in
  let a := (Player.angle pl + off)%Q in
  let p :=
    Projectile.mk (Player.x pl + cos a * 30) (Player.y pl + sin a * 30)
                  (cos a * 15) (sin a * 15)
                  (Weapon.damage weapon * Weapon.level weapon) false
                  (Weapon.color weapon) (Weapon.projectileSize weapon) in
  (Weapon.fireRate weapon <= now - lastShot w ->
   (inject_Z (Weapon.ammoCost weapon) <= GameState.ammo s)%Q ->
   exists w' ps,
     shoot now w = Some w' /\
     w' =
     mkWorld
       (GameState.set_particles (GameState.particles s ++ ps)
          (GameState.set_projectiles (GameState.projectiles s ++ [p])
             (GameState.set_ammo
                (GameState.ammo s - inject_Z (Weapon.ammoCost weapon))%Q s)))
       now (S (rng w) + 4 * 5) /\
     List.length ps = 5%nat /\
     (- (Weapon.spread weapon / 2) <= off)%Q /\
     (off <= Weapon.spread weapon / 2)%Q /\
     ((cos a * cos a + sin a * sin a == 1)%Q ->
      (Projectile.vx p * Projectile.vx p + Projectile.vy p * Projectile.vy p
       == 15 * 15)%Q) /\
     (forall now2, now2 - now < Weapon.fireRate weapon ->
                   shoot now2 w' = Some w')) /\
  (now - lastShot w < Weapon.fireRate weapon \/
   (GameState.ammo s < inject_Z (Weapon.ammoCost weapon))%Q ->
   shoot now w = Some w).
Proof.
  intros Hw R0 R1 Hs. cbv zeta. split; [|now apply shoot_blocked].
  intros Hc Ha.
  assert (E : exists ps,
            List.length ps = 5%nat /\
            shoot now w =
            Some (mkWorld
              (GameState.set_particles (GameState.particles (gs w) ++ ps)
                 (GameState.set_projectiles
                    (GameState.projectiles (gs w) ++
                     [Projectile.mk
                        (Player.x (GameState.player (gs w)) +
                         cos (Player.angle (GameState.player (gs w)) +
                              (random (rng w) - 0.5) * Weapon.spread weapon)
                         * 30)
                        (Player.y (GameState.player (gs w)) +
                         sin (Player.angle (GameState.player (gs w)) +
                              (random (rng w) - 0.5) * Weapon.spread weapon)
                         * 30)
                        (cos (Player.angle (GameState.player (gs w)) +
                              (random (rng w) - 0.5) * Weapon.spread weapon)
                         * 15)
                        (sin (Player.angle (GameState.player (gs w)) +
                              (random (rng w) - 0.5) * Weapon.spread weapon)
                         * 15)
                        (Weapon.damage weapon * Weapon.level weapon) false
                        (Weapon.color weapon)
                        (Weapon.projectileSize weapon)])
                    (GameState.set_ammo
                       (GameState.ammo (gs w)
                        - inject_Z (Weapon.ammoCost weapon))%Q (gs w))))
              now (S (rng w) + 4 * 5))).
  { unfold shoot. rewrite Hw.
    apply Z.ltb_ge in Hc. rewrite Hc.
    apply Qltb_ge in Ha. rewrite Ha.
    unfold Math_random. simpl.
    match goal with
    | |- context [spawnParticles ?x ?y ?c ?n ?sp ?w0] =>
      destruct (spawnParticles_spec x y c n sp w0) as (ps & L & E)
    end.
    exists ps. split; [exact L|]. rewrite E. reflexivity. }
  destruct E as (ps & L & E).
  eexists _, ps. split; [exact E|].
  split; [reflexivity|]. split; [exact L|].
  assert (D : (Weapon.spread weapon / 2 == Weapon.spread weapon * (1 # 2))%Q)
    by field.
  rewrite D.
  split; [nra|]. split; [nra|].
  split.
  { set (a := (Player.angle (GameState.player (gs w)) +
               (random (rng w) - 0.5) * Weapon.spread weapon)%Q).
    intro Htrig. cbn [Projectile.vx Projectile.vy].
    setoid_replace (cos a * 15 * (cos a * 15) + sin a * 15 * (sin a * 15))%Q
      with (225 * (cos a * cos a + sin a * sin a))%Q by ring.
    rewrite Htrig. reflexivity. }
  intros now2 H2. apply shoot_blocked with (weapon := weapon).
  - exact Hw.
  - left. exact H2.
Qed.

(** The Plasma Storm (spread 0.3, fire interval 50 ms) at time 1000, with
    100 ammo, the player facing angle 0 and [0.3] the next number of the
    random stream: the offset is [(0.3 - 0.5) * 0.3 = -0.06], so the one
    projectile added flies at [(15 * 2491/2509, -15 * 300/2509)], a vector
    of length 15 pointing slightly off the facing direction; the ammo drops
    to 99 and an attempt 40 ms later does nothing.  At time 30, less than
    50 ms after the time stamp 0, nothing is fired. *)
Lemma shoot_spec_witness :
  nth_error (GameState.weapons (gs stormWorld))
            (GameState.currentWeapon (gs stormWorld)) = Some plasmaStorm /\
  (0 <= random (JsMath := variedMath) (rng stormWorld))%Q /\
  (random (JsMath := variedMath) (rng stormWorld) < 1)%Q /\
  (0 <= Weapon.spread plasmaStorm)%Q /\
  (exists w' p,
     shoot (M := variedMath) 1000 stormWorld = Some w' /\
     GameState.projectiles (gs w') = [p] /\
     (GameState.ammo (gs w') == 99)%Q /\
     Projectile.isEnemy p = false /\
     Projectile.damage p = 5 /\
     (Projectile.vx p == 15 * (2491 # 2509))%Q /\
     (Projectile.vy p == - (15 * (300 # 2509)))%Q /\
     (Projectile.vx p * Projectile.vx p + Projectile.vy p * Projectile.vy p
      == 15 * 15)%Q /\
     shoot (M := variedMath) 1040 w' = Some w') /\
  shoot (M := variedMath) 30 stormWorld = Some stormWorld.
Proof.
  assert (R0 : (0 <= random (JsMath := variedMath) (rng stormWorld))%Q)
    by (vm_compute; discriminate).
  assert (R1 : (random (JsMath := variedMath) (rng stormWorld) < 1)%Q)
    by (vm_compute; reflexivity).
  assert (Hs : (0 <= Weapon.spread plasmaStorm)%Q)
    by (vm_compute; discriminate).
  split; [reflexivity|]. split; [exact R0|]. split; [exact R1|].
  split; [exact Hs|].
  destruct (shoot_spec (M := variedMath) 1000 stormWorld plasmaStorm
              eq_refl R0 R1 Hs) as [Hfire _].
  destruct (shoot_spec (M := variedMath) 30 stormWorld plasmaStorm
              eq_refl R0 R1 Hs) as [_ Hblock].
  split; [|apply Hblock; left; simpl; lia].
  destruct Hfire as (w' & ps & E & Ew & _ & _ & _ & Hmag & Hnext).
  - simpl. lia.
  - vm_compute. discriminate.
  - eexists w', _. split; [exact E|].
    split; [rewrite Ew; reflexivity|].
    split; [rewrite Ew; vm_compute; reflexivity|].
    split; [reflexivity|]. split; [reflexivity|].
    split; [vm_compute; reflexivity|].
    split; [vm_compute; reflexivity|].
    split; [apply Hmag; vm_compute; reflexivity|].
    apply Hnext. simpl. lia.
Defined.

(** C2, as the specification states it, fails.  The Blaster (slot 0, fire
    interval 200 ms) fires at time 1000; the Devastator (slot 3) fires at
    time 2000; the player switches back to the Blaster and pulls the trigger
    at time 2100.  The Blaster's own last shot is 1100 ms old, more than
    five times its fire interval, and it has ammo; yet nothing is fired,
    because the single time stamp [lastShot] was set by the Devastator. *)
Lemma per_weapon_cooldown_counterexample :
  exists w1 w2 w3 w4 w5 weaponB,
    selectWeapon 0 runningWorld = Some w1 /\
    shoot (M := exampleMath) 1000 w1 = Some w2 /\
    List.length (GameState.projectiles (gs w2)) = 1%nat /\
    selectWeapon 3 w2 = Some w3 /\
    shoot (M := exampleMath) 2000 w3 = Some w4 /\
    List.length (GameState.projectiles (gs w4)) = 2%nat /\
    selectWeapon 0 w4 = Some w5 /\
    nth_error (GameState.weapons (gs w5)) (GameState.currentWeapon (gs w5)) =
      Some weaponB /\
    Weapon.name weaponB = "Blaster"%string /\
    Weapon.fireRate weaponB <= 2100 - 1000 /\
    (inject_Z (Weapon.ammoCost weaponB) <= GameState.ammo (gs w5))%Q /\
    shoot (M := exampleMath) 2100 w5 = Some w5.
Proof.
  do 6 eexists.
  split; [vm_compute; reflexivity|].
  split; [vm_compute; reflexivity|].
  split; [reflexivity|].
  split; [vm_compute; reflexivity|].
  split; [vm_compute; reflexivity|].
  split; [reflexivity|].
  split; [vm_compute; reflexivity|].
  split; [vm_compute; reflexivity|].
  split; [reflexivity|].
  split; [vm_compute; discriminate|].
  split; [vm_compute; discriminate|].
  vm_compute. reflexivity.
Qed.

(** C2, amended.  The cooldown is one time stamp shared by all weapons.
    After weapon A has fired at time [t] and the player has switched to
    weapon B (any slot, whenever B itself last fired), an attempt at time
    [t'] with [t' - t] below B's fire interval does nothing, and an attempt
    with [t' - t] at least B's fire interval (and enough ammo) fires. *)
Theorem shoot_shared_cooldown {M : JsMath} (w : World) (b : nat)
  (wa wb : Weapon.t) (t t' : Z) :
  nth_error (GameState.weapons (gs w)) (GameState.currentWeapon (gs w)) =
    Some wa ->
  nth_error (GameState.weapons (gs w)) b = Some wb ->
  Weapon.fireRate wa <= t - lastShot w ->
  (inject_Z (Weapon.ammoCost wa) <= GameState.ammo (gs w))%Q ->
  exists w1 w2,
    shoot t w = Some w1 /\
    List.length (GameState.projectiles (gs w1)) =
      S (List.length (GameState.projectiles (gs w))) /\
    selectWeapon b w1 = Some w2 /\
    GameState.currentWeapon (gs w2) = b /\
    lastShot w2 = t /\
    (t' - t < Weapon.fireRate wb -> shoot t' w2 = Some w2) /\
    (Weapon.fireRate wb <= t' - t ->
     (inject_Z (Weapon.ammoCost wb) <= GameState.ammo (gs w2))%Q ->
     exists w3,
       shoot t' w2 = Some w3 /\
       List.length (GameState.projectiles (gs w3)) =
         S (List.length (GameState.projectiles (gs w2))) /\
       lastShot w3 = t').
Proof.
  intros Ha Hb Hc Hammo.
  destruct (shoot_fires t w wa Ha Hc Hammo) as (ps & E). cbv zeta in E.
  eexists _, _. split; [exact E|].
  split; [simpl; rewrite length_app; simpl; lia|].
  unfold selectWeapon. simpl. rewrite Hb.
  split; [reflexivity|]. simpl.
  split; [reflexivity|]. split; [reflexivity|].
  split.
  - intro Hlt. apply shoot_blocked with (weapon := wb).
    + simpl. exact Hb.
    + left. simpl. exact Hlt.
  - intros Hge Hamm.
    match goal with
    | |- exists w3, shoot t' ?w2 = _ /\ _ =>
      destruct (shoot_fires t' w2 wb) as (ps' & E');
        [simpl; exact Hb | simpl; exact Hge | exact Hamm |]
    end.
    cbv zeta in E'. eexists. split; [exact E'|].
    split; [simpl; rewrite length_app; simpl; lia | reflexivity].
Qed.

(** The Blaster fires at 2000; the Plasma Storm, selected next, is blocked
    at 2010. *)
Lemma shoot_shared_cooldown_witness :
  nth_error (GameState.weapons (gs runningWorld))
            (GameState.currentWeapon (gs runningWorld)) = Some blaster /\
  200 <= 2000 - lastShot runningWorld /\
  exists w1 w2,
    shoot (M := exampleMath) 2000 runningWorld = Some w1 /\
    selectWeapon 2 w1 = Some w2 /\
    lastShot w2 = 2000 /\
    shoot (M := exampleMath) 2010 w2 = Some w2.
Proof.
  split; [reflexivity|]. split; [simpl; lia|].
  destruct (shoot_shared_cooldown (M := exampleMath) runningWorld 2%nat
              blaster (Weapon.mk "Plasma Storm" 5 50 200 1 "#a855f7" 4 0.3 1
                                 150) 2000 2010 eq_refl eq_refl)
    as (w1 & w2 & E1 & _ & E2 & _ & L & Hblock & _).
  - simpl. lia.
  - simpl. unfold Qle. simpl. lia.
  - exists w1, w2. repeat split; try assumption.
    apply Hblock. simpl. lia.
Defined.

(** The scenario of the specification: the run starts, wave 1 puts 5
    enemies and no boss on the field, and the first shot of weapon 0 with
    100 ammo leaves 99 ammo and one player projectile of damage 10. *)
Example start_then_fire :
  let w := startGame (M := exampleMath) initialWorld in
  List.length (GameState.enemies (gs w)) = 5%nat /\
  forallb (fun e => match Enemy.type e with boss => false | _ => true end)
          (GameState.enemies (gs w)) = true /\
  match shoot (M := exampleMath) 1000 w with
  | Some w' =>
    (GameState.ammo (gs w') == 99)%Q /\
    map (fun p => (Projectile.isEnemy p, Projectile.damage p))
        (GameState.projectiles (gs w')) = [(false, 10)]
  | None => False
  end.
Proof. vm_compute. repeat split. Qed.

(** ** The collision pass *)

Ltac destruct_world w :=
  let s := fresh "s" in
  destruct w as [s ? ?]; destruct s.

Lemma splice1_setAt {A} (i : nat) (v : A) (l : list A) :
  splice1 i (setAt i v l) = splice1 i l.
Proof.
  revert i; induction l as [|a r IH]; intros [|j]; simpl; auto.
  now rewrite IH.
Qed.

Section CollisionFacts.
Context {M : JsMath}.

(** What a hit on [enemies[i]] does: the enemy loses [damage] health and
    stays, or it is removed, scored and turned into pickups. *)
Lemma hitEnemy_spec (i : nat) (e : Enemy.t) (p : Projectile.t) (w : World) :
  let s := gs w in
  let dead := Enemy.health e - Projectile.damage p <=? 0 in
  exists ps bs r,
    List.length bs = (if dead then boltCount (Enemy.type e) else 0%nat) /\
    Forall (fun b => Bolt.collected b = false) bs /\
    hitEnemy i e p w =
    mkWorld
      (GameState.set_particles (GameState.particles s ++ ps)
         (GameState.set_boltPickups (GameState.boltPickups s ++ bs)
            (GameState.set_score
               (if dead then GameState.score s + scoreValue (Enemy.type e)
                else GameState.score s)
               (GameState.set_enemies
                  (if dead then splice1 i (GameState.enemies s)
                   else setAt i (Enemy.set_health
                                   (Enemy.health e - Projectile.damage p) e)
                              (GameState.enemies s))
                  s))))
      (lastShot w) r.
Proof.
  cbv zeta. unfold hitEnemy. cbv zeta.
  cbn [Enemy.health Enemy.set_health].
  destruct (Enemy.health e - Projectile.damage p <=? 0).
  - match goal with
    | |- context [spawnParticles ?x ?y ?c 30 ?sp ?w0] =>
      destruct (spawnParticles_spec x y c 30 sp w0) as (ps2 & _ & E3)
    end.
    rewrite E3. clear E3.
    match goal with
    | |- context [spawnBolts ?x ?y ?n ?w0] =>
      destruct (spawnBolts_spec x y n w0) as (bs & Lb & Fb & E2)
    end.
    rewrite E2. clear E2.
    match goal with
    | |- context [spawnParticles ?x ?y ?c 8 ?sp ?w0] =>
      destruct (spawnParticles_spec x y c 8 sp w0) as (ps1 & _ & E1)
    end.
    rewrite E1. clear E1.
    exists (ps1 ++ ps2), bs. eexists.
    split; [exact Lb|]. split; [exact Fb|].
    unfold upd. simpl.
    apply mkWorld_eq; [| reflexivity | reflexivity].
    generalize (gs w). intros []. simpl.
    rewrite splice1_setAt, app_assoc. reflexivity.
  - match goal with
    | |- context [spawnParticles ?x ?y ?c 8 ?sp ?w0] =>
      destruct (spawnParticles_spec x y c 8 sp w0) as (ps1 & _ & E1)
    end.
    rewrite E1. clear E1.
    exists ps1, []. eexists.
    split; [reflexivity|]. split; [constructor|].
    unfold upd. simpl.
    apply mkWorld_eq; [| reflexivity | reflexivity].
    generalize (gs w). intros []. simpl.
    rewrite app_nil_r. reflexivity.
Qed.

(** The reverse scan stops at the highest index whose enemy overlaps. *)
Lemma enemyLoop_spec (n : nat) (p : Projectile.t) (w : World) :
  let es := GameState.enemies (gs w) in
  match enemyLoop n p w with
  | None =>
    forall j e, (j < n)%nat -> nth_error es j = Some e -> overlaps p e = false
  | Some w' =>
    exists i e,
      (i < n)%nat /\ nth_error es i = Some e /\ overlaps p e = true /\
      (forall j e', (i < j < n)%nat -> nth_error es j = Some e' ->
                    overlaps p e' = false) /\
      w' = hitEnemy i e p w
  end.
Proof.
  cbv zeta. induction n as [|i IH]; simpl.
  - intros j e Hj. lia.
  - destruct (nth_error (GameState.enemies (gs w)) i) as [e|] eqn:Hi.
    + destruct (overlaps p e) eqn:Ho.
      * exists i, e. repeat split; auto. intros j e' Hj. lia.
      * destruct (enemyLoop i p w) as [w'|].
        -- destruct IH as (k & e0 & Hk & Hn & Hov & Hafter & Hw).
           exists k, e0. repeat split; auto.
           intros j e' Hj Hnj.
           destruct (Nat.eq_dec j i) as [->|Hne].
           ++ congruence.
           ++ apply (Hafter j e'); [lia | exact Hnj].
        -- intros j e' Hj Hnj.
           destruct (Nat.eq_dec j i) as [->|Hne].
           ++ congruence.
           ++ apply (IH j e'); [lia | exact Hnj].
    + destruct (enemyLoop i p w) as [w'|].
      * destruct IH as (k & e0 & Hk & Hn & Hov & Hafter & Hw).
        exists k, e0. repeat split; auto.
        intros j e' Hj Hnj.
        destruct (Nat.eq_dec j i) as [->|Hne].
        -- congruence.
        -- apply (Hafter j e'); [lia | exact Hnj].
      * intros j e' Hj Hnj.
        destruct (Nat.eq_dec j i) as [->|Hne].
        -- congruence.
        -- apply (IH j e'); [lia | exact Hnj].
Qed.

End CollisionFacts.

(** One player-owned projectile against the enemies, from the last index
    down: kept when it overlaps none; otherwise consumed, and only the
    enemy of the highest overlapping index is damaged, or removed, scored
    and turned into pickups. *)
Lemma collide_player {M : JsMath} (p : Projectile.t) (w : World) :
  Projectile.isEnemy p = false ->
  let s := gs w in
  let es := GameState.enemies s in
  ((forall j e, nth_error es j = Some e -> overlaps p e = false) ->
   collide p w = (true, w) /\
   forall rest, fst (filterCollide (p :: rest) w)
                = p :: fst (filterCollide rest w)) /\
  (forall i e,
     nth_error es i = Some e -> overlaps p e = true ->
     (forall j e', (i < j)%nat -> nth_error es j = Some e' ->
                   overlaps p e' = false) ->
     let dead := Enemy.health e - Projectile.damage p <=? 0 in
     exists w' ps bs r,
       collide p w = (false, w') /\
       (forall rest, fst (filterCollide (p :: rest) w)
                     = fst (filterCollide rest w')) /\
       List.length bs = (if dead then boltCount (Enemy.type e) else 0%nat) /\
       Forall (fun b => Bolt.collected b = false) bs /\
       w' =
       mkWorld
         (GameState.set_particles (GameState.particles s ++ ps)
            (GameState.set_boltPickups (GameState.boltPickups s ++ bs)
               (GameState.set_score
                  (if dead then GameState.score s + scoreValue (Enemy.type e)
                   else GameState.score s)
                  (GameState.set_enemies
                     (if dead then splice1 i es
                      else setAt i (Enemy.set_health
                                      (Enemy.health e - Projectile.damage p)
                                      e) es)
                     s))))
         (lastShot w) r) /\
  (scoreValue boss, scoreValue tank, scoreValue drone) = (500, 100, 50) /\
  (boltCount boss, boltCount tank, boltCount drone) = (20, 8, 3)%nat.
Proof.
  intros Hp. cbv zeta.
  assert (Hc : collide p w =
               match enemyLoop (List.length (GameState.enemies (gs w))) p w with
               | Some w' => (false, w')
               | None => (true, w)
               end)
    by (unfold collide; now rewrite Hp).
  pose proof (enemyLoop_spec (List.length (GameState.enemies (gs w))) p w)
    as Hloop. cbv zeta in Hloop.
  split; [|split; [|split; reflexivity]].
  - intros Hmiss.
    destruct (enemyLoop (List.length (GameState.enemies (gs w))) p w)
      as [w'|].
    + destruct Hloop as (i & e & _ & Hn & Ho & _).
      rewrite (Hmiss i e Hn) in Ho. discriminate.
    + split; [exact Hc|]. intros rest. simpl. rewrite Hc.
      now destruct (filterCollide rest w).
  - intros i e Hn Ho Hafter.
    assert (Hi : (i < List.length (GameState.enemies (gs w)))%nat)
      by (apply nth_error_Some; congruence).
    destruct (enemyLoop (List.length (GameState.enemies (gs w))) p w)
      as [w'|].
    + destruct Hloop as (k & e0 & Hk & Hnk & Hok & Hafterk & Hw').
      assert (k = i).
      { destruct (Nat.lt_trichotomy k i) as [Hlt | [Heq | Hgt]]; trivial.
        - rewrite (Hafterk i e) in Ho; [discriminate | lia | exact Hn].
        - rewrite (Hafter k e0 Hgt Hnk) in Hok. discriminate. }
      subst k. assert (e0 = e) by congruence. subst e0.
      destruct (hitEnemy_spec i e p w) as (ps & bs & r & Lb & Fb & E).
      cbv zeta in Lb, E.
      exists w', ps, bs, r.
      split; [exact Hc|].
      split.
      { intros rest. simpl. rewrite Hc. now destruct (filterCollide rest w'). }
      split; [exact Lb|]. split; [exact Fb|].
      rewrite Hw'. exact E.
    + rewrite (Hloop i e Hi Hn) in Ho. discriminate.
Qed.

(** The scenario of the specification: a drone with 30 health takes hits of
    damage 10 and 25 in one pass.  Both projectiles are consumed, the drone
    is removed, 3 pickups appear and the score grows by 50. *)
Example two_hits_kill_drone :
  let w := upd (GameState.set_projectiles [shot 10; shot 25]) arenaWorld in
  let s := gs (collisions (M := exampleMath) w) in
  GameState.projectiles s = [] /\
  GameState.enemies s = [] /\
  List.length (GameState.boltPickups s) = 3%nat /\
  GameState.score s = 50.
Proof. vm_compute. repeat split. Qed.

(** A projectile that overlaps two enemies damages only the one with the
    higher index. *)
Example overlap_two_hits_last :
  let w := upd (GameState.set_enemies [drone30; drone30]) runningWorld in
  let s := gs (snd (collide (M := exampleMath) (shot 10) w)) in
  GameState.enemies s = [drone30; Enemy.set_health 20 drone30].
Proof. vm_compute. reflexivity. Qed.

(** ** Enemy projectiles against the player *)

Section PlayerFacts.
Context {M : JsMath}.

Lemma collide_invincible (p : Projectile.t) (w : World) :
  Projectile.isEnemy p = true ->
  0 < Player.invincible (GameState.player (gs w)) ->
  collide p w = (true, w).
Proof.
  intros Hp Hi. unfold collide. rewrite Hp. simpl.
  apply Z.leb_gt in Hi. rewrite Hi. now rewrite andb_false_r.
Qed.

Lemma collide_miss (p : Projectile.t) (w : World) :
  Projectile.isEnemy p = true ->
  touchesPlayer p (GameState.player (gs w)) = false ->
  collide p w = (true, w).
Proof.
  intros Hp Ht. unfold collide. rewrite Hp. simpl. now rewrite Ht.
Qed.

Lemma collide_hit (p : Projectile.t) (w : World) :
  Projectile.isEnemy p = true ->
  touchesPlayer p (GameState.player (gs w)) = true ->
  Player.invincible (GameState.player (gs w)) <= 0 ->
  let pl := GameState.player (gs w) in
  let h := Player.health pl - Projectile.damage p in
  exists ps,
    collide p w =
    (false,
     mkWorld
       (GameState.set_gameOver
          (if h <=? 0 then true else GameState.gameOver (gs w))
          (GameState.set_particles (GameState.particles (gs w) ++ ps)
             (GameState.set_player
                (Player.set_invincible 60 (Player.set_health h pl)) (gs w))))
       (lastShot w) (rng w + 4 * 15)).
Proof.
  intros Hp Ht Hi. cbv zeta. unfold collide. rewrite Hp. simpl.
  apply Z.leb_le in Hi. rewrite Ht, Hi. simpl.
  unfold hitPlayer. cbv zeta.
  match goal with
  | |- context [spawnParticles ?x ?y ?c ?n ?sp ?w0] =>
    destruct (spawnParticles_spec x y c n sp w0) as (ps & _ & E)
  end.
  rewrite E. exists ps. f_equal.
  cbn [Player.health Player.set_health Player.set_invincible].
  destruct (Player.health (GameState.player (gs w)) - Projectile.damage p
            <=? 0);
    unfold upd; simpl; apply mkWorld_eq; try reflexivity;
    generalize (gs w); intros []; reflexivity.
Qed.

(** A player projectile leaves the player and the game-over flag alone. *)
Lemma collide_own (p : Projectile.t) (w : World) :
  Projectile.isEnemy p = false ->
  GameState.player (gs (snd (collide p w))) = GameState.player (gs w) /\
  GameState.gameOver (gs (snd (collide p w))) = GameState.gameOver (gs w).
Proof.
  intros Hp. unfold collide. rewrite Hp. simpl.
  pose proof (enemyLoop_spec (List.length (GameState.enemies (gs w))) p w)
    as Hloop. cbv zeta in Hloop.
  destruct (enemyLoop (List.length (GameState.enemies (gs w))) p w) as [w'|];
    [|split; reflexivity].
  destruct Hloop as (i & e & _ & _ & _ & _ & ->).
  destruct (hitEnemy_spec i e p w) as (ps & bs & r & _ & _ & E).
  cbv zeta in E. rewrite E. split; reflexivity.
Qed.

Lemma collide_frame (p : Projectile.t) (w : World) :
  collisionFrame (snd (collide p w)) = collisionFrame w.
Proof.
  destruct (Projectile.isEnemy p) eqn:Hp.
  - destruct (touchesPlayer p (GameState.player (gs w))) eqn:Ht;
      [|now rewrite collide_miss].
    destruct (Z_lt_le_dec 0 (Player.invincible (GameState.player (gs w))))
      as [Hi|Hi]; [now rewrite collide_invincible|].
    destruct (collide_hit p w Hp Ht Hi) as (ps & E). cbv zeta in E.
    rewrite E. reflexivity.
  - unfold collide. rewrite Hp. simpl.
    pose proof (enemyLoop_spec (List.length (GameState.enemies (gs w))) p w)
      as Hloop. cbv zeta in Hloop.
    destruct (enemyLoop (List.length (GameState.enemies (gs w))) p w)
      as [w'|]; [|reflexivity].
    destruct Hloop as (i & e & _ & _ & _ & _ & ->).
    destruct (hitEnemy_spec i e p w) as (ps & bs & r & _ & _ & E).
    cbv zeta in E. rewrite E. reflexivity.
Qed.

Lemma filterCollide_frame (ps : list Projectile.t) (w : World) :
  collisionFrame (snd (filterCollide ps w)) = collisionFrame w.
Proof.
  revert w. induction ps as [|p r IH]; intro w; [reflexivity|].
  simpl. pose proof (collide_frame p w) as Hc.
  destruct (collide p w) as [keep w1]. simpl in Hc.
  specialize (IH w1). destruct (filterCollide r w1) as [kept w2].
  simpl in *. congruence.
Qed.

(** While the timer is positive the whole pass leaves the player alone. *)
Lemma filterCollide_invincible (ps : list Projectile.t) (w : World) :
  0 < Player.invincible (GameState.player (gs w)) ->
  GameState.player (gs (snd (filterCollide ps w))) = GameState.player (gs w) /\
  GameState.gameOver (gs (snd (filterCollide ps w)))
    = GameState.gameOver (gs w).
Proof.
  revert w. induction ps as [|p r IH]; intros w Hi; [split; reflexivity|].
  simpl.
  assert (Hc : GameState.player (gs (snd (collide p w)))
               = GameState.player (gs w) /\
               GameState.gameOver (gs (snd (collide p w)))
               = GameState.gameOver (gs w)).
  { destruct (Projectile.isEnemy p) eqn:Hp.
    - rewrite collide_invincible by assumption. split; reflexivity.
    - now apply collide_own. }
  destruct (collide p w) as [keep w1]. simpl in Hc. destruct Hc as [Hc1 Hc2].
  specialize (IH w1). rewrite Hc1 in IH. specialize (IH Hi).
  destruct (filterCollide r w1) as [kept w2]. simpl in *.
  destruct IH as [IH1 IH2]. split; congruence.
Qed.

(** The pass either leaves the player alone, or exactly one enemy
    projectile hit it. *)
Lemma filterCollide_player (ps : list Projectile.t) (w : World) :
  let pl := GameState.player (gs w) in
  let w' := snd (filterCollide ps w) in
  (GameState.player (gs w') = pl /\
   GameState.gameOver (gs w') = GameState.gameOver (gs w)) \/
  (exists p,
     In p ps /\ Projectile.isEnemy p = true /\
     touchesPlayer p pl = true /\ Player.invincible pl <= 0 /\
     GameState.player (gs w') =
       Player.set_invincible 60
         (Player.set_health (Player.health pl - Projectile.damage p) pl) /\
     GameState.gameOver (gs w') =
       (if Player.health pl - Projectile.damage p <=? 0 then true
        else GameState.gameOver (gs w))).
Proof.
  cbv zeta. revert w. induction ps as [|p r IH]; intro w.
  - left. split; reflexivity.
  - simpl.
    destruct (Projectile.isEnemy p) eqn:Hp.
    + destruct (touchesPlayer p (GameState.player (gs w))) eqn:Ht.
      * destruct (Z_lt_le_dec 0 (Player.invincible (GameState.player (gs w))))
          as [Hi|Hi].
        -- left. rewrite collide_invincible by assumption.
           pose proof (filterCollide_invincible r w Hi) as H.
           destruct (filterCollide r w). exact H.
        -- right. exists p.
           destruct (collide_hit p w Hp Ht Hi) as (ps0 & E). cbv zeta in E.
           rewrite E.
           match goal with
           | |- context [filterCollide r ?w1] =>
             pose proof (filterCollide_invincible r w1) as H;
               destruct (filterCollide r w1) as [kept w2]
           end.
           simpl in H. destruct H as [H1 H2]; [lia|].
           simpl. rewrite H1, H2.
           repeat split; auto.
      * rewrite collide_miss by assumption.
        specialize (IH w). destruct (filterCollide r w) as [kept w2].
        simpl in *. destruct IH as [IH | (q & Hq & IH)]; [left; exact IH|].
        right. exists q. split; [now right | exact IH].
    + pose proof (collide_own p w Hp) as [Hc1 Hc2].
      destruct (collide p w) as [keep w1]. simpl in Hc1, Hc2.
      specialize (IH w1). rewrite Hc1, Hc2 in IH.
      destruct (filterCollide r w1) as [kept w2]. simpl in *.
      destruct IH as [IH | (q & Hq & IH)]; [left; exact IH|].
      right. exists q. split; [now right | exact IH].
Qed.

End PlayerFacts.

(** ** The tick up to the collision pass *)

Section SimulateFacts.
Context {M : JsMath}.

Lemma updateEnemy_shots (pl : Player.t) (e : Enemy.t) :
  Forall harmful (snd (updateEnemy pl e)).
Proof.
  unfold updateEnemy.
  match goal with
  | |- context [let '(_, _) := ?c in _] => destruct c as [x y]
  end.
  destruct (Qle_bool (Enemy.shootCooldown e - 1) 0); [|constructor].
  destruct (Enemy.type e); simpl;
    repeat constructor; intros _; simpl; lia.
Qed.

Lemma forEachEnemy_spec (pl : Player.t) (es : list Enemy.t) :
  List.length (fst (forEachEnemy pl es)) = List.length es /\
  Forall harmful (snd (forEachEnemy pl es)).
Proof.
  induction es as [|e r [IH1 IH2]]; [split; [reflexivity | constructor]|].
  simpl. pose proof (updateEnemy_shots pl e) as Hs.
  destruct (updateEnemy pl e) as [e' shots].
  destruct (forEachEnemy pl r) as [r' more]. simpl in *.
  split; [now rewrite IH1|]. apply Forall_app. now split.
Qed.

(** A running tick reaches the collision pass in a world [w0] that differs
    from the initial one only by motion, the shot fired if any, and the
    invincibility timer counted down by one. *)
Lemma simulate_spec (inp : Input) (w : World) (weapon : Weapon.t) :
  nth_error (GameState.weapons (gs w)) (GameState.currentWeapon (gs w)) =
    Some weapon ->
  exists w0,
    simulate inp w = Some (collisions w0) /\
    motionFrame w0 = motionFrame w /\
    (GameState.ammo (gs w0) = GameState.ammo (gs w) \/
     (inject_Z (Weapon.ammoCost weapon) <= GameState.ammo (gs w))%Q /\
     GameState.ammo (gs w0) =
       (GameState.ammo (gs w) - inject_Z (Weapon.ammoCost weapon))%Q) /\
    Player.invincible (GameState.player (gs w0)) =
      (let i := Player.invincible (GameState.player (gs w)) in
       if 0 <? i then i - 1 else i) /\
    (Forall harmful (GameState.projectiles (gs w)) ->
     Forall harmful (GameState.projectiles (gs w0))) /\
    List.length (GameState.enemies (gs w0)) =
      List.length (GameState.enemies (gs w)).
Proof.
  intro Hw. unfold simulate.
  set (wm := movePlayer inp w).
  assert (Hwm : nth_error (GameState.weapons (gs wm))
                          (GameState.currentWeapon (gs wm)) = Some weapon)
    by exact Hw.
  assert (Hshoot :
    exists w1,
      shootStep inp wm = Some w1 /\
      motionFrame w1 = motionFrame w /\
      Player.invincible (GameState.player (gs w1)) =
        Player.invincible (GameState.player (gs w)) /\
      GameState.enemies (gs w1) = GameState.enemies (gs w) /\
      (GameState.ammo (gs w1) = GameState.ammo (gs w) \/
       (inject_Z (Weapon.ammoCost weapon) <= GameState.ammo (gs w))%Q /\
       GameState.ammo (gs w1) =
         (GameState.ammo (gs w) - inject_Z (Weapon.ammoCost weapon))%Q) /\
      (Forall harmful (GameState.projectiles (gs w)) ->
       Forall harmful (GameState.projectiles (gs w1)))).
  { unfold shootStep.
    destruct (shooting inp);
      [| exists wm; repeat split; auto].
    destruct (Z_lt_le_dec (now inp - lastShot wm) (Weapon.fireRate weapon))
      as [Hc|Hc].
    { exists wm. rewrite (shoot_blocked _ _ _ Hwm (or_introl Hc)).
      repeat split; auto. }
    destruct (Qlt_le_dec (GameState.ammo (gs wm))
                         (inject_Z (Weapon.ammoCost weapon))) as [Ha|Ha].
    { exists wm. rewrite (shoot_blocked _ _ _ Hwm (or_intror Ha)).
      repeat split; auto. }
    destruct (shoot_fires (now inp) wm weapon Hwm Hc Ha) as (ps & E).
    cbv zeta in E. rewrite E. eexists. split; [reflexivity|].
    split; [reflexivity|]. split; [reflexivity|]. split; [reflexivity|].
    split; [right; split; [exact Ha | reflexivity]|].
    intro F. simpl. apply Forall_app. split; [exact F|].
    constructor; [|constructor]. intro H. discriminate. }
  destruct Hshoot as (w1 & E1 & F1 & I1 & En1 & A1 & P1). rewrite E1.
  eexists. split; [reflexivity|].
  unfold updateEnemies.
  match goal with
  | |- context [forEachEnemy ?a ?b] =>
    pose proof (forEachEnemy_spec a b) as [Hlen Hshots];
      destruct (forEachEnemy a b) as [es shots]
  end.
  unfold updateProjectiles, tickInvincible in *.
  simpl in Hlen, Hshots.
  rewrite <- F1, <- I1, <- En1. cbv zeta.
  destruct (0 <? Player.invincible (GameState.player (gs w1))); simpl in *.
  - split; [reflexivity|]. split; [exact A1|]. split; [reflexivity|].
    split; [|exact Hlen].
    intro F. apply Forall_app. split; [|exact Hshots].
    apply incl_Forall with (l1 := map moveProjectile
                                      (GameState.projectiles (gs w1))).
    + intros q Hq. apply filter_In in Hq. tauto.
    + apply Forall_map. eapply Forall_impl; [|apply P1, F].
      intros q Hq. exact Hq.
  - split; [reflexivity|]. split; [exact A1|]. split; [reflexivity|].
    split; [|exact Hlen].
    intro F. apply Forall_app. split; [|exact Hshots].
    apply incl_Forall with (l1 := map moveProjectile
                                      (GameState.projectiles (gs w1))).
    + intros q Hq. apply filter_In in Hq. tauto.
    + apply Forall_map. eapply Forall_impl; [|apply P1, F].
      intros q Hq. exact Hq.
Qed.

End SimulateFacts.

(** ** The tick after the collision pass *)

Section AfterFacts.
Context {M : JsMath}.

Lemma forEachBolt_spec (bs : list Bolt.t) (w : World) :
  let s := gs w in
  let pl := GameState.player s in
  let n := Z.of_nat (List.length (reachable pl bs)) in
  exists ps r,
    forEachBolt bs w =
    (map (visited pl) bs,
     mkWorld (GameState.set_particles (GameState.particles s ++ ps)
                (GameState.set_totalBolts (GameState.totalBolts s + n)
                   (GameState.set_bolts (GameState.bolts s + n) s)))
             (lastShot w) r).
Proof.
  cbv zeta. revert w. induction bs as [|b rest IH]; intro w.
  - exists [], (rng w). simpl. f_equal.
    destruct_world w. simpl. rewrite app_nil_r, !Z.add_0_r. reflexivity.
  - simpl forEachBolt. unfold collectBolt, reachable. simpl filter.
    fold (reachable (GameState.player (gs w)) rest).
    destruct (negb (Bolt.collected b)
              && inReach (GameState.player (gs w)) b) eqn:Hc.
    + match goal with
      | |- context [spawnParticles ?x ?y ?c ?n ?sp ?w0] =>
        destruct (spawnParticles_spec x y c n sp w0) as (ps1 & _ & E1)
      end.
      rewrite E1. clear E1.
      match goal with
      | |- context [forEachBolt rest ?w1] =>
        destruct (IH w1) as (ps & r & E)
      end.
      rewrite E. clear E. exists (ps1 ++ ps), r.
      simpl List.length. rewrite Nat2Z.inj_succ, <- Z.add_1_l.
      f_equal.
      * simpl. f_equal. unfold visited. f_equal.
        apply andb_true_iff in Hc. destruct Hc as [_ ->].
        now rewrite orb_true_r.
      * unfold upd. simpl. apply mkWorld_eq; try reflexivity.
        generalize (gs w). intros []. simpl.
        rewrite app_assoc, !Z.add_assoc. reflexivity.
    + destruct (IH w) as (ps & r & E). rewrite E. clear E.
      exists ps, r. f_equal. simpl. f_equal. unfold visited. f_equal.
      destruct (Bolt.collected b); [reflexivity|]. simpl in Hc.
      now rewrite Hc.
Qed.

(** "Collect bolts": every uncollected pickup in reach is counted once in
    both currency counters and removed; the others stay. *)
Lemma collectBolts_spec (w : World) :
  let s := gs w in
  let pl := GameState.player s in
  let n := Z.of_nat (List.length (reachable pl (GameState.boltPickups s))) in
  exists ps r,
    collectBolts w =
    mkWorld
      (GameState.set_boltPickups
         (filter (fun b => negb (Bolt.collected b))
                 (map (visited pl) (GameState.boltPickups s)))
         (GameState.set_particles (GameState.particles s ++ ps)
            (GameState.set_totalBolts (GameState.totalBolts s + n)
               (GameState.set_bolts (GameState.bolts s + n) s))))
      (lastShot w) r.
Proof.
  cbv zeta. unfold collectBolts.
  destruct (forEachBolt_spec (GameState.boltPickups (gs w)) w)
    as (ps & r & E). cbv zeta in E. rewrite E.
  exists ps, r. reflexivity.
Qed.

Lemma regenAmmo_spec (w : World) (weapon : Weapon.t) :
  nth_error (GameState.weapons (gs w)) (GameState.currentWeapon (gs w)) =
    Some weapon ->
  regenAmmo w =
  Some (upd (GameState.set_ammo
               (regenerated (GameState.ammo (gs w)) (Weapon.ammoMax weapon)))
            w).
Proof.
  intro Hw. unfold regenAmmo, regenerated. rewrite Hw.
  destruct (Qltb (GameState.ammo (gs w)) (inject_Z (Weapon.ammoMax weapon)));
    [reflexivity|].
  destruct_world w. reflexivity.
Qed.

Lemma regenerated_bounds (ammo : Q) (ammoMax : Z) :
  (0 <= ammo)%Q -> (ammo <= inject_Z ammoMax)%Q ->
  (0 <= regenerated ammo ammoMax)%Q /\
  (regenerated ammo ammoMax <= inject_Z ammoMax)%Q.
Proof.
  intros H0 H1. unfold regenerated, Math_min.
  destruct (Qltb ammo (inject_Z ammoMax)); [|now split].
  destruct (Qle_bool (inject_Z ammoMax) (ammo + 0.1)) eqn:E.
  - split; [lra | apply Qle_refl].
  - split; [lra|].
    destruct (Qlt_le_dec (ammo + 0.1) (inject_Z ammoMax)) as [L|L].
    + now apply Qlt_le_weak.
    + apply Qle_bool_iff in L. congruence.
Qed.

(** "Wave progression": nothing while an enemy remains; otherwise the wave
    counter grows by one and that wave is spawned. *)
Lemma waveProgression_spec (w : World) :
  (GameState.enemies (gs w) <> [] -> waveProgression w = w) /\
  (GameState.enemies (gs w) = [] ->
   waveProgression w =
   spawnWave (GameState.wave (gs w) + 1)
             (upd (GameState.set_wave (GameState.wave (gs w) + 1)) w)).
Proof.
  unfold waveProgression.
  destruct (GameState.enemies (gs w)); split; intro H; try congruence.
  reflexivity.
Qed.

Lemma collisions_spec (w : World) :
  collisions w =
  upd (GameState.set_projectiles
         (fst (filterCollide (GameState.projectiles (gs w)) w)))
      (snd (filterCollide (GameState.projectiles (gs w)) w)).
Proof.
  unfold collisions. now destruct (filterCollide _ w).
Qed.

Lemma filterCollide_kept (P : Projectile.t -> Prop) (ps : list Projectile.t)
  (w : World) :
  Forall P ps -> Forall P (fst (filterCollide ps w)).
Proof.
  revert w. induction ps as [|p r IH]; intros w F; [constructor|].
  simpl. inversion F as [|? ? Hp Hr]; subst.
  destruct (collide p w) as [keep w1].
  specialize (IH w1 Hr). destruct (filterCollide r w1) as [kept w2].
  simpl in *. destruct keep; [constructor|]; assumption.
Qed.

(** The rest of the tick, from a world [w] leaving the collision pass. *)
Lemma afterCollisions_spec (w : World) (weapon : Weapon.t) :
  nth_error (GameState.weapons (gs w)) (GameState.currentWeapon (gs w)) =
    Some weapon ->
  let s := gs w in
  let pl := GameState.player s in
  let n := Z.of_nat (List.length (reachable pl (GameState.boltPickups s))) in
  exists w3 spawned ps r,
    regenAmmo (collectBolts w) = Some w3 /\
    afterCollisions w = Some (updateParticles (waveProgression w3)) /\
    GameState.enemies (gs w3) = GameState.enemies s /\
    GameState.wave (gs w3) = GameState.wave s /\
    (GameState.enemies s = [] ->
     0 <= GameState.wave s + 1 -> spawned <> []) /\
    updateParticles (waveProgression w3) =
    mkWorld
      (GameState.set_particles ps
         (GameState.set_enemies
            (match GameState.enemies s with
             | [] => spawned
             | es => es
             end)
            (GameState.set_wave
               (match GameState.enemies s with
                | [] => GameState.wave s + 1
                | _ => GameState.wave s
                end)
               (GameState.set_ammo
                  (regenerated (GameState.ammo s) (Weapon.ammoMax weapon))
                  (GameState.set_boltPickups
                     (filter (fun b => negb (Bolt.collected b))
                             (map (visited pl) (GameState.boltPickups s)))
                     (GameState.set_totalBolts (GameState.totalBolts s + n)
                        (GameState.set_bolts (GameState.bolts s + n) s)))))))
      (lastShot w) r.
Proof.
  intro Hw. cbv zeta. unfold afterCollisions.
  destruct (collectBolts_spec w) as (ps1 & r1 & E1). cbv zeta in E1.
  rewrite E1. clear E1.
  erewrite regenAmmo_spec by (simpl; exact Hw).
  eexists. 
  match goal with
  | |- exists spawned ps r, Some ?w3 = _ /\ _ =>
    destruct (waveProgression_spec w3) as [Hkeep Hnext];
      destruct (spawnWave_frame
                  (GameState.wave (gs w3) + 1)
                  (upd (GameState.set_wave (GameState.wave (gs w3) + 1)) w3))
        as (sp & r2 & Hne & Esp)
  end.
  destruct (GameState.enemies (gs w)) as [|e es] eqn:He.
  - exists sp. do 2 eexists.
    split; [reflexivity|]. split; [reflexivity|].
    split; [simpl; exact He|]. split; [reflexivity|].
    split; [intros _ H0; now apply Hne|].
    rewrite (Hnext He), Esp. unfold updateParticles, upd. simpl.
    rewrite He. reflexivity.
  - exists [],
           (filter (fun p => Qltb 0 (Particle.life p))
                   (map moveParticle (GameState.particles (gs w) ++ ps1))),
           r1.
    split; [reflexivity|]. split; [reflexivity|].
    split; [simpl; exact He|]. split; [reflexivity|].
    split; [intros H; discriminate|].
    rewrite Hkeep by (unfold upd; simpl; rewrite He; discriminate).
    unfold updateParticles, upd. simpl.
    apply mkWorld_eq; try reflexivity.
    generalize He. generalize (gs w). intros [] He'. simpl in *.
    rewrite He'. reflexivity.
Qed.

End AfterFacts.

(** ** Whole ticks *)

Section TickFacts.
Context {M : JsMath}.

(** The collision pass writes [projectiles] and nothing else of
    [collisionFrame]. *)
Lemma collisions_frame (w : World) :
  collisionFrame
    (upd (GameState.set_projectiles (GameState.projectiles (gs w)))
         (collisions w))
  = collisionFrame w.
Proof.
  rewrite collisions_spec.
  pose proof (filterCollide_frame (GameState.projectiles (gs w)) w) as H.
  destruct (filterCollide (GameState.projectiles (gs w)) w) as [kept w'].
  simpl in *. unfold collisionFrame in *. simpl in *.
  injection H as -> -> -> -> -> -> -> -> -> _ -> -> -> -> -> ->.
  reflexivity.
Qed.

(** A running tick with a valid active weapon completes; [w0] is the world
    entering the collision pass, as [simulate_spec] describes it. *)
Lemma gameLoop_running (inp : Input) (w : World) (weapon : Weapon.t) :
  gated (gs w) = false ->
  nth_error (GameState.weapons (gs w)) (GameState.currentWeapon (gs w)) =
    Some weapon ->
  exists w0,
    (simulate inp w = Some (collisions w0) /\
     gameLoop inp w = afterCollisions (collisions w0) /\
     nth_error (GameState.weapons (gs (collisions w0)))
               (GameState.currentWeapon (gs (collisions w0))) = Some weapon /\
     GameState.wave (gs (collisions w0)) = GameState.wave (gs w) /\
     GameState.bolts (gs (collisions w0)) = GameState.bolts (gs w) /\
     GameState.ammo (gs (collisions w0)) = GameState.ammo (gs w0)) /\
    motionFrame w0 = motionFrame w /\
    (GameState.ammo (gs w0) = GameState.ammo (gs w) \/
     (inject_Z (Weapon.ammoCost weapon) <= GameState.ammo (gs w))%Q /\
     GameState.ammo (gs w0) =
       (GameState.ammo (gs w) - inject_Z (Weapon.ammoCost weapon))%Q) /\
    Player.invincible (GameState.player (gs w0)) =
      (let i := Player.invincible (GameState.player (gs w)) in
       if 0 <? i then i - 1 else i) /\
    (Forall harmful (GameState.projectiles (gs w)) ->
     Forall harmful (GameState.projectiles (gs w0))) /\
    List.length (GameState.enemies (gs w0)) =
      List.length (GameState.enemies (gs w)).
Proof.
  intros G Hw. destruct (simulate_spec inp w weapon Hw)
    as (w0 & Es & Fm & Rest).
  exists w0. split; [|split; [exact Fm | exact Rest]].
  split; [exact Es|].
  split; [unfold gameLoop; now rewrite G, Es|].
  pose proof (collisions_frame w0) as Fc.
  unfold collisionFrame, motionFrame in *. simpl in *.
  injection Fc as W C A B _ Wv _.
  injection Fm as W' C' B' _ Wv' _.
  rewrite W, C, W', C', Wv, Wv', B, B', A. repeat split; auto.
Qed.

End TickFacts.

(** C8.  In a running tick the wave counter grows (by one) if and only if
    the enemy collection is empty at the wave-progression step, that is in
    the world [w3] left by the ammo regeneration; no earlier step of the tick
    touches the counter.  When it is empty, the counter is incremented and
    [spawnWave] is run for the new wave number, which puts at least one
    enemy on the field; when an enemy remains, counter and enemy collection
    are left as they are. *)
Theorem wave_advances_iff_cleared {M : JsMath} (inp : Input) (w : World)
  (weapon : Weapon.t) :
  gated (gs w) = false ->
  nth_error (GameState.weapons (gs w)) (GameState.currentWeapon (gs w)) =
    Some weapon ->
  exists w1 w3 w',
    simulate inp w = Some w1 /\
    regenAmmo (collectBolts w1) = Some w3 /\
    gameLoop inp w = Some w' /\
    w' = updateParticles (waveProgression w3) /\
    GameState.wave (gs w3) = GameState.wave (gs w) /\
    (GameState.wave (gs w') = GameState.wave (gs w) + 1 <->
     GameState.enemies (gs w3) = []) /\
    (GameState.enemies (gs w3) = [] ->
     waveProgression w3 =
       spawnWave (GameState.wave (gs w) + 1)
                 (upd (GameState.set_wave (GameState.wave (gs w) + 1)) w3) /\
     (0 <= GameState.wave (gs w) + 1 -> GameState.enemies (gs w') <> [])) /\
    (GameState.enemies (gs w3) <> [] ->
     GameState.wave (gs w') = GameState.wave (gs w) /\
     GameState.enemies (gs w') = GameState.enemies (gs w3)).
Proof.
  intros G Hw.
  destruct (gameLoop_running inp w weapon G Hw)
    as (w0 & (Es & Eg & Hw1 & Wv & _) & _).
  destruct (afterCollisions_spec (collisions w0) weapon Hw1)
    as (w3 & spawned & ps & r & E3 & Ea & En & Wv3 & Hsp & E).
  exists (collisions w0), w3, (updateParticles (waveProgression w3)).
  split; [exact Es|]. split; [exact E3|].
  split; [now rewrite Eg|]. split; [reflexivity|].
  rewrite Wv in Wv3. split; [exact Wv3|].
  rewrite E, En, Wv. simpl.
  destruct (GameState.enemies (gs (collisions w0))) as [|e es] eqn:He.
  - split; [split; reflexivity|].
    split; [| intro H; congruence].
    intros _. split.
    + destruct (waveProgression_spec w3) as [_ Hn].
      rewrite <- Wv3. apply Hn. now rewrite En.
    + intros H0. apply Hsp; [reflexivity | now rewrite Wv].
  - split; [split; [lia | discriminate]|].
    split; [discriminate|]. intros _. split; reflexivity.
Qed.

(** The first tick of a running game with an empty field starts wave 2. *)
Lemma wave_advances_iff_cleared_witness :
  gated (gs runningWorld) = false /\
  nth_error (GameState.weapons (gs runningWorld))
            (GameState.currentWeapon (gs runningWorld)) = Some blaster /\
  exists w',
    gameLoop (M := exampleMath) (idleInput 0) runningWorld = Some w' /\
    GameState.wave (gs w') = 2 /\
    GameState.enemies (gs w') <> [].
Proof.
  split; [reflexivity|]. split; [reflexivity|].
  destruct (wave_advances_iff_cleared (M := exampleMath) (idleInput 0)
              runningWorld blaster eq_refl eq_refl)
    as (w1 & w3 & w' & E1 & E3 & Eg & _ & _ & Hiff & Hnext & _).
  exists w'. split; [exact Eg|].
  assert (He : GameState.enemies (gs w3) = []).
  { vm_compute in E1. injection E1 as <-.
    vm_compute in E3. injection E3 as <-. reflexivity. }
  split.
  - apply Hiff. exact He.
  - apply Hnext; [exact He | simpl; lia].
Defined.

(** ** The invincibility window *)

Section WindowFacts.
Context {M : JsMath}.

(** The player as the tick leaves it is the player as the collision pass
    leaves it. *)
Lemma afterCollisions_player (w w' : World) (weapon : Weapon.t) :
  nth_error (GameState.weapons (gs w)) (GameState.currentWeapon (gs w)) =
    Some weapon ->
  afterCollisions w = Some w' ->
  GameState.player (gs w') = GameState.player (gs w) /\
  GameState.gameOver (gs w') = GameState.gameOver (gs w) /\
  GameState.weapons (gs w') = GameState.weapons (gs w) /\
  GameState.currentWeapon (gs w') = GameState.currentWeapon (gs w) /\
  GameState.projectiles (gs w') = GameState.projectiles (gs w).
Proof.
  intros Hw Ha.
  destruct (afterCollisions_spec w weapon Hw)
    as (w3 & spawned & ps & r & _ & Ea & _ & _ & _ & E).
  rewrite Ea, E in Ha. injection Ha as <-. repeat split; reflexivity.
Qed.

(** A tick entered with two or more ticks of invincibility left cannot
    touch the player's health. *)
Lemma gameLoop_protected (inp : Input) (w : World) (weapon : Weapon.t) :
  nth_error (GameState.weapons (gs w)) (GameState.currentWeapon (gs w)) =
    Some weapon ->
  2 <= Player.invincible (GameState.player (gs w)) ->
  exists w',
    gameLoop inp w = Some w' /\
    nth_error (GameState.weapons (gs w')) (GameState.currentWeapon (gs w')) =
      Some weapon /\
    Player.health (GameState.player (gs w')) =
      Player.health (GameState.player (gs w)) /\
    Player.invincible (GameState.player (gs w)) - 1 <=
      Player.invincible (GameState.player (gs w')).
Proof.
  intros Hw Hi.
  destruct (gated (gs w)) eqn:G.
  { exists w. unfold gameLoop. rewrite G. repeat split; auto. lia. }
  destruct (gameLoop_running inp w weapon G Hw)
    as (w0 & (Es & Eg & Hw1 & _) & Fm & _ & I0 & _).
  destruct (afterCollisions_spec (collisions w0) weapon Hw1)
    as (w3 & spawned & ps & r & _ & Ea & _).
  eexists. split; [rewrite Eg; exact Ea|].
  destruct (afterCollisions_player _ _ weapon Hw1 Ea) as (P & _ & W & C & _).
  rewrite W, C, P. split; [exact Hw1|].
  rewrite collisions_spec.
  cbv zeta in I0.
  assert (Hpos : 0 < Player.invincible (GameState.player (gs w0))).
  { rewrite I0. destruct (0 <? Player.invincible (GameState.player (gs w)))
      eqn:L; [lia|]. apply Z.ltb_ge in L. lia. }
  destruct (filterCollide_invincible (GameState.projectiles (gs w0)) w0 Hpos)
    as [Pl _].
  unfold upd. simpl. rewrite Pl.
  unfold motionFrame in Fm. simpl in Fm.
  injection Fm as _ _ _ _ _ _ _ _ _ _ H _.
  rewrite H, I0.
  destruct (0 <? Player.invincible (GameState.player (gs w))); split;
    trivial; lia.
Qed.

Lemma run_protected (inps : list Input) (w : World) (weapon : Weapon.t) :
  nth_error (GameState.weapons (gs w)) (GameState.currentWeapon (gs w)) =
    Some weapon ->
  Z.of_nat (List.length inps) < Player.invincible (GameState.player (gs w)) ->
  exists w',
    run inps w = Some w' /\
    Player.health (GameState.player (gs w')) =
      Player.health (GameState.player (gs w)).
Proof.
  revert w. induction inps as [|inp r IH]; intros w Hw Hi.
  - exists w. split; reflexivity.
  - simpl List.length in Hi. rewrite Nat2Z.inj_succ in Hi.
    destruct (gameLoop_protected inp w weapon Hw)
      as (w1 & E1 & Hw1 & H1 & I1); [lia|].
    destruct (IH w1 Hw1) as (w' & E' & H'); [lia|].
    exists w'. simpl. rewrite E1. split; [exact E'|]. congruence.
Qed.

End WindowFacts.

(** The scenario of the specification: at health 100 and timer 0, a hit of
    damage 10 leaves health 90 and timer 60; a second overlapping enemy
    projectile in the same pass changes nothing more. *)
Example hit_then_protected :
  let w :=
    upd (GameState.set_projectiles [enemyShot; enemyShot]) runningWorld in
  let pl := GameState.player (gs (collisions (M := exampleMath) w)) in
  Player.health pl = 90 /\ Player.invincible pl = 60 /\
  GameState.projectiles (gs (collisions (M := exampleMath) w)) = [enemyShot].
Proof. vm_compute. repeat split. Qed.

(** ** Health and ammo bounds *)

(** C1, as the specification states it, fails: health is not clamped at 0.
    The player has 10 health left and no invincibility; a tank's projectile
    (damage 15) is on the player.  After the tick the stored health is
    [-5]. *)
Lemma health_clamp_counterexample :
  exists w',
    gameLoop (M := exampleMath) (idleInput 0) (lateWorld 10 [] [tankShot] [])
    = Some w' /\
    Player.health (GameState.player (gs w')) = -5 /\
    ~ (0 <= Player.health (GameState.player (gs w'))) /\
    GameState.gameOver (gs w') = true.
Proof.
  eexists. split; [vm_compute; reflexivity|].
  split; [reflexivity|]. split; [simpl; lia | reflexivity].
Qed.

(** A tick from a world within the bounds: it completes within the bounds,
    leaves the roster alone, never raises the health, and when a hit lowers
    the health it starts the invincibility timer and raises the game-over
    flag exactly when the health stored is [<= 0]. *)
Lemma tick_frame {M : JsMath} (inp : Input) (w : World) :
  bounded w ->
  exists w',
    gameLoop inp w = Some w' /\
    bounded w' /\
    GameState.weapons (gs w') = GameState.weapons (gs w) /\
    Player.maxHealth (GameState.player (gs w')) =
      Player.maxHealth (GameState.player (gs w)) /\
    Player.health (GameState.player (gs w')) <=
      Player.health (GameState.player (gs w)) /\
    (Player.health (GameState.player (gs w')) <
       Player.health (GameState.player (gs w)) ->
     Player.invincible (GameState.player (gs w')) = 60 /\
     (GameState.gameOver (gs w') = true <->
      Player.health (GameState.player (gs w')) <= 0)).
Proof.
  intros B. pose proof B as (weapon & Hw & Hc & A0 & A1 & Hh & Hp).
  cbv zeta in *.
  destruct (gated (gs w)) eqn:G.
  { exists w. unfold gameLoop. rewrite G.
    split; [reflexivity|]. split; [exact B|]. split; [reflexivity|].
    split; [reflexivity|]. split; [lia|]. lia. }
  destruct (gameLoop_running inp w weapon G Hw)
    as (w0 & (Es & Eg & Hw1 & _ & _ & Ac) & Fm & Am & I0 & Hp0 & _).
  destruct (afterCollisions_spec (collisions w0) weapon Hw1)
    as (w3 & spawned & ps & r & _ & Ea & _ & _ & _ & E).
  cbv zeta in E.
  exists (updateParticles (waveProgression w3)).
  split; [now rewrite Eg|].
  (* the player, before and after the collision pass *)
  unfold motionFrame in Fm. simpl in Fm.
  injection Fm as W0 _ _ _ _ _ _ Go0 _ _ H0 Mh0.
  pose proof (collisions_frame w0) as Fc.
  unfold collisionFrame in Fc. simpl in Fc.
  injection Fc as W1 _ _ _ _ _ _ _ _ _ _ _ _ _ Mh1.
  assert (Hp1 : Forall harmful (GameState.projectiles (gs (collisions w0)))).
  { rewrite collisions_spec. simpl. apply filterCollide_kept. now apply Hp0. }
  assert (A0' : (0 <= GameState.ammo (gs w0))%Q /\
                (GameState.ammo (gs w0) <= inject_Z (Weapon.ammoMax weapon))%Q).
  { destruct Am as [-> | [Hge ->]]; [now split|].
    assert (0 <= inject_Z (Weapon.ammoCost weapon))%Q
      by (change 0%Q with (inject_Z 0); rewrite <- Zle_Qle; exact Hc).
    split; lra. }
  destruct (regenerated_bounds (GameState.ammo (gs w0)) (Weapon.ammoMax weapon))
    as [R0 R1]; [tauto | tauto |].
  assert (G0 : GameState.gameOver (gs w0) = false).
  { rewrite Go0. unfold gated in G.
    apply orb_false_iff in G. tauto. }
  pose proof (filterCollide_player (GameState.projectiles (gs w0)) w0) as Pl.
  cbv zeta in Pl.
  assert (Hpl : GameState.player (gs (collisions w0)) =
                GameState.player (gs (snd (filterCollide
                                             (GameState.projectiles (gs w0))
                                             w0))) /\
                GameState.gameOver (gs (collisions w0)) =
                GameState.gameOver (gs (snd (filterCollide
                                               (GameState.projectiles (gs w0))
                                               w0))))
    by (rewrite collisions_spec; split; reflexivity).
  destruct Hpl as [Hpl Hgo].
  rewrite E. unfold bounded. simpl. rewrite Ac, Hpl.
  destruct Pl as [[Pl Go] | (p & Hin & Hpe & _ & _ & Pl & Go)];
    rewrite Pl.
  - split.
    { exists weapon. repeat split; auto. lia. }
    split; [congruence|]. split; [lia|]. split; lia.
  - assert (Hd : 0 <= Projectile.damage p).
    { assert (F : Forall harmful (GameState.projectiles (gs w0)))
        by now apply Hp0.
      rewrite Forall_forall in F. exact (F p Hin Hpe). }
    simpl. split.
    { exists weapon. repeat split; auto. lia. }
    split; [congruence|]. split; [lia|]. split; [lia|].
    intros _. split; [reflexivity|].
    rewrite Hgo, Go, G0.
    destruct (Player.health (GameState.player (gs w0)) - Projectile.damage p
              <=? 0) eqn:L.
    + apply Z.leb_le in L. split; [intros _; exact L | reflexivity].
    + apply Z.leb_gt in L. split; [discriminate | lia].
Qed.


(** C1, amended.  From a world within the bounds ([bounded]: ammo in
    [[0, ammoMax]] of the active weapon, health at most [maxHealth]), a tick
    completes in a world within the bounds again: health is at most
    [maxHealth] and ammo lies in [[0, ammoMax]].  Health never grows in a
    tick and is not clamped at 0: when a hit lowers it, the invincibility
    timer is 60 and the game-over flag is set exactly when the stored
    health, possibly negative, is [<= 0]. *)
Theorem tick_bounds {M : JsMath} (inp : Input) (w : World) :
  bounded w ->
  exists w',
    gameLoop inp w = Some w' /\
    bounded w' /\
    Player.maxHealth (GameState.player (gs w')) =
      Player.maxHealth (GameState.player (gs w)) /\
    Player.health (GameState.player (gs w')) <=
      Player.health (GameState.player (gs w)) /\
    (Player.health (GameState.player (gs w')) <
       Player.health (GameState.player (gs w)) ->
     Player.invincible (GameState.player (gs w')) = 60 /\
     (GameState.gameOver (gs w') = true <->
      Player.health (GameState.player (gs w')) <= 0)).
Proof.
  intro B. destruct (tick_frame inp w B) as (w' & E & B' & _ & H).
  exists w'. split; [exact E|]. split; [exact B' | exact H].
Qed.

(** The counterexample world is within the bounds, and so is the world one
    tick later, although its health is negative. *)
Lemma tick_bounds_witness :
  bounded (lateWorld 10 [] [tankShot] []) /\
  exists w',
    gameLoop (M := exampleMath) (idleInput 0) (lateWorld 10 [] [tankShot] [])
    = Some w' /\
    bounded w' /\
    Player.health (GameState.player (gs w')) <= 10.
Proof.
  assert (B : bounded (lateWorld 10 [] [tankShot] [])).
  { exists blaster. split; [reflexivity|]. split; [simpl; lia|].
    split; [unfold Qle; simpl; lia|]. split; [unfold Qle; simpl; lia|].
    split; [simpl; lia|].
    constructor; [|constructor]. intros _. simpl. lia. }
  split; [exact B|].
  destruct (tick_bounds (M := exampleMath) (idleInput 0) _ B)
    as (w' & E & B' & _ & Hh & _).
  exists w'. repeat split; assumption.
Defined.

(** ** The tick in which the game ends *)

Section GameOverFacts.
Context {M : JsMath}.









End GameOverFacts.



(** ** The bounds along every run *)

Lemma Qfloor_grow (a : Z) (q : Q) :
  0 <= a -> (1 <= q)%Q -> a <= Qfloor (inject_Z a * q).
Proof.
  intros Ha Hq.
  rewrite <- (Qfloor_Z a) at 1. apply Qfloor_resp_le.
  assert (0 <= inject_Z a)%Q
    by (change 0%Q with (inject_Z 0); now rewrite <- Zle_Qle).
  nra.
Qed.

Lemma Forall_setAt {A} (P : A -> Prop) (i : nat) (v : A) (l : list A) :
  Forall P l -> P v -> Forall P (setAt i v l).
Proof.
  intros F Hv. revert i. induction F as [|a r Ha Hr IH]; intros [|j]; simpl;
    constructor; auto.
Qed.

Section RunFacts.
Context {M : JsMath}.

Lemma bounded_fresh (started : bool) (l : Z) (r : nat) :
  bounded (mkWorld (freshState started) l r) /\
  sound (mkWorld (freshState started) l r).
Proof.
  split.
  - exists blaster. split; [reflexivity|]. split; [simpl; lia|].
    split; [unfold Qle; simpl; lia|]. split; [unfold Qle; simpl; lia|].
    split; [simpl; lia | constructor].
  - unfold sound. simpl. repeat constructor; simpl; lia.
Qed.

Lemma spawnWave_bounded (wave : Z) (w : World) :
  bounded w /\ sound w ->
  bounded (spawnWave wave w) /\ sound (spawnWave wave w).
Proof.
  destruct (spawnWave_frame wave w) as (es & r & _ & E). rewrite E.
  intros [B S]. split; [|exact S].
  destruct B as (weapon & H). exists weapon. exact H.
Qed.

Lemma selectWeapon_bounded (index : nat) (w w' : World) :
  bounded w /\ sound w -> selectWeapon index w = Some w' ->
  bounded w' /\ sound w'.
Proof.
  intros [(weapon & _ & _ & A0 & _ & Hh & Hp) S]. unfold selectWeapon.
  destruct (nth_error (GameState.weapons (gs w)) index) as [wp|] eqn:Hn;
    [|discriminate].
  intros E. injection E as <-. split; [|exact S].
  unfold sound in S. rewrite Forall_forall in S.
  destruct (S wp (nth_error_In _ _ Hn)) as [Hc Hm].
  assert (0 <= inject_Z (Weapon.ammoMax wp))%Q
    by (change 0%Q with (inject_Z 0); now rewrite <- Zle_Qle).
  exists wp. simpl. split; [exact Hn|]. split; [exact Hc|].
  unfold Math_min.
  destruct (Qle_bool (GameState.ammo (gs w)) (inject_Z (Weapon.ammoMax wp)))
    eqn:L.
  - apply Qle_bool_iff in L. repeat split; auto.
  - repeat split; auto. apply Qle_refl.
Qed.

Lemma upgradeWeapon_bounded (index : nat) (w w' : World) :
  bounded w /\ sound w -> upgradeWeapon index w = Some w' ->
  bounded w' /\ sound w'.
Proof.
  intros [(weapon & Hw & Hc & A0 & A1 & Hh & Hp) S]. unfold upgradeWeapon.
  destruct (nth_error (GameState.weapons (gs w)) index) as [wp|] eqn:Hn;
    [|discriminate].
  destruct ((Weapon.upgradeCost wp <=? GameState.bolts (gs w))
            && (Weapon.level wp <? 5));
    intros E; injection E as <-.
  2: { split; [exists weapon; repeat split; assumption | exact S]. }
  pose proof S as S'. unfold sound in S'. rewrite Forall_forall in S'.
  destruct (S' wp (nth_error_In _ _ Hn)) as [Hcp Hmp].
  assert (Hgrow : Weapon.ammoMax wp <=
                  Qfloor (inject_Z (Weapon.ammoMax wp) * 1.2))
    by (apply Qfloor_grow; [exact Hmp | unfold Qle; simpl; lia]).
  split.
  - unfold bounded. simpl.
    destruct (Nat.eq_dec (GameState.currentWeapon (gs w)) index) as [Heq|Hne].
    + rewrite Heq in *. assert (wp = weapon) by congruence. subst wp.
      eexists. split; [eapply setAt_same; exact Hn|]. simpl.
      repeat split; auto.
      apply Qle_trans with (inject_Z (Weapon.ammoMax weapon)); [exact A1|].
      now rewrite <- Zle_Qle.
    + exists weapon. rewrite setAt_other by exact Hne.
      repeat split; auto.
  - unfold sound. simpl. apply Forall_setAt; [exact S|]. simpl.
    split; [exact Hcp | lia].
Qed.

(** Buttons, keys and frames all keep the world within the bounds. *)
Lemma handle_bounded (ev : Event) (w w' : World) :
  bounded w /\ sound w -> handle ev w = Some w' -> bounded w' /\ sound w'.
Proof.
  intros BS. destruct ev as [inp | index | index | | |]; simpl.
  - destruct BS as [B S].
    destruct (tick_frame inp w B) as (w1 & E & B1 & W & _).
    rewrite E. intros H. injection H as <-. split; [exact B1|].
    unfold sound. now rewrite W.
  - now apply selectWeapon_bounded.
  - now apply upgradeWeapon_bounded.
  - intros H. injection H as <-. destruct BS as [(weapon & B) S].
    split; [exists weapon; exact B | exact S].
  - intros H. injection H as <-. unfold startGame.
    apply spawnWave_bounded. destruct BS as [(weapon & B) S].
    split; [exists weapon; exact B | exact S].
  - intros H. injection H as <-. unfold resetGame.
    apply spawnWave_bounded. apply bounded_fresh.
Qed.

(** Whatever the player does from the initial state, health stays at most
    [maxHealth] and ammo within the active weapon's capacity. *)
Lemma play_bounded (evs : list Event) (w : World) :
  play evs initialWorld = Some w -> bounded w /\ sound w.
Proof.
  assert (G : forall w0, bounded w0 /\ sound w0 ->
                         play evs w0 = Some w -> bounded w /\ sound w).
  { induction evs as [|ev r IH]; intros w0 BS; simpl.
    - intros H. injection H as <-. exact BS.
    - destruct (handle ev w0) as [w1|] eqn:E; [|discriminate].
      apply IH. now apply (handle_bounded ev w0). }
  apply G. apply bounded_fresh.
Qed.

End RunFacts.

(** ** Enemy movement and fire *)

Section EnemyFacts.
Context {M : JsMath}.

(** One enemy, one frame: the variant and the health are kept, the cooldown
    is counted down or reset, and a volley is emitted exactly when the
    cooldown counted down is [<= 0]. *)
Lemma updateEnemy_spec (pl : Player.t) (e : Enemy.t) :
  let e' := fst (updateEnemy pl e) in
  let shots := snd (updateEnemy pl e) in
  let ty := Enemy.type e in
  (Enemy.health e', Enemy.maxHealth e', Enemy.type e') =
  (Enemy.health e, Enemy.maxHealth e, ty) /\
  (if Qle_bool (Enemy.shootCooldown e - 1) 0
   then Enemy.shootCooldown e' = enemyFireRate ty /\
        List.length shots = volley ty
   else Enemy.shootCooldown e' = (Enemy.shootCooldown e - 1)%Q /\
        shots = []) /\
  Forall (fun p => Projectile.isEnemy p = true /\
                   Projectile.damage p = enemyDamage ty /\
                   Projectile.x p = Enemy.x e' /\
                   Projectile.y p = Enemy.y e') shots.
Proof.
  cbv zeta. unfold updateEnemy.
  match goal with
  | |- context [let '(_, _) := ?c in _] => destruct c as [x y]
  end.
  destruct (Qle_bool (Enemy.shootCooldown e - 1) 0).
  - destruct (Enemy.type e); simpl;
      (split; [reflexivity|]); (split; [split; reflexivity|]);
      repeat constructor.
  - simpl. split; [reflexivity|]. split; [split; reflexivity | constructor].
Qed.

(** The [forEach] over the enemies is a map, and the projectiles pushed are
    the volleys in enemy order. *)
Lemma forEachEnemy_map (pl : Player.t) (es : list Enemy.t) :
  forEachEnemy pl es =
  (map (fun e => fst (updateEnemy pl e)) es,
   flat_map (fun e => snd (updateEnemy pl e)) es).
Proof.
  induction es as [|e r IH]; [reflexivity|].
  simpl. rewrite IH. now destruct (updateEnemy pl e).
Qed.

Lemma updateEnemies_spec (w : World) :
  let pl := GameState.player (gs w) in
  updateEnemies w =
  upd (fun s =>
         GameState.set_enemies
           (map (fun e => fst (updateEnemy pl e)) (GameState.enemies s))
           (GameState.set_projectiles
              (GameState.projectiles s ++
               flat_map (fun e => snd (updateEnemy pl e)) (GameState.enemies s))
              s)) w.
Proof.
  cbv zeta. unfold updateEnemies. rewrite forEachEnemy_map. reflexivity.
Qed.

Lemma cooldown_positive (pl : Player.t) (e : Enemy.t) :
  (0 < Enemy.shootCooldown (fst (updateEnemy pl e)))%Q.
Proof.
  destruct (updateEnemy_spec pl e) as (_ & H & _). cbv zeta in H.
  destruct (Qle_bool (Enemy.shootCooldown e - 1) 0) eqn:L.
  - destruct H as [-> _]. destruct (Enemy.type e); reflexivity.
  - destruct H as [-> _]. apply Qnot_le_lt. intro C.
    apply Qle_bool_iff in C. congruence.
Qed.

End EnemyFacts.

(** X1.  "Update enemies" keeps the enemy collection in order and in
    number, with every enemy's health, maximal health and variant as they
    were; it leaves every fire cooldown strictly positive; and it only
    appends projectiles, all of them enemy-owned with damage 10 or 15.
    Nothing else of the world changes. *)
Theorem updateEnemies_keeps_roster {M : JsMath} (w : World) :
  exists es shots,
    updateEnemies w =
    upd (fun s => GameState.set_enemies es
           (GameState.set_projectiles (GameState.projectiles s ++ shots) s))
        w /\
    map (fun e => (Enemy.health e, Enemy.maxHealth e, Enemy.type e)) es =
    map (fun e => (Enemy.health e, Enemy.maxHealth e, Enemy.type e))
        (GameState.enemies (gs w)) /\
    Forall (fun e => (0 < Enemy.shootCooldown e)%Q) es /\
    Forall (fun p => Projectile.isEnemy p = true /\
                     (Projectile.damage p = 10 \/ Projectile.damage p = 15))
           shots.
Proof.
  eexists _, _. split; [apply updateEnemies_spec|]. cbv zeta.
  split; [|split].
  - rewrite map_map. apply map_ext. intro e.
    now destruct (updateEnemy_spec (GameState.player (gs w)) e) as (H & _).
  - apply Forall_map, Forall_forall. intros e _. apply cooldown_positive.
  - apply Forall_flat_map, Forall_forall. intros e _.
    destruct (updateEnemy_spec (GameState.player (gs w)) e) as (_ & _ & F).
    cbv zeta in F. eapply Forall_impl; [|exact F].
    intros p (Hp & Hd & _). split; [exact Hp|].
    rewrite Hd. destruct (Enemy.type e); simpl; auto.
Qed.

(** ** Player motion *)

Lemma clamp_bounds (lo hi v : Q) :
  (lo <= hi)%Q ->
  (lo <= Math_max lo (Math_min hi v))%Q /\
  (Math_max lo (Math_min hi v) <= hi)%Q.
Proof.
  intro H. unfold Math_max, Math_min.
  destruct (Qle_bool hi v) eqn:A.
  - apply Qle_bool_iff in H. rewrite H. apply Qle_bool_iff in H.
    split; [exact H | apply Qle_refl].
  - assert (Hv : (v < hi)%Q).
    { apply Qnot_le_lt. intro C. apply Qle_bool_iff in C. congruence. }
    destruct (Qle_bool lo v) eqn:B.
    + apply Qle_bool_iff in B. split; [exact B | lra].
    + split; [apply Qle_refl | exact H].
Qed.

(** Inside the bounds the clamp is the identity. *)
Lemma clamp_inside (lo hi v : Q) :
  (lo <= v)%Q -> (v <= hi)%Q ->
  (Math_max lo (Math_min hi v) == v)%Q.
Proof.
  intros A B. unfold Math_max, Math_min.
  destruct (Qle_bool hi v) eqn:C.
  - apply Qle_bool_iff in C.
    assert (E : (v == hi)%Q) by lra.
    destruct (Qle_bool lo hi) eqn:D; [now rewrite E|].
    assert (L : (lo <= hi)%Q) by lra.
    apply Qle_bool_iff in L. congruence.
  - apply Qle_bool_iff in A. rewrite A. reflexivity.
Qed.

Section MotionFacts.
Context {M : JsMath}.

(** "Shooting" writes ammo, projectiles, particles, the time stamp and the
    random cursor, and nothing else. *)
Lemma shootStep_frame (inp : Input) (w : World) (weapon : Weapon.t) :
  nth_error (GameState.weapons (gs w)) (GameState.currentWeapon (gs w)) =
    Some weapon ->
  exists a shots ps l r,
    shootStep inp w =
    Some (mkWorld
            (GameState.set_particles (GameState.particles (gs w) ++ ps)
               (GameState.set_projectiles
                  (GameState.projectiles (gs w) ++ shots)
                  (GameState.set_ammo a (gs w))))
            l r) /\
    Forall (fun p => Projectile.isEnemy p = false) shots.
Proof.
  intro Hw.
  assert (Same : exists a shots ps l r,
             Some w =
             Some (mkWorld
                     (GameState.set_particles
                        (GameState.particles (gs w) ++ ps)
                        (GameState.set_projectiles
                           (GameState.projectiles (gs w) ++ shots)
                           (GameState.set_ammo a (gs w))))
                     l r) /\
             Forall (fun p => Projectile.isEnemy p = false) shots).
  { exists (GameState.ammo (gs w)), [], [], (lastShot w), (rng w).
    split; [|constructor].
    destruct_world w. simpl. now rewrite !app_nil_r. }
  unfold shootStep. destruct (shooting inp); [|exact Same].
  destruct (Z_lt_le_dec (now inp - lastShot w) (Weapon.fireRate weapon))
    as [Hc|Hc].
  { now rewrite (shoot_blocked _ _ _ Hw (or_introl Hc)). }
  destruct (Qlt_le_dec (GameState.ammo (gs w))
                       (inject_Z (Weapon.ammoCost weapon))) as [Ha|Ha].
  { now rewrite (shoot_blocked _ _ _ Hw (or_intror Ha)). }
  destruct (shoot_fires (now inp) w weapon Hw Hc Ha) as (ps & E).
  cbv zeta in E. rewrite E. do 5 eexists.
  split; [reflexivity|]. repeat constructor.
Qed.

Lemma shootStep_keeps (inp : Input) (w : World) (weapon : Weapon.t) :
  nth_error (GameState.weapons (gs w)) (GameState.currentWeapon (gs w)) =
    Some weapon ->
  exists w1, shootStep inp w = Some w1 /\ shotFrame w1 = shotFrame w.
Proof.
  intro Hw.
  destruct (shootStep_frame inp w weapon Hw)
    as (a & shots & ps & l & r & E & _).
  eexists. split; [exact E | reflexivity].
Qed.

(** From "Update invincibility" to "Update enemies": the roster and the
    player's pose are not touched. *)
Lemma preCollision_pose (w : World) :
  let w0 := updateEnemies (updateProjectiles (tickInvincible w)) in
  GameState.weapons (gs w0) = GameState.weapons (gs w) /\
  GameState.currentWeapon (gs w0) = GameState.currentWeapon (gs w) /\
  pose w0 = pose w.
Proof.
  cbv zeta. rewrite updateEnemies_spec.
  unfold updateProjectiles, tickInvincible, pose, upd.
  destruct (0 <? Player.invincible (GameState.player (gs w)));
    repeat split; reflexivity.
Qed.

Lemma collisions_pose (w : World) :
  GameState.weapons (gs (collisions w)) = GameState.weapons (gs w) /\
  GameState.currentWeapon (gs (collisions w))
    = GameState.currentWeapon (gs w) /\
  pose (collisions w) = pose w.
Proof.
  pose proof (collisions_frame w) as F.
  unfold collisionFrame in F. cbn [gs upd] in F.
  generalize dependent (collisions w). intros c F.
  destruct c as [[] ? ?]. cbn in F. unfold pose. cbn.
  injection F as -> -> _ _ _ _ _ _ _ -> -> -> -> -> _.
  repeat split; reflexivity.
Qed.

(** The player at the end of a running tick: where "Update player
    movement" put it, facing where "Update player angle" turned it. *)
Lemma tick_position (inp : Input) (w : World) (weapon : Weapon.t) :
  gated (gs w) = false ->
  nth_error (GameState.weapons (gs w)) (GameState.currentWeapon (gs w)) =
    Some weapon ->
  exists w',
    gameLoop inp w = Some w' /\ pose w' = pose (movePlayer inp w).
Proof.
  intros G Hw. unfold gameLoop. rewrite G. unfold simulate.
  destruct (shootStep_keeps inp (movePlayer inp w) weapon Hw)
    as (w1 & E & K).
  rewrite E. clear E.
  assert (K1 : GameState.weapons (gs w1) = GameState.weapons (gs w) /\
               GameState.currentWeapon (gs w1)
                 = GameState.currentWeapon (gs w) /\
               pose w1 = pose (movePlayer inp w)).
  { unfold shotFrame in K. cbn [gs] in K. unfold pose.
    injection K as -> -> -> _. repeat split; reflexivity. }
  clear K. destruct K1 as (Kw & Kc & Kp).
  destruct (preCollision_pose w1) as (Pw & Pc & Pp). cbv zeta in Pw, Pc, Pp.
  generalize dependent (updateEnemies (updateProjectiles (tickInvincible w1))).
  intros w0 Pw Pc Pp.
  destruct (collisions_pose w0) as (Cw & Cc & Cp).
  generalize dependent (collisions w0). intros wc Cw Cc Cp.
  assert (Hwc : nth_error (GameState.weapons (gs wc))
                          (GameState.currentWeapon (gs wc)) = Some weapon)
    by (rewrite Cw, Cc, Pw, Pc, Kw, Kc; exact Hw).
  destruct (afterCollisions_spec wc weapon Hwc)
    as (w3 & spawned & ps' & r' & _ & Ea & _).
  exists (updateParticles (waveProgression w3)). split; [exact Ea|].
  destruct (afterCollisions_player wc _ weapon Hwc Ea) as (Hp & _).
  rewrite <- Kp, <- Pp, <- Cp. unfold pose. now rewrite Hp.
Qed.

End MotionFacts.

(** The clamp moves a point of the interval in the direction of the step
    asked for, if at all. *)
Lemma clamp_dir (lo hi x v : Q) :
  (lo <= x)%Q -> (x <= hi)%Q ->
  ((0 <= v)%Q -> (x <= Math_max lo (Math_min hi (x + v)))%Q) /\
  ((v <= 0)%Q -> (Math_max lo (Math_min hi (x + v)) <= x)%Q).
Proof.
  intros A B.
  unfold Math_max, Math_min.
  destruct (Qle_bool hi (x + v)) eqn:C.
  - apply Qle_bool_iff in C.
    destruct (Qle_bool lo hi) eqn:D; [split; intro; lra|].
    assert (L : (lo <= hi)%Q) by lra.
    apply Qle_bool_iff in L. congruence.
  - assert (C' : (x + v < hi)%Q).
    { apply Qnot_le_lt. intro L. apply Qle_bool_iff in L. congruence. }
    destruct (Qle_bool lo (x + v)) eqn:D.
    + split; intro; lra.
    + assert (D' : (x + v < lo)%Q).
      { apply Qnot_le_lt. intro L. apply Qle_bool_iff in L. congruence. }
      split; intro; lra.
Qed.

(** X3.  At the end of every running tick the player stands inside the
    playfield, at least 30 units from each edge: [30 <= x <= 1170] and
    [30 <= y <= 670], wherever it was before and whatever keys are held. *)
Theorem player_stays_in_field {M : JsMath} (inp : Input) (w : World)
  (weapon : Weapon.t) :
  gated (gs w) = false ->
  nth_error (GameState.weapons (gs w)) (GameState.currentWeapon (gs w)) =
    Some weapon ->
  exists w',
    gameLoop inp w = Some w' /\
    let pl := GameState.player (gs w') in
    (30 <= Player.x pl)%Q /\ (Player.x pl <= 1170)%Q /\
    (30 <= Player.y pl)%Q /\ (Player.y pl <= 670)%Q.
Proof.
  intros G Hw.
  destruct (tick_position inp w weapon G Hw) as (w' & E & P).
  exists w'. split; [exact E|]. cbv zeta.
  unfold pose in P. injection P as -> -> _ _ _.
  unfold movePlayer, upd. cbn [gs GameState.player GameState.set_player
    Player.x Player.y Player.set_angle Player.set_pos].
  split; [|split; [|split]];
    match goal with
    | |- context [Math_max ?lo (Math_min ?hi ?v)] =>
      destruct (clamp_bounds lo hi v) as [A B];
        [vm_compute; discriminate | first [exact A | exact B]]
    end.
Qed.

(** From the start position with the "d" key held, the first tick leaves
    the player inside the field. *)
Lemma player_stays_in_field_witness :
  gated (gs runningWorld) = false /\
  nth_error (GameState.weapons (gs runningWorld))
            (GameState.currentWeapon (gs runningWorld)) = Some blaster /\
  exists w',
    gameLoop (M := exampleMath)
             (mkInput ["d"%string] 700 350 false 0) runningWorld = Some w' /\
    (30 <= Player.x (GameState.player (gs w')))%Q /\
    (Player.x (GameState.player (gs w')) <= 1170)%Q.
Proof.
  split; [reflexivity|]. split; [reflexivity|].
  destruct (player_stays_in_field (M := exampleMath)
              (mkInput ["d"%string] 700 350 false 0) runningWorld blaster
              eq_refl eq_refl) as (w' & E & A & B & _).
  exists w'. repeat split; assumption.
Defined.

(** X4.  The speed cap.  In a running tick of a player that stands inside
    the field with a speed of at most 5 units per axis, the speed per axis
    is still at most 5 afterwards; on an axis where no direction key is
    held the speed does not grow; and the player is never displaced
    against its new velocity: with a velocity component [>= 0] the
    coordinate does not decrease, with a component [<= 0] it does not
    increase. *)
Theorem player_speed_cap {M : JsMath} (inp : Input) (w : World)
  (weapon : Weapon.t) :
  gated (gs w) = false ->
  nth_error (GameState.weapons (gs w)) (GameState.currentWeapon (gs w)) =
    Some weapon ->
  let pl := GameState.player (gs w) in
  (30 <= Player.x pl)%Q -> (Player.x pl <= 1170)%Q ->
  (30 <= Player.y pl)%Q -> (Player.y pl <= 670)%Q ->
  (Qabs (Player.vx pl) <= 5)%Q -> (Qabs (Player.vy pl) <= 5)%Q ->
  exists w',
    gameLoop inp w = Some w' /\
    let pl' := GameState.player (gs w') in
    let ks := keys inp in
    (Qabs (Player.vx pl') <= 5)%Q /\ (Qabs (Player.vy pl') <= 5)%Q /\
    (has "a" ks || has "arrowleft" ks || has "d" ks || has "arrowright" ks
     = false -> (Qabs (Player.vx pl') <= Qabs (Player.vx pl))%Q) /\
    (has "w" ks || has "arrowup" ks || has "s" ks || has "arrowdown" ks
     = false -> (Qabs (Player.vy pl') <= Qabs (Player.vy pl))%Q) /\
    ((0 <= Player.vx pl')%Q -> (Player.x pl <= Player.x pl')%Q) /\
    ((Player.vx pl' <= 0)%Q -> (Player.x pl' <= Player.x pl)%Q) /\
    ((0 <= Player.vy pl')%Q -> (Player.y pl <= Player.y pl')%Q) /\
    ((Player.vy pl' <= 0)%Q -> (Player.y pl' <= Player.y pl)%Q).
Proof.
  intros G Hw pl X0 X1 Y0 Y1 VX VY. subst pl.
  destruct (tick_position inp w weapon G Hw) as (w' & E & P).
  exists w'. split; [exact E|]. cbv zeta.
  unfold pose in P. injection P as -> -> -> -> _.
  unfold movePlayer, upd. cbn [gs GameState.player GameState.set_player
    Player.x Player.y Player.vx Player.vy Player.set_angle Player.set_pos
    Player.set_vx Player.set_vy].
  set (vx' := if has "a" (keys inp) || has "arrowleft" (keys inp)
              then Qopp 5
              else if has "d" (keys inp) || has "arrowright" (keys inp)
                   then 5%Q
                   else (Player.vx (GameState.player (gs w)) * 0.8)%Q).
  set (vy' := if has "w" (keys inp) || has "arrowup" (keys inp)
              then Qopp 5
              else if has "s" (keys inp) || has "arrowdown" (keys inp)
                   then 5%Q
                   else (Player.vy (GameState.player (gs w)) * 0.8)%Q).
  assert (Decay : forall v : Q, (Qabs (v * 0.8) <= Qabs v)%Q).
  { intros v. rewrite Qabs_Qmult.
    assert (0 <= Qabs v)%Q by apply Qabs_nonneg.
    change (Qabs 0.8) with 0.8%Q. lra. }
  assert (Hvx : (Qabs vx' <= 5)%Q).
  { unfold vx'.
    destruct (has "a" (keys inp) || has "arrowleft" (keys inp));
      [apply Qabs_Qle_condition; split; lra|].
    destruct (has "d" (keys inp) || has "arrowright" (keys inp));
      [apply Qabs_Qle_condition; split; lra|].
    pose proof (Decay (Player.vx (GameState.player (gs w)))). lra. }
  assert (Hvy : (Qabs vy' <= 5)%Q).
  { unfold vy'.
    destruct (has "w" (keys inp) || has "arrowup" (keys inp));
      [apply Qabs_Qle_condition; split; lra|].
    destruct (has "s" (keys inp) || has "arrowdown" (keys inp));
      [apply Qabs_Qle_condition; split; lra|].
    pose proof (Decay (Player.vy (GameState.player (gs w)))). lra. }
  assert (Hdx : has "a" (keys inp) || has "arrowleft" (keys inp)
                || has "d" (keys inp) || has "arrowright" (keys inp) = false ->
                (Qabs vx' <= Qabs (Player.vx (GameState.player (gs w))))%Q).
  { intro K. unfold vx'.
    destruct (has "a" (keys inp) || has "arrowleft" (keys inp));
      [discriminate|].
    destruct (has "d" (keys inp)); [discriminate|].
    destruct (has "arrowright" (keys inp)); [discriminate|].
    cbn [orb]. apply Decay. }
  assert (Hdy : has "w" (keys inp) || has "arrowup" (keys inp)
                || has "s" (keys inp) || has "arrowdown" (keys inp) = false ->
                (Qabs vy' <= Qabs (Player.vy (GameState.player (gs w))))%Q).
  { intro K. unfold vy'.
    destruct (has "w" (keys inp) || has "arrowup" (keys inp));
      [discriminate|].
    destruct (has "s" (keys inp)); [discriminate|].
    destruct (has "arrowdown" (keys inp)); [discriminate|].
    cbn [orb]. apply Decay. }
  change (inject_Z (CANVAS_WIDTH - 30)) with 1170%Q.
  change (inject_Z (CANVAS_HEIGHT - 30)) with 670%Q.
  destruct (clamp_dir 30 1170 (Player.x (GameState.player (gs w))) vx' X0 X1)
    as [A B].
  destruct (clamp_dir 30 670 (Player.y (GameState.player (gs w))) vy' Y0 Y1)
    as [C D].
  repeat split; assumption.
Qed.

(** From the start position, at rest, with the "d" key held: the player
    moves at speed 5 and not to the left. *)
Lemma player_speed_cap_witness :
  gated (gs runningWorld) = false /\
  (30 <= Player.x (GameState.player (gs runningWorld)))%Q /\
  (Qabs (Player.vx (GameState.player (gs runningWorld))) <= 5)%Q /\
  exists w',
    gameLoop (M := exampleMath)
             (mkInput ["d"%string] 700 350 false 0) runningWorld = Some w' /\
    (Qabs (Player.vx (GameState.player (gs w'))) <= 5)%Q /\
    ((0 <= Player.vx (GameState.player (gs w')))%Q ->
     (Player.x (GameState.player (gs runningWorld))
      <= Player.x (GameState.player (gs w')))%Q).
Proof.
  split; [reflexivity|].
  split; [vm_compute; discriminate|].
  split; [vm_compute; discriminate|].
  destruct (player_speed_cap (M := exampleMath)
              (mkInput ["d"%string] 700 350 false 0) runningWorld blaster
              eq_refl eq_refl) as (w' & E & A & _ & _ & _ & B & _);
    try (vm_compute; discriminate).
  exists w'. split; [exact E|]. split; [exact A | exact B].
Defined.

(** ** Projectile flight *)

(** A displacement changes the position only. *)
Lemma flight_keeps (k : nat) (p : Projectile.t) :
  let q := Nat.iter k moveProjectile p in
  (Projectile.vx q, Projectile.vy q, Projectile.damage q,
   Projectile.isEnemy q, Projectile.color q, Projectile.size q) =
  (Projectile.vx p, Projectile.vy p, Projectile.damage p,
   Projectile.isEnemy p, Projectile.color p, Projectile.size p).
Proof.
  cbv zeta. induction k as [|k IH]; [reflexivity|].
  rewrite Nat.iter_succ. exact IH.
Qed.

Lemma survives_succ (n : nat) (p : Projectile.t) :
  survives (S n) p =
  survives n p && inBounds (Nat.iter (S n) moveProjectile p).
Proof.
  unfold survives. rewrite seq_S, forallb_app. cbn [forallb Nat.add].
  now rewrite andb_true_r.
Qed.

(** One more run of "Update projectiles" on the survivors of [n] runs. *)
Lemma flight_step (n : nat) (ps : list Projectile.t) :
  filter inBounds
    (map moveProjectile
       (map (Nat.iter n moveProjectile) (filter (survives n) ps))) =
  map (Nat.iter (S n) moveProjectile) (filter (survives (S n)) ps).
Proof.
  induction ps as [|p r IH]; [reflexivity|].
  cbn [filter]. rewrite survives_succ.
  destruct (survives n p); cbn [andb map filter].
  - change (moveProjectile (Nat.iter n moveProjectile p))
      with (Nat.iter (S n) moveProjectile p).
    destruct (inBounds (Nat.iter (S n) moveProjectile p));
      cbn [map]; now rewrite IH.
  - exact IH.
Qed.

(** X5.  Projectiles fly in a straight line at constant velocity and are
    dropped for good the first time they leave the field extended by a
    margin of 50, whoever owns them.  After [n] runs of "Update
    projectiles" the collection consists, in the old order, of exactly the
    original projectiles that were strictly inside the margin after each
    of their first [n] displacements, each displaced [n] times; nothing
    but the projectile collection changes.  A displacement adds the
    projectile's own velocity to its position and keeps its velocity,
    damage, owner, colour and size. *)
Theorem projectile_flight (n : nat) (w : World) :
  Nat.iter n updateProjectiles w =
  upd (GameState.set_projectiles
         (map (Nat.iter n moveProjectile)
              (filter (survives n) (GameState.projectiles (gs w))))) w /\
  (forall (p : Projectile.t) (k : nat),
     let q := Nat.iter k moveProjectile p in
     Projectile.x (moveProjectile q) = (Projectile.x q + Projectile.vx p)%Q /\
     Projectile.y (moveProjectile q) = (Projectile.y q + Projectile.vy p)%Q /\
     (Projectile.vx q, Projectile.vy q, Projectile.damage q,
      Projectile.isEnemy q, Projectile.color q, Projectile.size q) =
     (Projectile.vx p, Projectile.vy p, Projectile.damage p,
      Projectile.isEnemy p, Projectile.color p, Projectile.size p)) /\
  (forall p, survives n p = true <->
             forall k, (1 <= k <= n)%nat ->
               let pk := Nat.iter k moveProjectile p in
               (-50 < Projectile.x pk)%Q /\ (Projectile.x pk < 1250)%Q /\
               (-50 < Projectile.y pk)%Q /\ (Projectile.y pk < 750)%Q).
Proof.
  split; [|split].
  - induction n as [|n IH].
    + cbn [Nat.iter nat_rect]. unfold survives. cbn [seq forallb].
      assert (E : forall l : list Projectile.t,
                    map (fun p => p) (filter (fun _ => true) l) = l).
      { induction l as [|a l IHl]; [reflexivity|]. cbn. now rewrite IHl. }
      change (map (Nat.iter 0 moveProjectile)
                  (filter (fun _ : Projectile.t => true)
                          (GameState.projectiles (gs w))))
        with (map (fun p : Projectile.t => p)
                  (filter (fun _ : Projectile.t => true)
                          (GameState.projectiles (gs w)))).
      rewrite E. destruct_world w. reflexivity.
    + rewrite Nat.iter_succ, IH. unfold updateProjectiles at 1.
      unfold upd. cbn [gs lastShot rng GameState.projectiles
                       GameState.set_projectiles].
      rewrite flight_step. destruct_world w. reflexivity.
  - intros p k. cbv zeta.
    pose proof (flight_keeps k p) as H. cbv zeta in H.
    injection H as Hvx Hvy Hd He Hc Hs.
    set (q := Nat.iter k moveProjectile p) in *.
    change (Projectile.x (moveProjectile q))
      with (Projectile.x q + Projectile.vx q)%Q.
    change (Projectile.y (moveProjectile q))
      with (Projectile.y q + Projectile.vy q)%Q.
    rewrite Hvx, Hvy, Hd, He, Hc, Hs. repeat split; reflexivity.
  - intro p. unfold survives. rewrite forallb_forall. cbv zeta.
    split.
    + intros H k Hk.
      assert (Hin : In k (seq 1 n)) by (apply in_seq; lia).
      specialize (H k Hin). unfold inBounds in H.
      apply andb_true_iff in H. destruct H as [H B4].
      apply andb_true_iff in H. destruct H as [H B3].
      apply andb_true_iff in H. destruct H as [B1 B2].
      apply Qltb_lt in B1, B2, B3, B4. repeat split; assumption.
    + intros H k Hk. apply in_seq in Hk.
      destruct (H k) as (B1 & B2 & B3 & B4); [lia|].
      unfold inBounds.
      apply andb_true_iff; split; [apply andb_true_iff; split;
        [apply andb_true_iff; split|]|]; apply Qltb_lt.
      * exact B1.
      * exact B2.
      * exact B3.
      * exact B4.
Qed.

(** ** Pickups *)

Lemma visited_kept (pl : Player.t) (bs : list Bolt.t) :
  let kept := filter (fun b => negb (Bolt.collected b)) (map (visited pl) bs) in
  Forall (fun b => Bolt.collected b = false /\ inReach pl b = false) kept /\
  (Forall (fun b => Bolt.collected b = false) bs ->
   (List.length kept + List.length (reachable pl bs) = List.length bs)%nat) /\
  reachable pl kept = [].
Proof.
  cbv zeta.
  assert (F : Forall (fun b => Bolt.collected b = false /\
                               inReach pl b = false)
                     (filter (fun b => negb (Bolt.collected b))
                             (map (visited pl) bs))).
  { apply Forall_forall. intros b Hb. apply filter_In in Hb.
    destruct Hb as [Hb Hc]. apply in_map_iff in Hb.
    destruct Hb as (b0 & <- & _). unfold visited in *. simpl in *.
    apply negb_true_iff in Hc. apply orb_false_iff in Hc.
    destruct Hc as [Hc Hr]. split; [now rewrite Hc, Hr|].
    unfold inReach in *. exact Hr. }
  split; [exact F|]. split.
  - clear F. intro U. induction U as [|b r Hb Hr IH]; [reflexivity|].
    unfold reachable in *. simpl. rewrite Hb. simpl.
    destruct (inReach pl b); simpl; lia.
  - unfold reachable. induction F as [|b r [Hc Hr] _ IH]; [reflexivity|].
    simpl. now rewrite Hr, andb_false_r.
Qed.

(** X6.  "Collect bolts" counts every uncollected pickup within reach of
    the player (squared distance below 1600) exactly once, in both the
    current and the lifetime currency counter, and removes it; pickups
    already marked collected are removed without being counted.  The
    pickups that stay are all uncollected and out of reach, and when
    every pickup was uncollected before, the number kept plus the number
    counted is the number there was.  Apart from cosmetic particles and
    random draws nothing else changes. *)
Theorem collectBolts_accounts {M : JsMath} (w : World) :
  let s := gs w in
  let pl := GameState.player s in
  let n := List.length (reachable pl (GameState.boltPickups s)) in
  exists kept ps r,
    collectBolts w =
    mkWorld
      (GameState.set_boltPickups kept
         (GameState.set_particles (GameState.particles s ++ ps)
            (GameState.set_totalBolts (GameState.totalBolts s + Z.of_nat n)
               (GameState.set_bolts (GameState.bolts s + Z.of_nat n) s))))
      (lastShot w) r /\
    Forall (fun b => Bolt.collected b = false /\ inReach pl b = false) kept /\
    (Forall (fun b => Bolt.collected b = false) (GameState.boltPickups s) ->
     (List.length kept + n = List.length (GameState.boltPickups s))%nat).
Proof.
  cbv zeta. destruct (collectBolts_spec w) as (ps & r & E). cbv zeta in E.
  destruct (visited_kept (GameState.player (gs w))
                         (GameState.boltPickups (gs w))) as (F & L & _).
  cbv zeta in F, L.
  eexists _, ps, r. split; [exact E|]. split; [exact F | exact L].
Qed.

(** X7.  Collecting is idempotent: a second run of "Collect bolts" right
    after the first finds nothing left to count, so both currency counters
    and the number of pickups stay as the first run left them. *)
Theorem collectBolts_twice {M : JsMath} (w : World) :
  let w1 := collectBolts w in
  let w2 := collectBolts w1 in
  GameState.bolts (gs w2) = GameState.bolts (gs w1) /\
  GameState.totalBolts (gs w2) = GameState.totalBolts (gs w1) /\
  List.length (GameState.boltPickups (gs w2)) =
    List.length (GameState.boltPickups (gs w1)).
Proof.
  cbv zeta. destruct (collectBolts_spec w) as (ps & r & E). cbv zeta in E.
  destruct (visited_kept (GameState.player (gs w))
                         (GameState.boltPickups (gs w))) as (F & _ & R).
  cbv zeta in F, R.
  rewrite E. clear E.
  match goal with
  | |- context [collectBolts ?w1] =>
    destruct (collectBolts_spec w1) as (ps2 & r2 & E2);
      destruct (visited_kept (GameState.player (gs w1))
                             (GameState.boltPickups (gs w1))) as (_ & L2 & _)
  end.
  cbv zeta in E2, L2. cbn [gs GameState.player GameState.boltPickups
    GameState.set_boltPickups GameState.set_particles
    GameState.set_totalBolts GameState.set_bolts] in E2, L2.
  rewrite E2. cbn [gs GameState.bolts GameState.totalBolts
    GameState.boltPickups GameState.set_boltPickups GameState.set_particles
    GameState.set_totalBolts GameState.set_bolts].
  rewrite R in *. simpl List.length in *.
  split; [lia|]. split; [lia|].
  rewrite Nat.add_0_r in L2. apply L2.
  eapply Forall_impl; [|exact F]. now intros b [Hb _].
Qed.

(** ** Ammo: regeneration and weapon switches *)

Lemma Math_min_cases (a b : Q) :
  ((a <= b)%Q /\ Math_min a b = a) \/ ((b < a)%Q /\ Math_min a b = b).
Proof.
  unfold Math_min. destruct (Qle_bool a b) eqn:E.
  - left. split; [now apply Qle_bool_iff | reflexivity].
  - right. split; [|reflexivity].
    apply Qnot_le_lt. intro L. apply Qle_bool_iff in L. congruence.
Qed.

Lemma regenerated_cases (a : Q) (m : Z) :
  ((inject_Z m <= a)%Q /\ regenerated a m = a) \/
  ((a + 0.1 < inject_Z m)%Q /\ regenerated a m = (a + 0.1)%Q) \/
  ((a < inject_Z m)%Q /\ (inject_Z m <= a + 0.1)%Q /\
   regenerated a m = inject_Z m).
Proof.
  unfold regenerated. destruct (Qltb a (inject_Z m)) eqn:E.
  - apply Qltb_lt in E.
    destruct (Math_min_cases (inject_Z m) (a + 0.1)) as [[L ->] | [L ->]].
    + right. right. repeat split; assumption.
    + right. left. split; [exact L | reflexivity].
  - apply Qltb_ge in E. left. split; [exact E | reflexivity].
Qed.

Lemma times_regen (n : nat) (w : World) (weapon : Weapon.t) :
  nth_error (GameState.weapons (gs w)) (GameState.currentWeapon (gs w)) =
    Some weapon ->
  times n regenAmmo w =
  Some (upd (GameState.set_ammo
               (Nat.iter n (fun a => regenerated a (Weapon.ammoMax weapon))
                         (GameState.ammo (gs w)))) w).
Proof.
  revert w. induction n as [|n IH]; intros w Hw.
  - simpl. destruct_world w. reflexivity.
  - cbn [times]. rewrite (regenAmmo_spec w weapon Hw).
    rewrite IH by exact Hw.
    rewrite Nat.iter_succ_r. reflexivity.
Qed.

Lemma iter_regen (n : nat) (a : Q) (m : Z) :
  (a < inject_Z m)%Q ->
  let x := Nat.iter n (fun a => regenerated a m) a in
  ((a + inject_Z (Z.of_nat n) * 0.1 <= inject_Z m)%Q ->
   (x == a + inject_Z (Z.of_nat n) * 0.1)%Q) /\
  ((inject_Z m <= a + inject_Z (Z.of_nat n) * 0.1)%Q -> (x == inject_Z m)%Q).
Proof.
  intros Ha. cbv zeta. induction n as [|n [IH1 IH2]].
  - simpl. change (inject_Z 0) with 0%Q. split; intro H; lra.
  - rewrite Nat.iter_succ.
    set (x := Nat.iter n (fun a0 => regenerated a0 m) a) in *.
    rewrite Nat2Z.inj_succ, <- Z.add_1_r, inject_Z_plus.
    change (inject_Z 1) with 1%Q.
    assert (Hn : (0 <= inject_Z (Z.of_nat n))%Q).
    { change 0%Q with (inject_Z 0). rewrite <- Zle_Qle. lia. }
    destruct (Qlt_le_dec (inject_Z m) (a + inject_Z (Z.of_nat n) * 0.1))
      as [Hover | Hunder].
    + (* already full *)
      assert (Hx : (x == inject_Z m)%Q) by (apply IH2; lra).
      destruct (regenerated_cases x m) as [[_ ->] | [[L _] | [L _]]];
        split; intro H; lra.
    + assert (Hx : (x == a + inject_Z (Z.of_nat n) * 0.1)%Q)
        by now apply IH1.
      destruct (regenerated_cases x m)
        as [[L ->] | [[L ->] | (L1 & L2 & ->)]];
        split; intro H; lra.
Qed.

(** X8.  Ammo regenerates towards the active weapon's capacity and
    saturates there.  After [n] runs of "Ammo regen", ammo that started at
    or above the capacity is left as it is (it is never cut down); ammo
    that started below the capacity has not decreased and does not exceed
    the capacity, and it is the capacity itself once [n] is large enough
    for [ammo + n * 0.1] to pass the capacity by one more step of [0.1].
    Nothing but the ammo changes. *)
Theorem regen_saturates (n : nat) (w : World) (weapon : Weapon.t) :
  nth_error (GameState.weapons (gs w)) (GameState.currentWeapon (gs w)) =
    Some weapon ->
  let a := GameState.ammo (gs w) in
  let cap := inject_Z (Weapon.ammoMax weapon) in
  exists a',
    times n regenAmmo w = Some (upd (GameState.set_ammo a') w) /\
    ((cap <= a)%Q -> a' = a) /\
    ((a < cap)%Q -> (a <= a')%Q /\ (a' <= cap)%Q) /\
    ((a < cap)%Q -> (cap + 0.1 <= a + inject_Z (Z.of_nat n) * 0.1)%Q ->
     (a' == cap)%Q).
Proof.
  intros Hw. cbv zeta. eexists. split; [apply times_regen, Hw|].
  split; [|split].
  - intro Hfull. induction n as [|n IH]; [reflexivity|].
    rewrite Nat.iter_succ, IH.
    now destruct (regenerated_cases (GameState.ammo (gs w))
                                    (Weapon.ammoMax weapon))
      as [[_ ->] | [[L _] | [L _]]]; [|lra..].
  - intros Ha. destruct (iter_regen n _ _ Ha) as [H1 H2].
    assert (Hn : (0 <= inject_Z (Z.of_nat n))%Q).
    { change 0%Q with (inject_Z 0). rewrite <- Zle_Qle. lia. }
    destruct (Qlt_le_dec (inject_Z (Weapon.ammoMax weapon))
                (GameState.ammo (gs w) + inject_Z (Z.of_nat n) * 0.1))
      as [Hover | Hunder].
    + rewrite H2 by lra. split; lra.
    + rewrite H1 by exact Hunder. split; lra.
  - intros Ha Hn. apply (iter_regen n _ _ Ha). lra.
Qed.

(** From 50 ammo the Blaster (capacity 100) holds between 50 and 100 after
    100 runs and is full after 600. *)
Lemma regen_saturates_witness :
  nth_error (GameState.weapons (gs (lateWorld 10 [] [] [])))
            (GameState.currentWeapon (gs (lateWorld 10 [] [] []))) =
    Some blaster /\
  exists a1 a2,
    times 100 regenAmmo (lateWorld 10 [] [] []) =
      Some (upd (GameState.set_ammo a1) (lateWorld 10 [] [] [])) /\
    (50 <= a1)%Q /\ (a1 <= 100)%Q /\
    times 600 regenAmmo (lateWorld 10 [] [] []) =
      Some (upd (GameState.set_ammo a2) (lateWorld 10 [] [] [])) /\
    (a2 == 100)%Q.
Proof.
  split; [reflexivity|].
  destruct (regen_saturates 100 (lateWorld 10 [] [] [])
              blaster eq_refl) as (a1 & E1 & _ & H1 & _).
  destruct (regen_saturates 600 (lateWorld 10 [] [] [])
              blaster eq_refl) as (a2 & E2 & _ & _ & H2).
  exists a1, a2. split; [exact E1|].
  destruct H1 as [L1 U1]; [reflexivity|].
  split; [exact L1|]. split; [exact U1|]. split; [exact E2|].
  apply H2; [reflexivity | vm_compute; discriminate].
Defined.

Lemma Math_min_idem (a m : Q) : Math_min (Math_min a m) m = Math_min a m.
Proof.
  destruct (Math_min_cases a m) as [[L E] | [L E]]; rewrite E.
  - exact E.
  - unfold Math_min. assert (H : (m <= m)%Q) by apply Qle_refl.
    apply Qle_bool_iff in H. now rewrite H.
Qed.

Lemma selectWeapon_idem (index : nat) (w w' : World) :
  selectWeapon index w = Some w' -> selectWeapon index w' = Some w'.
Proof.
  unfold selectWeapon.
  destruct (nth_error (GameState.weapons (gs w)) index) as [weapon|] eqn:Hn;
    [|discriminate].
  intro E. injection E as <-. unfold upd. simpl. rewrite Hn.
  rewrite Math_min_idem. reflexivity.
Qed.

(** X9.  Switching weapons never grants ammo.  For a slot of the roster,
    [selectWeapon] makes it the active weapon and cuts the ammo down to
    that weapon's capacity when it exceeds it: the new ammo is at most the
    old ammo and at most the capacity, and is the old ammo when that fits.
    Selecting the same slot again changes nothing, and nothing but the
    active slot and the ammo is written.  For a slot outside the roster
    the handler throws. *)
Theorem selectWeapon_clamps (index : nat) (w : World) :
  (forall weapon,
     nth_error (GameState.weapons (gs w)) index = Some weapon ->
     let cap := inject_Z (Weapon.ammoMax weapon) in
     exists a',
       selectWeapon index w =
       Some (upd (fun s => GameState.set_ammo a'
                             (GameState.set_currentWeapon index s)) w) /\
       (a' <= GameState.ammo (gs w))%Q /\ (a' <= cap)%Q /\
       ((GameState.ammo (gs w) <= cap)%Q -> a' = GameState.ammo (gs w)) /\
       selectWeapon index
         (upd (fun s => GameState.set_ammo a'
                          (GameState.set_currentWeapon index s)) w) =
       Some (upd (fun s => GameState.set_ammo a'
                             (GameState.set_currentWeapon index s)) w)) /\
  (nth_error (GameState.weapons (gs w)) index = None ->
   selectWeapon index w = None).
Proof.
  split.
  - intros weapon Hn. cbv zeta.
    assert (E : selectWeapon index w =
                Some (upd (fun s =>
                             GameState.set_ammo
                               (Math_min (GameState.ammo (gs w))
                                         (inject_Z (Weapon.ammoMax weapon)))
                               (GameState.set_currentWeapon index s)) w))
      by (unfold selectWeapon; now rewrite Hn).
    eexists. split; [exact E|].
    split; [|split; [|split; [|exact (selectWeapon_idem _ _ _ E)]]];
      destruct (Math_min_cases (GameState.ammo (gs w))
                               (inject_Z (Weapon.ammoMax weapon)))
        as [[L ->] | [L ->]];
      try apply Qle_refl; try assumption; try reflexivity;
      try (now apply Qlt_le_weak); intro H; lra.
  - intro Hn. unfold selectWeapon. now rewrite Hn.
Qed.

(** ** Pause, start, retry *)

Lemma togglePause_twice (w : World) : togglePause (togglePause w) = w.
Proof.
  destruct_world w. unfold togglePause, upd. simpl.
  now rewrite negb_involutive.
Qed.

(** X10.  Pausing freezes the game and resuming restores it exactly: from
    a world that is not paused, pressing the pause key, letting any number
    of frames pass with any inputs, and pressing the pause key again gives
    back the very same world. *)
Theorem pause_resume {M : JsMath} (inps : list Input) (w : World) :
  GameState.paused (gs w) = false ->
  play (Pause :: map Frame inps ++ [Pause]) w = Some w.
Proof.
  intro Hp. cbn [play handle].
  assert (G : gated (gs (togglePause w)) = true).
  { unfold gated, togglePause, upd. simpl. rewrite Hp. simpl.
    now rewrite orb_true_r. }
  assert (F : forall inps, play (map Frame inps ++ [Pause]) (togglePause w)
                           = Some w).
  { clear inps. intro inps. induction inps as [|inp r IH].
    - simpl. now rewrite togglePause_twice.
    - cbn [map app play handle]. unfold gameLoop. rewrite G. exact IH. }
  apply F.
Qed.

(** Two frames pass while the running game is paused. *)
Lemma pause_resume_witness :
  GameState.paused (gs lastStand) = false /\
  play (M := exampleMath)
       [Pause; Frame (idleInput 0); Frame (idleInput 16); Pause] lastStand
  = Some lastStand.
Proof.
  split; [reflexivity|].
  exact (pause_resume (M := exampleMath) [idleInput 0; idleInput 16]
                      lastStand eq_refl).
Defined.

Section SessionFacts.
Context {M : JsMath}.

(** Wave 1 is five drones with 40 health each, and no boss. *)
Lemma spawnWave_first (w : World) :
  exists es r,
    spawnWave 1 w =
    mkWorld (GameState.set_enemies (GameState.enemies (gs w) ++ es) (gs w))
            (lastShot w) r /\
    List.length es = 5%nat /\
    Forall (fun e => (Enemy.type e, Enemy.health e, Enemy.maxHealth e)
                     = (drone, 40, 40)) es.
Proof.
  unfold spawnWave.
  destruct (spawnLoop_spec (Z.to_nat (3 + 1 * 2)) 1 w)
    as (es & L & F & E).
  rewrite E. change (1 mod 5 =? 0) with false. cbv iota.
  exists es. eexists. split; [reflexivity|]. split; [exact L|].
  apply Forall_forall. intros e He.
  destruct (In_nth_error _ _ He) as (i & Hi).
  destruct (F i e Hi) as (Hk & Hh & Hm).
  unfold waveVariant in Hk. change (3 <? 1) with false in Hk.
  simpl in Hk. rewrite Hm, Hh, Hk. reflexivity.
Qed.

End SessionFacts.

(** X11.  The retry button forgets the game that ended: whatever the world
    was, [resetGame] leaves the initial state with [started] set (health
    100, ammo 100, no bolts, score 0, wave 1, every weapon back at level
    1, no projectile, particle or pickup, flags cleared) and exactly the
    five drones of wave 1 on the field, 40 health each; only the time
    stamp of the last shot survives.  The start button instead keeps the
    world as it is, sets [started] and adds those five drones. *)
Theorem retry_forgets {M : JsMath} (w : World) :
  (exists es r,
     resetGame w =
     mkWorld (GameState.set_enemies es (freshState true)) (lastShot w) r /\
     List.length es = 5%nat /\
     Forall (fun e => (Enemy.type e, Enemy.health e, Enemy.maxHealth e)
                      = (drone, 40, 40)) es) /\
  (exists es r,
     startGame w =
     mkWorld (GameState.set_enemies (GameState.enemies (gs w) ++ es)
                (GameState.set_started true (gs w)))
             (lastShot w) r /\
     List.length es = 5%nat /\
     Forall (fun e => (Enemy.type e, Enemy.health e, Enemy.maxHealth e)
                      = (drone, 40, 40)) es).
Proof.
  split.
  - unfold resetGame.
    destruct (spawnWave_first (mkWorld (freshState true) (lastShot w) (rng w)))
      as (es & r & E & L & F).
    exists es, r. split; [rewrite E; reflexivity|]. now split.
  - unfold startGame.
    destruct (spawnWave_first (upd (GameState.set_started true) w))
      as (es & r & E & L & F).
    exists es, r. split; [rewrite E; reflexivity|]. now split.
Qed.

(** ** The books of the collision pass *)

Section AccountingFacts.
Context {M : JsMath}.

Lemma kills_none (w w' : World) : tally w' = tally w -> kills 0 w w'.
Proof.
  unfold kills. intros ->. destruct (tally w) as [[e s] b].
  repeat split; lia.
Qed.

Lemma kills_trans (j k : nat) (w w1 w2 : World) :
  kills j w w1 -> kills k w1 w2 -> kills (j + k) w w2.
Proof.
  unfold kills.
  destruct (tally w) as [[e s] b], (tally w1) as [[e1 s1] b1],
           (tally w2) as [[e2 s2] b2].
  intros (A1 & A2 & A3 & A4 & A5) (B1 & B2 & B3 & B4 & B5).
  repeat split; lia.
Qed.

(** One projectile: no kill, or one kill by a player projectile that is
    consumed. *)
Lemma collide_kills (p : Projectile.t) (w : World) :
  kills 0 w (snd (collide p w)) \/
  (kills 1 w (snd (collide p w)) /\ fst (collide p w) = false).
Proof.
  destruct (Projectile.isEnemy p) eqn:Hp.
  - left. apply kills_none.
    destruct (touchesPlayer p (GameState.player (gs w))) eqn:Ht;
      [|now rewrite collide_miss].
    destruct (Z_lt_le_dec 0 (Player.invincible (GameState.player (gs w))))
      as [Hi|Hi]; [now rewrite collide_invincible|].
    destruct (collide_hit p w Hp Ht Hi) as (ps & E). cbv zeta in E.
    rewrite E. reflexivity.
  - unfold collide. rewrite Hp. cbn [negb].
    pose proof (enemyLoop_spec (List.length (GameState.enemies (gs w))) p w)
      as Hloop. cbv zeta in Hloop.
    destruct (enemyLoop (List.length (GameState.enemies (gs w))) p w)
      as [w'|]; [|left; now apply kills_none].
    destruct Hloop as (i & e & _ & Hn & _ & _ & ->).
    destruct (hitEnemy_spec i e p w) as (ps & bs & r & Lb & _ & E).
    cbv zeta in Lb, E. cbn [fst snd]. rewrite E. clear E.
    destruct (Enemy.health e - Projectile.damage p <=? 0).
    + right. split; [|reflexivity].
      unfold kills, tally. cbn [gs GameState.enemies GameState.score
        GameState.boltPickups GameState.set_particles
        GameState.set_boltPickups GameState.set_score GameState.set_enemies].
      rewrite length_app, Lb.
      pose proof (splice1_length i e _ Hn) as Hs.
      destruct (Enemy.type e); simpl boltCount; simpl scoreValue;
        repeat split; lia.
    + left. apply kills_none. unfold tally.
      cbn [gs GameState.enemies GameState.score GameState.boltPickups
        GameState.set_particles GameState.set_boltPickups
        GameState.set_score GameState.set_enemies].
      rewrite length_app, Lb, setAt_length, Nat.add_0_r. reflexivity.
Qed.

Lemma filterCollide_kills (ps : list Projectile.t) (w : World) :
  exists k,
    kills k w (snd (filterCollide ps w)) /\
    (List.length (fst (filterCollide ps w)) + k <= List.length ps)%nat.
Proof.
  revert w. induction ps as [|p r IH]; intro w.
  - exists 0%nat. split; [now apply kills_none | simpl; lia].
  - cbn [filterCollide].
    pose proof (collide_kills p w) as Hc.
    destruct (collide p w) as [keep w1]. cbn [fst snd] in Hc.
    destruct (IH w1) as (k & Hk & Hl).
    destruct (filterCollide r w1) as [kept w2]. cbn [fst snd] in *.
    destruct Hc as [H0 | [H1 ->]].
    + exists k. split; [exact (kills_trans 0 k _ _ _ H0 Hk)|].
      destruct keep; simpl; lia.
    + exists (S k). split; [exact (kills_trans 1 k _ _ _ H1 Hk)|].
      simpl. lia.
Qed.

Lemma filterCollide_sublist (ps : list Projectile.t) (w : World) :
  exists keep : list bool,
    List.length keep = List.length ps /\
    fst (filterCollide ps w) =
    map fst (filter snd (combine ps keep)).
Proof.
  revert w. induction ps as [|p r IH]; intro w.
  - exists []. split; reflexivity.
  - cbn [filterCollide]. destruct (collide p w) as [k w1].
    destruct (IH w1) as (keep & L & E).
    destruct (filterCollide r w1) as [kept w2]. cbn [fst] in *.
    exists (k :: keep). split; [simpl; now rewrite L|].
    simpl. destruct k; simpl; now rewrite E.
Qed.

End AccountingFacts.

(** X12.  The books of a collision pass balance.  If the pass removes [k]
    enemies, then it consumes at least [k] projectiles, the score grows by
    at least [50 k] and at most [500 k], and at least [3 k] and at most
    [20 k] pickups appear; in particular the pass never adds an enemy,
    never lowers the score and never removes a pickup.  The projectiles
    kept are a selection of the old ones in their old order. *)
Theorem collision_pass_balances {M : JsMath} (w : World) :
  let w' := collisions w in
  exists (k : nat) (keep : list bool),
    (List.length (GameState.enemies (gs w')) + k =
     List.length (GameState.enemies (gs w)))%nat /\
    50 * Z.of_nat k <= GameState.score (gs w') - GameState.score (gs w) /\
    GameState.score (gs w') - GameState.score (gs w) <= 500 * Z.of_nat k /\
    (List.length (GameState.boltPickups (gs w)) + 3 * k <=
     List.length (GameState.boltPickups (gs w')))%nat /\
    (List.length (GameState.boltPickups (gs w')) <=
     List.length (GameState.boltPickups (gs w)) + 20 * k)%nat /\
    (List.length (GameState.projectiles (gs w')) + k <=
     List.length (GameState.projectiles (gs w)))%nat /\
    List.length keep = List.length (GameState.projectiles (gs w)) /\
    GameState.projectiles (gs w') =
    map fst (filter snd (combine (GameState.projectiles (gs w)) keep)).
Proof.
  cbv zeta. rewrite collisions_spec.
  destruct (filterCollide_kills (GameState.projectiles (gs w)) w)
    as (k & Hk & Hl).
  destruct (filterCollide_sublist (GameState.projectiles (gs w)) w)
    as (keep & Lk & Ek).
  exists k, keep.
  unfold kills, tally in Hk.
  cbn [gs upd GameState.enemies GameState.score GameState.boltPickups
       GameState.projectiles GameState.set_projectiles].
  generalize dependent (filterCollide (GameState.projectiles (gs w)) w).
  intros [kept [s' l' r']] (A & B & C & D & E) Hl Ek. cbn [fst snd gs] in *.
  destruct s'. cbn in *. repeat split; assumption.
Qed.

(** ** What every run keeps *)

Section InvariantFacts.
Context {M : JsMath}.

(** From "Update invincibility" to "Update enemies": only the timer, the
    enemies and the projectiles are written; the projectiles are the old
    ones that stay in the field, moved, and the volleys of the enemies. *)
Lemma preCollision_spec (w : World) :
  let w0 := updateEnemies (updateProjectiles (tickInvincible w)) in
  motionFrame w0 = motionFrame w /\
  (Forall regular (GameState.projectiles (gs w)) ->
   Forall regular (GameState.projectiles (gs w0))).
Proof.
  cbv zeta. rewrite updateEnemies_spec.
  unfold updateProjectiles, tickInvincible, motionFrame, upd.
  destruct (0 <? Player.invincible (GameState.player (gs w)));
    (split; [reflexivity|]); cbn; intro F; apply Forall_app; split;
    try (apply incl_Forall
           with (l1 := map moveProjectile (GameState.projectiles (gs w)));
         [intros q Hq; apply filter_In in Hq; tauto
         | apply Forall_map; eapply Forall_impl; [|exact F];
           intros q Hq; exact Hq]);
    apply Forall_flat_map, Forall_forall; intros e _;
    match goal with
    | |- Forall _ (snd (updateEnemy ?pl e)) =>
      destruct (updateEnemy_spec pl e) as (_ & _ & S); cbv zeta in S;
        eapply Forall_impl; [|exact S]
    end;
    intros p (_ & Hd & _) _; rewrite Hd; destruct (Enemy.type e); simpl; auto.
Qed.

(** The collision pass and the health: no change, or one regular hit. *)
Lemma collisions_health (w : World) :
  Forall regular (GameState.projectiles (gs w)) ->
  GameState.gameOver (gs w) = false ->
  let h := Player.health (GameState.player (gs w)) in
  let h' := Player.health (GameState.player (gs (collisions w))) in
  Forall regular (GameState.projectiles (gs (collisions w))) /\
  h - 15 <= h' <= h /\
  (GameState.gameOver (gs (collisions w)) = false -> 0 < h -> 0 < h').
Proof.
  intros F G. cbv zeta. rewrite collisions_spec.
  pose proof (filterCollide_player (GameState.projectiles (gs w)) w) as Pl.
  pose proof (filterCollide_kept regular (GameState.projectiles (gs w)) w F)
    as K.
  cbv zeta in Pl.
  cbn [gs upd GameState.player GameState.gameOver GameState.projectiles
       GameState.set_projectiles].
  generalize dependent (filterCollide (GameState.projectiles (gs w)) w).
  intros [kept [s' l' r']] Pl K. cbn [fst snd gs] in *.
  destruct s'. cbn in *. split; [exact K|].
  destruct Pl as [[-> ->] | (p & Hin & Hp & _ & _ & -> & ->)].
  - split; [lia | auto].
  - rewrite Forall_forall in F. cbn.
    destruct (F p Hin Hp) as [-> | ->]; (split; [lia|]);
      intros Hgo _;
      match type of Hgo with
      | (if ?c then _ else _) = _ => destruct c eqn:L
      end; try discriminate; apply Z.leb_gt in L; lia.
Qed.

(** The collision pass and the books. *)
Lemma collisions_books (w : World) :
  let s := gs w in
  let s' := gs (collisions w) in
  (GameState.weapons s', GameState.currentWeapon s', GameState.bolts s',
   GameState.totalBolts s', GameState.wave s',
   Player.maxHealth (GameState.player s')) =
  (GameState.weapons s, GameState.currentWeapon s, GameState.bolts s,
   GameState.totalBolts s, GameState.wave s,
   Player.maxHealth (GameState.player s)) /\
  GameState.score s <= GameState.score s'.
Proof.
  cbv zeta. split.
  - pose proof (collisions_frame w) as F.
    unfold collisionFrame in F. cbn [gs upd] in F.
    generalize dependent (collisions w). intros c F.
    destruct c as [[] ? ?]. cbn in F. cbn.
    injection F as -> -> _ -> -> -> _ _ _ _ _ _ _ _ ->. reflexivity.
  - destruct (filterCollide_kills (GameState.projectiles (gs w)) w)
      as (k & Hk & _).
    rewrite collisions_spec. unfold kills, tally in Hk.
    cbn [gs upd GameState.score GameState.set_projectiles].
    generalize dependent (filterCollide (GameState.projectiles (gs w)) w).
    intros [kept [s' l' r']] (_ & B & _). cbn [fst snd gs] in *.
    destruct s'. cbn in *. lia.
Qed.

(** A running tick keeps the books and the health in order. *)
Lemma gameLoop_steady (inp : Input) (w : World) :
  tidy w /\ hardy w ->
  exists w', gameLoop inp w = Some w' /\ tidy w' /\ hardy w'.
Proof.
  intros [T H].
  destruct (gated (gs w)) eqn:G.
  { exists w. unfold gameLoop. rewrite G. auto. }
  pose proof T as (Tl & Tc & Tw & Tb & Twv & Ts).
  pose proof H as (Hm & Hh & Hg & Hp). cbv zeta in *.
  assert (Go : GameState.gameOver (gs w) = false).
  { unfold gated in G. apply orb_false_iff in G. tauto. }
  destruct (nth_error (GameState.weapons (gs w))
                      (GameState.currentWeapon (gs w))) as [weapon|] eqn:Hw.
  2: { apply nth_error_None in Hw. lia. }
  unfold gameLoop. rewrite G. unfold simulate.
  destruct (shootStep_frame inp (movePlayer inp w) weapon Hw)
    as (a & shots & ps & l & r & E & Sh).
  rewrite E. clear E. cbv beta iota.
  match goal with
  | |- context [tickInvincible ?c] => set (w1 := c)
  end.
  assert (K1 : motionFrame w1 = motionFrame w) by reflexivity.
  assert (P1 : Forall regular (GameState.projectiles (gs w1))).
  { subst w1. cbn. apply Forall_app. split; [exact Hp|].
    eapply Forall_impl; [|exact Sh]. intros p Hf Ht. congruence. }
  clearbody w1.
  destruct (preCollision_spec w1) as (K0 & P0). cbv zeta in K0, P0.
  specialize (P0 P1). rewrite K1 in K0. clear K1 P1.
  generalize dependent (updateEnemies (updateProjectiles (tickInvincible w1))).
  intros w0 K0 P0.
  unfold motionFrame in K0. cbn [gs] in K0.
  injection K0 as Kw Kc Kb Kt Kv _ _ Kg _ Ks Kh Km.
  destruct (collisions_health w0 P0) as (Pc & Hc & Gc);
    [congruence|]. cbv zeta in Hc, Gc.
  destruct (collisions_books w0) as (Bc & Sc). cbv zeta in Bc, Sc.
  generalize dependent (collisions w0). intros wc Pc Hc Gc Bc Sc.
  injection Bc as Bw Bcw Bb Bt Bv Bm.
  assert (Hwc : nth_error (GameState.weapons (gs wc))
                          (GameState.currentWeapon (gs wc)) = Some weapon)
    by (rewrite Bw, Bcw, Kw, Kc; exact Hw).
  destruct (afterCollisions_spec wc weapon Hwc)
    as (w3 & spawned & ps' & r' & _ & Ea & _ & _ & _ & Ef).
  cbv zeta in Ef.
  exists (updateParticles (waveProgression w3)). split; [exact Ea|].
  rewrite Ef. clear Ef Ea. unfold tidy, hardy.
  cbn [gs GameState.weapons GameState.currentWeapon GameState.bolts
       GameState.totalBolts GameState.wave GameState.score
       GameState.gameOver GameState.player GameState.projectiles
       GameState.set_particles GameState.set_enemies GameState.set_wave
       GameState.set_ammo GameState.set_boltPickups GameState.set_totalBolts
       GameState.set_bolts].
  rewrite Bw, Bcw, Bb, Bt, Bv, Bm, Kw, Kc, Kb, Kt, Kv, Km.
  rewrite Ks in Sc. rewrite Kh in Hc, Gc.
  set (n := Z.of_nat (List.length
                        (reachable (GameState.player (gs wc))
                                   (GameState.boltPickups (gs wc))))).
  assert (0 <= n) by (subst n; lia).
  pose proof (Hg Go) as Hpos.
  split.
  - repeat split; try assumption; try lia.
    destruct (GameState.enemies (gs wc)); lia.
  - repeat split; try assumption; try lia.
    intro Hgo. now apply Gc.
Qed.

End InvariantFacts.

Section RunInvariants.
Context {M : JsMath}.

Lemma steady_fresh (started : bool) (l : Z) (r : nat) :
  tidy (mkWorld (freshState started) l r) /\
  hardy (mkWorld (freshState started) l r).
Proof.
  split.
  - unfold tidy. cbn. repeat split; try lia.
    repeat constructor; cbn; lia.
  - unfold hardy. cbn. repeat split; try lia. constructor.
Qed.

Lemma steady_spawnWave (wave : Z) (w : World) :
  tidy w /\ hardy w -> tidy (spawnWave wave w) /\ hardy (spawnWave wave w).
Proof.
  destruct (spawnWave_frame wave w) as (es & r & _ & E). rewrite E.
  intros [T H]. split; [exact T | exact H].
Qed.

Lemma handle_steady (ev : Event) (w : World) :
  tidy w /\ hardy w -> inRoster ev ->
  exists w', handle ev w = Some w' /\ tidy w' /\ hardy w'.
Proof.
  intros [T H] Hev.
  destruct ev as [inp | index | index | | |]; cbn [handle inRoster] in *.
  - now apply gameLoop_steady.
  - pose proof T as (Tl & Tc & Tw & Tb & Twv & Ts). cbv zeta in *.
    unfold selectWeapon.
    destruct (nth_error (GameState.weapons (gs w)) index) as [wp|] eqn:Hn.
    2: { apply nth_error_None in Hn. lia. }
    eexists. split; [reflexivity|]. split; [|exact H].
    unfold tidy. cbn. repeat split; assumption || lia.
  - pose proof T as (Tl & Tc & Tw & Tb & Twv & Ts). cbv zeta in *.
    unfold upgradeWeapon.
    destruct (nth_error (GameState.weapons (gs w)) index) as [wp|] eqn:Hn.
    2: { apply nth_error_None in Hn. lia. }
    destruct ((Weapon.upgradeCost wp <=? GameState.bolts (gs w))
              && (Weapon.level wp <? 5)) eqn:C;
      [|exists w; auto].
    apply andb_true_iff in C. destruct C as [C1 C2].
    apply Z.leb_le in C1. apply Z.ltb_lt in C2.
    pose proof Tw as Tw'. rewrite Forall_forall in Tw'.
    destruct (Tw' wp (nth_error_In _ _ Hn)) as [Hl Hc].
    eexists. split; [reflexivity|]. split; [|exact H].
    unfold tidy. cbn. rewrite setAt_length.
    repeat split; try assumption; try lia.
    apply Forall_setAt; [exact Tw|]. cbn.
    split; [lia|].
    apply Z.le_trans with (Weapon.upgradeCost wp); [exact Hc|].
    apply Qfloor_grow; [exact Hc | unfold Qle; cbn; lia].
  - eexists. split; [reflexivity|]. split; [exact T | exact H].
  - eexists. split; [reflexivity|]. unfold startGame.
    apply steady_spawnWave. split; [exact T | exact H].
  - eexists. split; [reflexivity|]. unfold resetGame.
    apply steady_spawnWave. apply steady_fresh.
Qed.

Lemma play_steady (evs : list Event) (w : World) :
  tidy w /\ hardy w -> Forall inRoster evs ->
  exists w', play evs w = Some w' /\ tidy w' /\ hardy w'.
Proof.
  revert w. induction evs as [|ev r IH]; intros w TH F.
  - exists w. split; [reflexivity | exact TH].
  - inversion F as [|? ? Hev Hr]; subst.
    destruct (handle_steady ev w TH Hev) as (w1 & E & TH1).
    destruct (IH w1 TH1 Hr) as (w' & E' & TH').
    exists w'. cbn [play]. rewrite E. split; [exact E' | exact TH'].
Qed.

End RunInvariants.

(** X13.  No run throws, and every run keeps the books in order.  Whatever
    the player does from the initial state (frames with any inputs, weapon
    keys and slot clicks and upgrade clicks on the four slots, pause,
    start, retry), every handler completes, and in the world reached the
    roster has its four weapons, the active slot is one of them, every
    weapon level lies in 1..5, the bolt balance lies between 0 and the
    lifetime total, the wave number is at least 1 and the score is not
    negative. *)
Theorem run_keeps_books {M : JsMath} (evs : list Event) :
  Forall inRoster evs ->
  exists w,
    play evs initialWorld = Some w /\
    List.length (GameState.weapons (gs w)) = 4%nat /\
    (GameState.currentWeapon (gs w) < 4)%nat /\
    Forall (fun wp => 1 <= Weapon.level wp <= 5) (GameState.weapons (gs w)) /\
    0 <= GameState.bolts (gs w) <= GameState.totalBolts (gs w) /\
    1 <= GameState.wave (gs w) /\
    0 <= GameState.score (gs w).
Proof.
  intro F.
  destruct (play_steady evs initialWorld (steady_fresh false 0 0%nat) F)
    as (w & E & (Tl & Tc & Tw & Tb & Twv & Ts) & _).
  exists w. split; [exact E|]. repeat split; try assumption; try lia.
  eapply Forall_impl; [|exact Tw]. now intros wp [Hl _].
Qed.

(** X14.  Along every run the stored health stays above -15 and at most
    100 (the maximal health, which never changes), and it is positive as
    long as the game is not over: the tick that brings it to 0 or below
    also raises the game-over flag. *)
Theorem run_health_floor {M : JsMath} (evs : list Event) :
  Forall inRoster evs ->
  exists w,
    play evs initialWorld = Some w /\
    let pl := GameState.player (gs w) in
    Player.maxHealth pl = 100 /\
    -15 < Player.health pl <= 100 /\
    (Player.health pl <= 0 -> GameState.gameOver (gs w) = true).
Proof.
  intro F.
  destruct (play_steady evs initialWorld (steady_fresh false 0 0%nat) F)
    as (w & E & _ & (Hm & Hh & Hg & _)).
  exists w. split; [exact E|]. cbv zeta in *.
  split; [exact Hm|]. split; [exact Hh|].
  intro Hle. destruct (GameState.gameOver (gs w)); [reflexivity|].
  specialize (Hg eq_refl). lia.
Qed.

Lemma sampleRun_inRoster : Forall inRoster sampleRun.
Proof. unfold sampleRun. repeat constructor. Defined.

Lemma run_keeps_books_witness :
  Forall inRoster sampleRun /\
  exists w,
    play (M := exampleMath) sampleRun initialWorld = Some w /\
    List.length (GameState.weapons (gs w)) = 4%nat /\
    0 <= GameState.bolts (gs w) <= GameState.totalBolts (gs w).
Proof.
  split; [exact sampleRun_inRoster|].
  destruct (run_keeps_books (M := exampleMath) sampleRun sampleRun_inRoster)
    as (w & E & L & _ & _ & B & _).
  exists w. repeat split; assumption || lia.
Defined.

Lemma run_health_floor_witness :
  Forall inRoster sampleRun /\
  exists w,
    play (M := exampleMath) sampleRun initialWorld = Some w /\
    -15 < Player.health (GameState.player (gs w)) <= 100.
Proof.
  split; [exact sampleRun_inRoster|].
  destruct (run_health_floor (M := exampleMath) sampleRun sampleRun_inRoster)
    as (w & E & _ & H & _).
  exists w. split; assumption.
Defined.

(** ** What an upgrade buys *)

Lemma Qfloor_grow_strict (a : Z) (q : Q) :
  (inject_Z a + 1 <= inject_Z a * q)%Q -> a < Qfloor (inject_Z a * q).
Proof.
  intro H.
  assert (L : Qfloor (inject_Z (a + 1)) <= Qfloor (inject_Z a * q)).
  { apply Qfloor_resp_le. rewrite inject_Z_plus.
    change (inject_Z 1) with 1%Q. exact H. }
  rewrite Qfloor_Z in L. lia.
Qed.

(** X15.  A successful upgrade never weakens a weapon.  For a weapon with
    damage and level at least 1, after [upgradeWeapon] succeeds the damage
    of its projectiles ([damage * level]) is strictly larger, its ammo
    capacity is not smaller, and, when the price was at least 2, the next
    price is strictly higher; the balance drops by the price paid. *)
Theorem upgrade_strengthens (index : nat) (w : World) (wp : Weapon.t) :
  nth_error (GameState.weapons (gs w)) index = Some wp ->
  Weapon.upgradeCost wp <= GameState.bolts (gs w) ->
  Weapon.level wp < 5 ->
  1 <= Weapon.damage wp -> 1 <= Weapon.level wp ->
  0 <= Weapon.ammoMax wp ->
  exists w' wp',
    upgradeWeapon index w = Some w' /\
    nth_error (GameState.weapons (gs w')) index = Some wp' /\
    Weapon.damage wp * Weapon.level wp < Weapon.damage wp' * Weapon.level wp' /\
    Weapon.ammoMax wp <= Weapon.ammoMax wp' /\
    (2 <= Weapon.upgradeCost wp ->
     Weapon.upgradeCost wp < Weapon.upgradeCost wp') /\
    GameState.bolts (gs w') = GameState.bolts (gs w) - Weapon.upgradeCost wp.
Proof.
  intros Hn Hb Hl Hd Hlv Ha. unfold upgradeWeapon. rewrite Hn.
  apply Z.leb_le in Hb. apply Z.ltb_lt in Hl. rewrite Hb, Hl. cbn [andb].
  eexists _, _. split; [reflexivity|].
  cbn [gs upd GameState.weapons GameState.bolts GameState.set_weapons
       GameState.set_bolts].
  split; [eapply setAt_same; exact Hn|].
  cbn [Weapon.damage Weapon.level Weapon.ammoMax Weapon.upgradeCost].
  assert (Gd : Weapon.damage wp <= Qfloor (inject_Z (Weapon.damage wp) * 1.3))
    by (apply Qfloor_grow; [lia | unfold Qle; cbn; lia]).
  split; [nia|].
  split; [apply Qfloor_grow; [exact Ha | unfold Qle; cbn; lia]|].
  split; [|reflexivity].
  intro Hc. apply Qfloor_grow_strict.
  assert (2 <= inject_Z (Weapon.upgradeCost wp))%Q
    by (change 2%Q with (inject_Z 2); now rewrite <- Zle_Qle).
  lra.
Qed.

(** The first upgrade of the Blaster: shown damage from 10 to 26, capacity
    from 100 to 120, price from 50 to 90. *)
Lemma upgrade_strengthens_witness :
  nth_error (GameState.weapons (gs richWorld)) 0 = Some blaster /\
  Weapon.upgradeCost blaster <= GameState.bolts (gs richWorld) /\
  exists w' wp',
    upgradeWeapon 0 richWorld = Some w' /\
    nth_error (GameState.weapons (gs w')) 0 = Some wp' /\
    Weapon.damage blaster * Weapon.level blaster
      < Weapon.damage wp' * Weapon.level wp' /\
    Weapon.upgradeCost blaster < Weapon.upgradeCost wp'.
Proof.
  split; [reflexivity|]. split; [cbn; lia|].
  destruct (upgrade_strengthens 0%nat richWorld blaster eq_refl)
    as (w' & wp' & E & Hn & Hd & _ & Hc & _); try (cbn; lia).
  exists w', wp'. repeat split; try assumption. apply Hc. cbn. lia.
Defined.

(** ** Particle lifetimes *)

Section ParticleFacts.
Context {M : JsMath}.

(** A burst: [count] particles at the given point, each with a life of at
    least 30 and at most 50 frames. *)
Lemma spawnParticles_lives (x y : Q) (c : string) (count : nat) (sp : Q)
  (w : World) :
  (forall i, 0 <= random i /\ random i < 1)%Q ->
  exists ps,
    List.length ps = count /\
    Forall (fun p => (30 <= Particle.life p)%Q /\ (Particle.life p <= 50)%Q /\
                     Particle.x p = x /\ Particle.y p = y) ps /\
    spawnParticles x y c count sp w =
    mkWorld (GameState.set_particles (GameState.particles (gs w) ++ ps) (gs w))
            (lastShot w) (rng w + 4 * count).
Proof.
  intro Hr. revert w. induction count as [|n IH]; intro w.
  - exists []. split; [reflexivity|]. split; [constructor|].
    change (spawnParticles x y c 0 sp w) with w.
    rewrite app_nil_r, set_particles_eta, Nat.mul_0_r, Nat.add_0_r.
    symmetry. apply world_eta.
  - change (spawnParticles x y c (S n) sp w)
      with (spawnParticles x y c n sp (pushParticle x y c sp w)).
    destruct (IH (pushParticle x y c sp w)) as (ps & L & F & E).
    rewrite E. unfold pushParticle, Math_random, upd.
    cbn [gs lastShot rng GameState.particles GameState.set_particles].
    eexists (_ :: ps). split; [simpl; now rewrite L|].
    split.
    2: { rewrite <- app_assoc. cbn [app].
         apply mkWorld_eq; [reflexivity | reflexivity | lia]. }
    constructor; [|exact F]. cbn.
    destruct (Hr (S (S (rng w)))) as [R0 R1].
    repeat split; lra.
Qed.

(** Particles whose life is at most [n + 1] are all gone after [n + 1]
    runs of "Update particles". *)
Lemma updateParticles_ages (n : nat) (w : World) :
  Forall (fun p => (Particle.life p <= inject_Z (Z.of_nat (S n)))%Q)
         (GameState.particles (gs w)) ->
  GameState.particles (gs (Nat.iter (S n) updateParticles w)) = [].
Proof.
  revert w. induction n as [|n IH]; intros w F.
  - cbn [Nat.iter nat_rect]. unfold updateParticles.
    cbn [gs upd GameState.particles GameState.set_particles].
    induction F as [|p r Hp _ IHr]; [reflexivity|].
    cbn [map filter]. unfold moveParticle at 1. cbn [Particle.life].
    replace (Qltb 0 (Particle.life p - 1)) with false; [exact IHr|].
    symmetry. apply Qltb_ge. change (inject_Z (Z.of_nat 1)) with 1%Q in Hp.
    lra.
  - rewrite Nat.iter_succ_r. apply IH.
    unfold updateParticles.
    cbn [gs upd GameState.particles GameState.set_particles].
    apply incl_Forall
      with (l1 := map moveParticle (GameState.particles (gs w))).
    { intros q Hq. apply filter_In in Hq. tauto. }
    apply Forall_map. eapply Forall_impl; [|exact F].
    intros p Hp.
    rewrite Nat2Z.inj_succ, <- Z.add_1_r, inject_Z_plus in Hp.
    change (inject_Z 1) with 1%Q in Hp.
    unfold moveParticle. cbn [Particle.life]. lra.
Qed.

End ParticleFacts.

(** X16.  Particles are short-lived.  A burst of [spawnParticles] adds
    exactly [count] particles at the given point, each with a life of at
    least 30 and at most 50 frames (the life is [30 + r * 20] for a random
    number [0 <= r < 1]), and writes nothing else but the random cursor;
    and if no older particle had more than 50 frames left, then after 50
    runs of "Update particles" the particle collection is empty. *)
Theorem particles_expire {M : JsMath} (x y : Q) (c : string) (count : nat)
  (sp : Q) (w : World) :
  (forall i, 0 <= random i /\ random i < 1)%Q ->
  Forall (fun p => (Particle.life p <= 50)%Q) (GameState.particles (gs w)) ->
  let w1 := spawnParticles x y c count sp w in
  exists ps,
    List.length ps = count /\
    Forall (fun p => (30 <= Particle.life p)%Q /\ (Particle.life p <= 50)%Q /\
                     Particle.x p = x /\ Particle.y p = y) ps /\
    w1 = mkWorld (GameState.set_particles
                    (GameState.particles (gs w) ++ ps) (gs w))
                 (lastShot w) (rng w + 4 * count) /\
    GameState.particles (gs (Nat.iter 50 updateParticles w1)) = [].
Proof.
  intros Hr Hold. cbv zeta.
  destruct (spawnParticles_lives x y c count sp w Hr) as (ps & L & F & E).
  exists ps. split; [exact L|]. split; [exact F|]. split; [exact E|].
  rewrite E. apply (updateParticles_ages 49).
  cbn [gs GameState.particles GameState.set_particles].
  change (inject_Z (Z.of_nat 50)) with 50%Q.
  apply Forall_app. split; [exact Hold|].
  eapply Forall_impl; [|exact F]. intros p (_ & H & _). lra.
Qed.

(** The burst of 15 particles of a hit on the player is gone 50 frames
    later. *)
Lemma particles_expire_witness :
  (forall i, 0 <= random (JsMath := exampleMath) i /\
             random (JsMath := exampleMath) i < 1)%Q /\
  Forall (fun p => (Particle.life p <= 50)%Q)
         (GameState.particles (gs runningWorld)) /\
  GameState.particles
    (gs (Nat.iter 50 updateParticles
           (spawnParticles (M := exampleMath) 600 350 "#ff3366" 15 3
                           runningWorld))) = [].
Proof.
  assert (Hr : (forall i, 0 <= random (JsMath := exampleMath) i /\
                          random (JsMath := exampleMath) i < 1)%Q)
    by (intro i; cbn; split; [apply Qle_refl | reflexivity]).
  split; [exact Hr|]. split; [constructor|].
  destruct (particles_expire (M := exampleMath) 600 350 "#ff3366" 15 3
              runningWorld Hr (Forall_nil _)) as (ps & _ & _ & _ & H).
  exact H.
Defined.

(** ** Where and how enemies enter *)

Section EntryFacts.
Context {M : JsMath}.

Lemma spawnLoop_Forall (P : Enemy.t -> Prop) (wave : Z) :
  (forall w, exists e r,
     P e /\
     spawnOne wave w =
     mkWorld (GameState.set_enemies (GameState.enemies (gs w) ++ [e]) (gs w))
             (lastShot w) r) ->
  forall count w, exists es r,
    List.length es = count /\ Forall P es /\
    spawnLoop count wave w =
    mkWorld (GameState.set_enemies (GameState.enemies (gs w) ++ es) (gs w))
            (lastShot w) r.
Proof.
  intros Hone count. induction count as [|n IH]; intro w.
  - exists [], (rng w). split; [reflexivity|]. split; [constructor|].
    change (spawnLoop 0 wave w) with w.
    rewrite app_nil_r, set_enemies_eta. symmetry. apply world_eta.
  - change (spawnLoop (S n) wave w) with (spawnLoop n wave (spawnOne wave w)).
    destruct (Hone w) as (e & r1 & He & E1). rewrite E1.
    destruct (IH (mkWorld (GameState.set_enemies
                             (GameState.enemies (gs w) ++ [e]) (gs w))
                          (lastShot w) r1)) as (es & r & L & F & E).
    rewrite E. exists (e :: es), r.
    split; [simpl; now rewrite L|]. split; [now constructor|].
    cbn [gs lastShot GameState.enemies GameState.set_enemies].
    rewrite <- app_assoc. reflexivity.
Qed.

Lemma spawnOne_entry (wave : Z) (w : World) :
  (forall i, 0 <= random i /\ random i < 1)%Q ->
  exists e r,
    (onEntryFrame e /\
     (0 <= Enemy.shootCooldown e)%Q /\ (Enemy.shootCooldown e < 60)%Q /\
     Enemy.angle e = 0%Q /\ Enemy.health e = Enemy.maxHealth e /\
     Enemy.type e <> boss) /\
    spawnOne wave w =
    mkWorld (GameState.set_enemies (GameState.enemies (gs w) ++ [e]) (gs w))
            (lastShot w) r.
Proof.
  intro Hr. unfold spawnOne, Math_random. cbv beta iota zeta.
  cbn [gs lastShot rng].
  destruct (Hr (S (rng w))) as [A0 A1].
  assert (Hside :
    forall x y,
      (if Qfloor (random (rng w) * 4) =? 0
       then ((random (S (rng w)) * inject_Z CANVAS_WIDTH)%Q, (-50)%Q)
       else if Qfloor (random (rng w) * 4) =? 1
            then (inject_Z (CANVAS_WIDTH + 50),
                  (random (S (rng w)) * inject_Z CANVAS_HEIGHT)%Q)
            else if Qfloor (random (rng w) * 4) =? 2
                 then ((random (S (rng w)) * inject_Z CANVAS_WIDTH)%Q,
                       inject_Z (CANVAS_HEIGHT + 50))
                 else ((-50)%Q,
                       (random (S (rng w)) * inject_Z CANVAS_HEIGHT)%Q))
      = (x, y) ->
      ((y == -50)%Q /\ (0 <= x)%Q /\ (x < 1200)%Q) \/
      ((x == 1250)%Q /\ (0 <= y)%Q /\ (y < 700)%Q) \/
      ((y == 750)%Q /\ (0 <= x)%Q /\ (x < 1200)%Q) \/
      ((x == -50)%Q /\ (0 <= y)%Q /\ (y < 700)%Q)).
  { intros x y.
    change (inject_Z CANVAS_WIDTH) with 1200%Q.
    change (inject_Z CANVAS_HEIGHT) with 700%Q.
    change (inject_Z (CANVAS_WIDTH + 50)) with 1250%Q.
    change (inject_Z (CANVAS_HEIGHT + 50)) with 750%Q.
    destruct (_ =? 0); [|destruct (_ =? 1); [|destruct (_ =? 2)]];
      intro E; injection E as <- <-.
    - left. split; [lra | split; lra].
    - right. left. split; [lra | split; lra].
    - right. right. left. split; [lra | split; lra].
    - right. right. right. split; [lra | split; lra]. }
  match goal with
  | |- context [let '(_, _) := ?c in _] =>
    destruct c as [x y] eqn:Exy
  end.
  specialize (Hside x y eq_refl). clear Exy.
  destruct (3 <? wave).
  - destruct (Hr (S (S (S (rng w))))) as [B0 B1].
    cbn [gs lastShot rng]. unfold pushEnemy, upd. do 2 eexists.
    split; [|reflexivity]. cbn.
    split; [exact Hside|]. split; [lra|]. split; [lra|].
    split; [reflexivity|]. split; [reflexivity|].
    destruct (Qltb _ 0.2); discriminate.
  - destruct (Hr (S (S (rng w)))) as [B0 B1].
    unfold pushEnemy, upd. do 2 eexists.
    split; [|reflexivity]. cbn.
    split; [exact Hside|]. split; [lra|]. split; [lra|].
    split; [reflexivity|]. split; [reflexivity | discriminate].
Qed.

End EntryFacts.

(** X17.  Enemies enter from outside the field.  Every enemy [spawnWave]
    appends is at full health and faces angle 0; a non-boss enemy waits
    exactly 50 units outside one of the four edges, anywhere along it,
    with a first fire cooldown of at least 0 and less than 60 frames; the
    boss, if any, waits at [(600, -100)] and fires at once. *)
Theorem spawnWave_entry {M : JsMath} (wave : Z) (w : World) :
  (forall i, 0 <= random i /\ random i < 1)%Q ->
  exists es r,
    spawnWave wave w =
    mkWorld (GameState.set_enemies (GameState.enemies (gs w) ++ es) (gs w))
            (lastShot w) r /\
    Forall (fun e =>
              Enemy.health e = Enemy.maxHealth e /\ Enemy.angle e = 0%Q /\
              match Enemy.type e with
              | boss => (Enemy.x e == 600)%Q /\ (Enemy.y e == -100)%Q /\
                        (Enemy.shootCooldown e == 0)%Q
              | _ => onEntryFrame e /\
                     (0 <= Enemy.shootCooldown e)%Q /\
                     (Enemy.shootCooldown e < 60)%Q
              end) es.
Proof.
  intro Hr. unfold spawnWave.
  destruct (spawnLoop_Forall _ wave (fun w0 => spawnOne_entry wave w0 Hr)
                             (Z.to_nat (3 + wave * 2)) w)
    as (es & r & _ & F & E).
  rewrite E.
  assert (F' : Forall (fun e =>
              Enemy.health e = Enemy.maxHealth e /\ Enemy.angle e = 0%Q /\
              match Enemy.type e with
              | boss => (Enemy.x e == 600)%Q /\ (Enemy.y e == -100)%Q /\
                        (Enemy.shootCooldown e == 0)%Q
              | _ => onEntryFrame e /\
                     (0 <= Enemy.shootCooldown e)%Q /\
                     (Enemy.shootCooldown e < 60)%Q
              end) es).
  { eapply Forall_impl; [|exact F].
    intros e (Hf & C0 & C1 & Ha & Hh & Hb).
    split; [exact Hh|]. split; [exact Ha|].
    destruct (Enemy.type e); [tauto | tauto | congruence]. }
  destruct (wave mod 5 =? 0).
  - exists (es ++ [spawnBoss wave]), r. split.
    + unfold pushEnemy, upd.
      cbn [gs lastShot rng GameState.enemies GameState.set_enemies].
      rewrite <- app_assoc. reflexivity.
    + apply Forall_app. split; [exact F'|].
      constructor; [|constructor]. unfold spawnBoss. cbn.
      repeat split; reflexivity.
  - exists es, r. split; [reflexivity | exact F'].
Qed.

(** Wave 5 from the example random stream. *)
Lemma spawnWave_entry_witness :
  (forall i, 0 <= random (JsMath := exampleMath) i /\
             random (JsMath := exampleMath) i < 1)%Q /\
  exists es r,
    spawnWave (M := exampleMath) 5 runningWorld =
    mkWorld (GameState.set_enemies
               (GameState.enemies (gs runningWorld) ++ es) (gs runningWorld))
            (lastShot runningWorld) r /\
    Forall (fun e => Enemy.health e = Enemy.maxHealth e) es.
Proof.
  assert (Hr : (forall i, 0 <= random (JsMath := exampleMath) i /\
                          random (JsMath := exampleMath) i < 1)%Q)
    by (intro i; cbn; split; [apply Qle_refl | reflexivity]).
  split; [exact Hr|].
  destruct (spawnWave_entry (M := exampleMath) 5 runningWorld Hr)
    as (es & r & E & F).
  exists es, r. split; [exact E|].
  eapply Forall_impl; [|exact F]. now intros e [H _].
Defined.

(** ** The collision pass inside a tick *)

Section PassFacts.
Context {M : JsMath}.

(** The [filter] of the collision pass visits the projectiles in order,
    each in the world the earlier ones have left. *)
Lemma filterCollide_app (ps qs : list Projectile.t) (w : World) :
  filterCollide (ps ++ qs) w =
  (fst (filterCollide ps w)
   ++ fst (filterCollide qs (snd (filterCollide ps w))),
   snd (filterCollide qs (snd (filterCollide ps w)))).
Proof.
  revert w. induction ps as [|p r IH]; intro w.
  - cbn [app filterCollide fst snd]. now destruct (filterCollide qs w).
  - cbn [app filterCollide]. destruct (collide p w) as [k w1].
    rewrite IH. destruct (filterCollide r w1) as [kept w2].
    cbn [fst snd]. now destruct k.
Qed.

(** The pass around one projectile [p] of the collection. *)
Lemma collisions_split (w : World) (before rest : list Projectile.t)
  (p : Projectile.t) :
  GameState.projectiles (gs w) = before ++ p :: rest ->
  let wp := snd (filterCollide before w) in
  collisions w =
  upd (GameState.set_projectiles
         (fst (filterCollide before w)
          ++ (if fst (collide p wp) then [p] else [])
          ++ fst (filterCollide rest (snd (collide p wp)))))
      (snd (filterCollide rest (snd (collide p wp)))).
Proof.
  intro H. cbv zeta. rewrite collisions_spec, H, filterCollide_app.
  cbn [fst snd filterCollide].
  destruct (collide p (snd (filterCollide before w))) as [k w1].
  cbn [fst snd].
  destruct (filterCollide rest w1) as [kept w2]. cbn [fst snd].
  now destruct k.
Qed.

(** Enemy projectiles leave the enemies, the score and the pickups alone. *)
Lemma filterCollide_enemy_only (ps : list Projectile.t) (w : World) :
  Forall (fun q => Projectile.isEnemy q = true) ps ->
  let w' := snd (filterCollide ps w) in
  GameState.enemies (gs w') = GameState.enemies (gs w) /\
  GameState.score (gs w') = GameState.score (gs w) /\
  GameState.boltPickups (gs w') = GameState.boltPickups (gs w).
Proof.
  cbv zeta. revert w. induction ps as [|p r IH]; intros w F.
  - repeat split; reflexivity.
  - inversion F as [|? ? Hp Fr]; subst. cbn [filterCollide].
    assert (Hc : GameState.enemies (gs (snd (collide p w)))
                 = GameState.enemies (gs w) /\
                 GameState.score (gs (snd (collide p w)))
                 = GameState.score (gs w) /\
                 GameState.boltPickups (gs (snd (collide p w)))
                 = GameState.boltPickups (gs w)).
    { destruct (touchesPlayer p (GameState.player (gs w))) eqn:Ht;
        [|rewrite collide_miss by assumption; repeat split; reflexivity].
      destruct (Z_lt_le_dec 0 (Player.invincible (GameState.player (gs w))))
        as [Hi|Hi];
        [rewrite collide_invincible by assumption; repeat split; reflexivity|].
      destruct (collide_hit p w Hp Ht Hi) as (ps0 & E). cbv zeta in E.
      rewrite E. repeat split; reflexivity. }
    destruct (collide p w) as [k w1]. cbn [snd] in Hc.
    specialize (IH w1 Fr). destruct (filterCollide r w1) as [kept w2].
    cbn [snd] in *. destruct Hc as (A & B & C), IH as (A' & B' & C').
    repeat split; congruence.
Qed.

(** A running tick, unfolded up to the collision pass. *)
Lemma gameLoop_unfold (inp : Input) (w w1 : World) :
  gated (gs w) = false ->
  shootStep inp (movePlayer inp w) = Some w1 ->
  simulate inp w = Some (collisions (beforeCollisions w1)) /\
  gameLoop inp w = afterCollisions (collisions (beforeCollisions w1)).
Proof.
  intros G E. unfold gameLoop, simulate. rewrite G, E. split; reflexivity.
Qed.

(** The world entering the collision pass: the player as "Update player
    movement" left it with the timer counted down, the roster and the
    game-over flag as they were. *)
Lemma beforeCollisions_spec (inp : Input) (w w1 : World) (weapon : Weapon.t) :
  nth_error (GameState.weapons (gs w)) (GameState.currentWeapon (gs w)) =
    Some weapon ->
  shootStep inp (movePlayer inp w) = Some w1 ->
  let w0 := beforeCollisions w1 in
  let pl := GameState.player (gs w0) in
  nth_error (GameState.weapons (gs w0)) (GameState.currentWeapon (gs w0)) =
    Some weapon /\
  Player.health pl = Player.health (GameState.player (gs w)) /\
  Player.invincible pl =
    (let i := Player.invincible (GameState.player (gs w)) in
     if 0 <? i then i - 1 else i) /\
  GameState.gameOver (gs w0) = GameState.gameOver (gs w).
Proof.
  intros Hw E. cbv zeta.
  destruct (shootStep_keeps inp (movePlayer inp w) weapon Hw) as (w1' & E' & K).
  rewrite E in E'. injection E' as <-.
  unfold shotFrame in K. cbn [gs] in K.
  injection K as Kp Kw Kc _ _ _ _ _ _ Kg _ _.
  assert (Hpl : Player.health (GameState.player (gs w1))
                = Player.health (GameState.player (gs w)) /\
                Player.invincible (GameState.player (gs w1))
                = Player.invincible (GameState.player (gs w)))
    by (rewrite Kp; split; reflexivity).
  destruct Hpl as [Hh Hi]. rewrite <- Hh, <- Hi.
  change (GameState.weapons (gs (movePlayer inp w)))
    with (GameState.weapons (gs w)) in Kw.
  change (GameState.currentWeapon (gs (movePlayer inp w)))
    with (GameState.currentWeapon (gs w)) in Kc.
  change (GameState.gameOver (gs (movePlayer inp w)))
    with (GameState.gameOver (gs w)) in Kg.
  rewrite <- Kw, <- Kc, <- Kg in *. clear Kp Kw Kc Kg Hh Hi E.
  unfold beforeCollisions. rewrite updateEnemies_spec.
  unfold updateProjectiles, tickInvincible, upd.
  destruct (0 <? Player.invincible (GameState.player (gs w1)));
    cbn [gs GameState.player GameState.weapons GameState.currentWeapon
         GameState.gameOver GameState.set_player GameState.set_enemies
         GameState.set_projectiles Player.health Player.invincible
         Player.set_invincible];
    repeat split; exact Hw.
Qed.

(** The end of a running tick: what the steps after the collision pass
    keep. *)
Lemma tick_end (inp : Input) (w w1 : World) (weapon : Weapon.t) :
  gated (gs w) = false ->
  nth_error (GameState.weapons (gs w)) (GameState.currentWeapon (gs w)) =
    Some weapon ->
  shootStep inp (movePlayer inp w) = Some w1 ->
  let wc := collisions (beforeCollisions w1) in
  exists wf,
    gameLoop inp w = Some wf /\
    nth_error (GameState.weapons (gs wf)) (GameState.currentWeapon (gs wf)) =
      Some weapon /\
    GameState.player (gs wf) = GameState.player (gs wc) /\
    GameState.gameOver (gs wf) = GameState.gameOver (gs wc) /\
    GameState.projectiles (gs wf) = GameState.projectiles (gs wc) /\
    GameState.score (gs wf) = GameState.score (gs wc) /\
    (GameState.enemies (gs wc) <> [] ->
     GameState.enemies (gs wf) = GameState.enemies (gs wc)).
Proof.
  intros G Hw E. cbv zeta.
  destruct (gameLoop_unfold inp w w1 G E) as [_ Eg].
  destruct (beforeCollisions_spec inp w w1 weapon Hw E) as (Hw0 & _).
  cbv zeta in Hw0.
  destruct (collisions_pose (beforeCollisions w1)) as (Cw & Cc & _).
  assert (Hwc : nth_error
                  (GameState.weapons (gs (collisions (beforeCollisions w1))))
                  (GameState.currentWeapon
                     (gs (collisions (beforeCollisions w1)))) = Some weapon)
    by (rewrite Cw, Cc; exact Hw0).
  generalize dependent (collisions (beforeCollisions w1)).
  intros wc Eg _ _ Hwc.
  destruct (afterCollisions_spec wc weapon Hwc)
    as (w3 & spawned & ps & r & _ & Ea & _ & _ & _ & Ef).
  eexists. split; [rewrite Eg; exact Ea|].
  rewrite Ef.
  cbn [gs GameState.weapons GameState.currentWeapon GameState.player
       GameState.gameOver GameState.projectiles GameState.score
       GameState.enemies GameState.set_particles GameState.set_enemies
       GameState.set_wave GameState.set_ammo GameState.set_boltPickups
       GameState.set_totalBolts GameState.set_bolts].
  split; [exact Hwc|]. repeat split.
  intro Hne. destruct (GameState.enemies (gs wc)); [congruence | reflexivity].
Qed.

End PassFacts.

(** C6.  A player-owned projectile in a running tick.  Let [w0] be the
    world entering the tick's collision pass, [p] a player-owned projectile
    of its collection, [before] and [rest] the projectiles before and after
    it, and [wp] the world the pass has reached when it is the turn of [p].
    The tick completes, and its last steps keep the projectiles and the
    score the pass leaves, and the enemies too unless none is left.

    [p] is tested against the enemies of [wp] from the last index down.  If
    it overlaps none, it is kept and the pass goes on from [wp].
    Otherwise, with [i] the highest index whose enemy [e] overlaps, [p] is
    removed from the collection and only [e] is affected, whatever other
    enemies [p] overlaps: [e] loses [damage p] health and stays in place
    while its health remains positive; when its health becomes [<= 0] it is
    removed from the collection at once, the score grows once by its
    variant's value (boss 500, tank 100, drone 50) and its variant's number
    of uncollected pickups is appended (boss 20, tank 8, drone 3);
    otherwise score and pickups are unchanged.  The pass goes on from that
    world [w'] with the projectiles of [rest]; the slot of [p] is gone from
    the collection the tick leaves.  When no player-owned projectile
    follows [p], the enemies, the score and the pickups the pass leaves are
    exactly those of [w'], and that score is the score after the tick. *)
Theorem player_projectile_hits_once {M : JsMath} (inp : Input) (w w1 : World)
  (weapon : Weapon.t) (before rest : list Projectile.t) (p : Projectile.t) :
  gated (gs w) = false ->
  nth_error (GameState.weapons (gs w)) (GameState.currentWeapon (gs w)) =
    Some weapon ->
  shootStep inp (movePlayer inp w) = Some w1 ->
  let w0 := beforeCollisions w1 in
  GameState.projectiles (gs w0) = before ++ p :: rest ->
  Projectile.isEnemy p = false ->
  let kb := fst (filterCollide before w0) in
  let wp := snd (filterCollide before w0) in
  let s := gs wp in
  let es := GameState.enemies s in
  exists wf,
    gameLoop inp w = Some wf /\
    GameState.projectiles (gs wf)
      = GameState.projectiles (gs (collisions w0)) /\
    GameState.score (gs wf) = GameState.score (gs (collisions w0)) /\
    (GameState.enemies (gs (collisions w0)) <> [] ->
     GameState.enemies (gs wf) = GameState.enemies (gs (collisions w0))) /\
    ((forall j e, nth_error es j = Some e -> overlaps p e = false) ->
     collisions w0 =
     upd (GameState.set_projectiles (kb ++ p :: fst (filterCollide rest wp)))
         (snd (filterCollide rest wp))) /\
    (forall i e,
       nth_error es i = Some e -> overlaps p e = true ->
       (forall j e', (i < j)%nat -> nth_error es j = Some e' ->
                     overlaps p e' = false) ->
       let dead := Enemy.health e - Projectile.damage p <=? 0 in
       exists w' ps bs r,
         List.length bs = (if dead then boltCount (Enemy.type e) else 0%nat) /\
         Forall (fun b => Bolt.collected b = false) bs /\
         w' =
         mkWorld
           (GameState.set_particles (GameState.particles s ++ ps)
              (GameState.set_boltPickups (GameState.boltPickups s ++ bs)
                 (GameState.set_score
                    (if dead
                     then GameState.score s + scoreValue (Enemy.type e)
                     else GameState.score s)
                    (GameState.set_enemies
                       (if dead then splice1 i es
                        else setAt i (Enemy.set_health
                                        (Enemy.health e - Projectile.damage p)
                                        e) es)
                       s))))
           (lastShot wp) r /\
         collisions w0 =
         upd (GameState.set_projectiles (kb ++ fst (filterCollide rest w')))
             (snd (filterCollide rest w')) /\
         (List.length (GameState.projectiles (gs wf))
          <= List.length before + List.length rest)%nat /\
         (Forall (fun q => Projectile.isEnemy q = true) rest ->
          GameState.enemies (gs (collisions w0)) =
            (if dead then splice1 i es
             else setAt i (Enemy.set_health
                             (Enemy.health e - Projectile.damage p) e) es) /\
          GameState.score (gs wf) =
            (if dead then GameState.score s + scoreValue (Enemy.type e)
             else GameState.score s) /\
          GameState.boltPickups (gs (collisions w0)) =
            GameState.boltPickups s ++ bs)) /\
    (scoreValue boss, scoreValue tank, scoreValue drone) = (500, 100, 50) /\
    (boltCount boss, boltCount tank, boltCount drone) = (20, 8, 3)%nat.
Proof.
  intros G Hw E. cbv zeta. intros Hps Hp.
  destruct (tick_end inp w w1 weapon G Hw E)
    as (wf & Eg & _ & _ & _ & Pf & Sf & Ef).
  cbv zeta in Pf, Sf, Ef.
  exists wf. split; [exact Eg|]. split; [exact Pf|]. split; [exact Sf|].
  split; [exact Ef|].
  pose proof (collisions_split (beforeCollisions w1) before rest p Hps) as Hc.
  cbv zeta in Hc.
  destruct (collide_player p (snd (filterCollide before (beforeCollisions w1)))
                           Hp) as (Hmiss & Hhit & Hconst).
  split; [|split; [|exact Hconst]].
  - intro Hno. destruct (Hmiss Hno) as [Ec _]. rewrite Ec in Hc. exact Hc.
  - intros i e Hn Ho Hafter.
    destruct (Hhit i e Hn Ho Hafter)
      as (w' & ps & bs & r & Ec & _ & Lb & Fb & Ew).
    exists w', ps, bs, r.
    rewrite Ec in Hc. cbn [fst snd app] in Hc.
    split; [exact Lb|]. split; [exact Fb|]. split; [exact Ew|].
    split; [exact Hc|].
    split.
    { rewrite Pf, Hc. cbn [gs upd GameState.projectiles
                           GameState.set_projectiles].
      rewrite length_app.
      destruct (filterCollide_sublist before (beforeCollisions w1))
        as (k1 & L1 & ->).
      destruct (filterCollide_sublist rest w') as (k2 & L2 & ->).
      rewrite !length_map.
      pose proof (filter_length_le snd (combine before k1)) as A.
      pose proof (filter_length_le snd (combine rest k2)) as B.
      rewrite length_combine in A, B. lia. }
    intro Fr.
    destruct (filterCollide_enemy_only rest w' Fr) as (A & B & C).
    cbv zeta in A, B, C.
    rewrite Sf, Hc.
    cbn [gs upd GameState.enemies GameState.score GameState.boltPickups
         GameState.set_projectiles].
    rewrite A, B, C, Ew. repeat split; reflexivity.
Qed.

(** A tick of the idle player with two drones of 30 health stacked on one
    spot and the player's projectile of damage 30 reaching that spot: only
    the drone of the higher index is hit; it is removed in this tick, the
    score is 50, the projectile is gone, and the other drone still has its
    30 health. *)
Lemma player_projectile_hits_once_witness :
  gated (gs duelWorld) = false /\
  exists wf,
    gameLoop (M := exampleMath) (idleInput 0) duelWorld = Some wf /\
    GameState.projectiles (gs wf) = [] /\
    GameState.score (gs wf) = 50 /\
    map Enemy.health (GameState.enemies (gs wf)) = [30].
Proof.
  split; [reflexivity|].
  assert (Hps : GameState.projectiles
                  (gs (beforeCollisions (M := exampleMath)
                         (movePlayer (M := exampleMath) (idleInput 0)
                                     duelWorld))) =
                [] ++ Projectile.mk 600 250 0 (-15) 30 false "#00d4ff" 6 :: [])
    by (vm_compute; reflexivity).
  destruct (player_projectile_hits_once (M := exampleMath) (idleInput 0)
              duelWorld (movePlayer (M := exampleMath) (idleInput 0) duelWorld)
              blaster [] [] _ eq_refl eq_refl eq_refl Hps eq_refl)
    as (wf & Eg & Pf & Sf & Ef & _ & Hhit & _).
  destruct (Hhit 1%nat (Enemy.mk 600 250 30 30 drone 0 59))
    as (w' & ps & bs & r & _ & _ & _ & _ & Hlen & Hlast).
  - vm_compute. reflexivity.
  - vm_compute. reflexivity.
  - intros j e' Hj Hn. destruct j as [|[|j]]; [lia | lia |].
    vm_compute in Hn. destruct j; discriminate.
  - destruct (Hlast (Forall_nil _)) as (En & Sc & _).
    exists wf. split; [exact Eg|].
    split.
    { destruct (GameState.projectiles (gs wf)); [reflexivity|].
      simpl in Hlen. lia. }
    split; [rewrite Sc; vm_compute; reflexivity|].
    rewrite Ef; rewrite En; [vm_compute; reflexivity|].
    vm_compute. discriminate.
Defined.

(** ** The invincibility window inside a tick *)

Section ShieldFacts.
Context {M : JsMath}.

(** While the timer is positive the pass keeps every enemy projectile. *)
Lemma filterCollide_shielded (ps : list Projectile.t) (w : World) :
  0 < Player.invincible (GameState.player (gs w)) ->
  filter Projectile.isEnemy (fst (filterCollide ps w)) =
  filter Projectile.isEnemy ps.
Proof.
  revert w. induction ps as [|p r IH]; intros w Hi; [reflexivity|].
  cbn [filterCollide].
  destruct (Projectile.isEnemy p) eqn:Hp.
  - rewrite collide_invincible by assumption.
    specialize (IH w Hi). destruct (filterCollide r w) as [kept w2].
    cbn [fst filter] in *. now rewrite Hp, IH.
  - pose proof (collide_own p w Hp) as [Hc _].
    destruct (collide p w) as [k w1]. cbn [snd] in Hc.
    specialize (IH w1). rewrite Hc in IH. specialize (IH Hi).
    destruct (filterCollide r w1) as [kept w2].
    cbn [fst filter] in *. rewrite Hp. destruct k; [|exact IH].
    cbn [filter]. now rewrite Hp.
Qed.

(** While the timer is not positive, enemy projectiles that do not touch
    the player are kept and leave it alone. *)
Lemma filterCollide_clear (ps : list Projectile.t) (w : World) :
  let pl := GameState.player (gs w) in
  Forall (fun q => Projectile.isEnemy q = true ->
                   touchesPlayer q pl = false) ps ->
  GameState.player (gs (snd (filterCollide ps w))) = pl /\
  GameState.gameOver (gs (snd (filterCollide ps w)))
    = GameState.gameOver (gs w) /\
  filter Projectile.isEnemy (fst (filterCollide ps w)) =
  filter Projectile.isEnemy ps.
Proof.
  cbv zeta. revert w. induction ps as [|p r IH]; intros w F.
  - repeat split; reflexivity.
  - inversion F as [|? ? Hmiss Fr]; subst. cbn [filterCollide].
    destruct (Projectile.isEnemy p) eqn:Hp.
    + rewrite collide_miss by auto.
      specialize (IH w Fr). destruct (filterCollide r w) as [kept w2].
      cbn [fst snd filter] in *. rewrite Hp.
      destruct IH as (A & B & C). now rewrite A, B, C.
    + pose proof (collide_own p w Hp) as [Hc Hg].
      destruct (collide p w) as [k w1]. cbn [snd] in Hc, Hg.
      specialize (IH w1). rewrite Hc, Hg in IH. specialize (IH Fr).
      destruct (filterCollide r w1) as [kept w2].
      cbn [fst snd filter] in *. rewrite Hp.
      destruct IH as (A & B & C). split; [exact A|]. split; [exact B|].
      destruct k; [|exact C]. cbn [filter]. now rewrite Hp.
Qed.

End ShieldFacts.

(** C7.  The invincibility window, tick by tick.  Let [w0] be the world
    entering the collision pass of a running tick and [pl] its player: the
    health is that of the start of the tick and the timer has been counted
    down by one if it was positive.

    (1) While the timer of [pl] is positive, enemy projectiles are ignored
    entirely: the tick leaves the player as [pl], health included, leaves
    the game running, and keeps every enemy projectile of [w0], whatever
    overlaps.  (2) When the timer of [pl] is not positive and [p] is the
    first enemy projectile of the collection that overlaps the player, the
    tick subtracts the damage of [p] from the health, sets the timer to
    60, raises the game-over flag exactly when the health is then [<= 0],
    and removes [p] and no other enemy projectile: every further enemy
    projectile of the same tick is kept, overlapping or not, and costs no
    health.  (3) The next 59 ticks, whatever their inputs, complete and
    leave the health as that tick left it. *)
Theorem invincibility_window {M : JsMath} (inp : Input) (w w1 : World)
  (weapon : Weapon.t) :
  gated (gs w) = false ->
  nth_error (GameState.weapons (gs w)) (GameState.currentWeapon (gs w)) =
    Some weapon ->
  shootStep inp (movePlayer inp w) = Some w1 ->
  let w0 := beforeCollisions w1 in
  let pl := GameState.player (gs w0) in
  Player.health pl = Player.health (GameState.player (gs w)) /\
  Player.invincible pl =
    (let i := Player.invincible (GameState.player (gs w)) in
     if 0 <? i then i - 1 else i) /\
  (0 < Player.invincible pl ->
   exists wf,
     gameLoop inp w = Some wf /\
     GameState.player (gs wf) = pl /\
     GameState.gameOver (gs wf) = false /\
     filter Projectile.isEnemy (GameState.projectiles (gs wf)) =
     filter Projectile.isEnemy (GameState.projectiles (gs w0))) /\
  (forall before p rest,
     GameState.projectiles (gs w0) = before ++ p :: rest ->
     Projectile.isEnemy p = true ->
     touchesPlayer p pl = true ->
     Forall (fun q => Projectile.isEnemy q = true ->
                      touchesPlayer q pl = false) before ->
     Player.invincible pl <= 0 ->
     let h := Player.health (GameState.player (gs w)) - Projectile.damage p in
     exists wf,
       gameLoop inp w = Some wf /\
       GameState.player (gs wf) =
         Player.set_invincible 60 (Player.set_health h pl) /\
       Player.health (GameState.player (gs wf)) = h /\
       Player.invincible (GameState.player (gs wf)) = 60 /\
       GameState.gameOver (gs wf) = (h <=? 0) /\
       filter Projectile.isEnemy (GameState.projectiles (gs wf)) =
       filter Projectile.isEnemy (before ++ rest) /\
       forall inps,
         (List.length inps <= 59)%nat ->
         exists w',
           run inps wf = Some w' /\
           Player.health (GameState.player (gs w')) = h).
Proof.
  intros G Hw E. cbv zeta.
  destruct (beforeCollisions_spec inp w w1 weapon Hw E) as (Hw0 & Hh & Hi & Hg).
  cbv zeta in Hw0, Hh, Hi, Hg.
  assert (Hrun : GameState.gameOver (gs w) = false).
  { unfold gated in G. apply orb_false_iff in G. tauto. }
  rewrite Hrun in Hg.
  destruct (tick_end inp w w1 weapon G Hw E)
    as (wf & Eg & Hwf & Plf & Gf & Pf & _). cbv zeta in Plf, Gf, Pf.
  split; [exact Hh|]. split; [exact Hi|]. split.
  - intro Hpos. exists wf. split; [exact Eg|].
    rewrite Plf, Gf, Pf, collisions_spec.
    cbn [gs upd GameState.player GameState.gameOver GameState.projectiles
         GameState.set_projectiles].
    destruct (filterCollide_invincible
                (GameState.projectiles (gs (beforeCollisions w1)))
                (beforeCollisions w1) Hpos) as [A B].
    pose proof (filterCollide_shielded
                  (GameState.projectiles (gs (beforeCollisions w1)))
                  (beforeCollisions w1) Hpos) as C.
    destruct (filterCollide _ (beforeCollisions w1)) as [kept w2].
    cbn [fst snd] in *. generalize dependent (gs w2). intros [] A B.
    cbn in *. rewrite A, B. repeat split; assumption.
  - intros before p rest Hps Hp Ht Fb Hle.
    pose proof (collisions_split (beforeCollisions w1) before rest p Hps)
      as Hc. cbv zeta in Hc.
    destruct (filterCollide_clear before (beforeCollisions w1) Fb)
      as (Ab & Gb & Kb).
    set (wp := snd (filterCollide before (beforeCollisions w1))) in *.
    destruct (collide_hit p wp Hp) as (ps0 & Ec);
      [rewrite Ab; exact Ht | rewrite Ab; exact Hle |].
    cbv zeta in Ec. rewrite Ab, Gb, Hg, Hh in Ec.
    rewrite Ec in Hc. cbn [fst snd app] in Hc.
    match type of Ec with
    | _ = (false, ?w2) => set (w' := w2) in *
    end.
    assert (Hpos : 0 < Player.invincible (GameState.player (gs w')))
      by (unfold w'; cbn; lia).
    destruct (filterCollide_invincible rest w' Hpos) as [Ar Gr].
    pose proof (filterCollide_shielded rest w' Hpos) as Kr.
    assert (Plw : GameState.player (gs w') =
                  Player.set_invincible 60
                    (Player.set_health
                       (Player.health (GameState.player (gs w))
                        - Projectile.damage p)
                       (GameState.player (gs (beforeCollisions w1)))))
      by reflexivity.
    assert (Gw : GameState.gameOver (gs w') =
                 (Player.health (GameState.player (gs w))
                  - Projectile.damage p <=? 0)).
    { unfold w'. cbn.
      now destruct (Player.health (GameState.player (gs w))
                    - Projectile.damage p <=? 0). }
    clearbody w'. clear Ec.
    assert (Plc : GameState.player (gs wf) = GameState.player (gs w')).
    { rewrite Plf, Hc.
      cbn [gs upd GameState.player GameState.set_projectiles].
      destruct (gs (snd (filterCollide rest w'))) eqn:D. cbn in *.
      exact Ar. }
    assert (Gc : GameState.gameOver (gs wf) = GameState.gameOver (gs w')).
    { rewrite Gf, Hc.
      cbn [gs upd GameState.gameOver GameState.set_projectiles].
      destruct (gs (snd (filterCollide rest w'))) eqn:D. cbn in *.
      exact Gr. }
    assert (Pc : filter Projectile.isEnemy (GameState.projectiles (gs wf)) =
                 filter Projectile.isEnemy (before ++ rest)).
    { rewrite Pf, Hc.
      cbn [gs upd GameState.projectiles GameState.set_projectiles].
      rewrite !filter_app, Kb, Kr. reflexivity. }
    exists wf. split; [exact Eg|].
    rewrite Plc, Gc, Plw, Gw.
    split; [reflexivity|]. split; [reflexivity|]. split; [reflexivity|].
    split; [reflexivity|]. split; [exact Pc|].
    intros inps Hl.
    destruct (run_protected inps wf weapon Hwf) as (w'' & Er & Hr).
    + rewrite Plc, Plw. cbn. lia.
    + exists w''. split; [exact Er|].
      rewrite Hr, Plc, Plw. reflexivity.
Qed.

(** A tick of the idle player at full health and timer 0 with two enemy
    projectiles of damage 10 resting on it: the first is consumed and
    leaves health 90 and timer 60; the second, although it overlaps too,
    is kept; two more ticks leave the health at 90. *)
Lemma invincibility_window_witness :
  gated (gs ambushWorld) = false /\
  exists wf w',
    gameLoop (M := exampleMath) (idleInput 0) ambushWorld = Some wf /\
    Player.health (GameState.player (gs wf)) = 90 /\
    Player.invincible (GameState.player (gs wf)) = 60 /\
    GameState.gameOver (gs wf) = false /\
    filter Projectile.isEnemy (GameState.projectiles (gs wf)) = [enemyShot] /\
    run (M := exampleMath) [idleInput 16; idleInput 32] wf = Some w' /\
    Player.health (GameState.player (gs w')) = 90.
Proof.
  split; [reflexivity|].
  destruct (invincibility_window (M := exampleMath) (idleInput 0) ambushWorld
              (movePlayer (M := exampleMath) (idleInput 0) ambushWorld)
              blaster eq_refl eq_refl eq_refl) as (_ & _ & _ & Hhit).
  destruct (Hhit [] enemyShot [enemyShot])
    as (wf & Eg & _ & Hh & Hi & Hg & Hp & Hrun).
  - vm_compute. reflexivity.
  - reflexivity.
  - vm_compute. reflexivity.
  - constructor.
  - vm_compute. discriminate.
  - destruct (Hrun [idleInput 16; idleInput 32]) as (w' & Er & Hr);
      [simpl; lia|].
    exists wf, w'. split; [exact Eg|].
    split; [exact Hh|]. split; [exact Hi|]. split; [exact Hg|].
    split; [exact Hp|]. split; [exact Er | exact Hr].
Defined.

(** ** The fire cadence of the enemies, in frames *)

Lemma hurt_refl (e : Enemy.t) : hurt e e.
Proof. destruct e. reflexivity. Qed.

Lemma hurt_trans (a b c : Enemy.t) : hurt a b -> hurt b c -> hurt a c.
Proof.
  unfold hurt. destruct a, b, c. cbn. intros H1 H2.
  injection H1 as <- <- <- <- <- <-. injection H2 as <- <- <- <- <- <-.
  reflexivity.
Qed.

Lemma hurt_set_health (h : Z) (a b : Enemy.t) :
  hurt a b -> hurt a (Enemy.set_health h b).
Proof.
  unfold hurt. destruct a, b. cbn. intros H.
  injection H as <- <- <- <- <- <-. reflexivity.
Qed.

Lemma Forall2_hurt_refl (es : list Enemy.t) : Forall2 hurt es es.
Proof. induction es; constructor; [apply hurt_refl | assumption]. Qed.

Lemma Forall2_hurt_trans (a b c : list Enemy.t) :
  Forall2 hurt a b -> Forall2 hurt b c -> Forall2 hurt a c.
Proof.
  intro H. revert c. induction H as [|x y l l' Hxy _ IH]; intros c Hc.
  - inversion Hc. constructor.
  - inversion Hc as [|? z ? l'' Hyz Hl]; subst.
    constructor; [exact (hurt_trans _ _ _ Hxy Hyz) | now apply IH].
Qed.

Lemma Forall2_hurt_setAt (es es' : list Enemy.t) (i : nat) (e0 : Enemy.t)
  (h : Z) :
  Forall2 hurt es es' -> nth_error es' i = Some e0 ->
  Forall2 hurt es (setAt i (Enemy.set_health h e0) es').
Proof.
  intro H. revert i. induction H as [|x y l l' Hxy Hl IH]; intros i Hn.
  - destruct i; discriminate.
  - destruct i as [|i]; cbn in *.
    + injection Hn as ->. constructor; [now apply hurt_set_health | exact Hl].
    + constructor; [exact Hxy | now apply IH].
Qed.

Lemma Forall2_map_left {A B C} (R : B -> C -> Prop) (f : A -> B)
  (l : list A) (l' : list C) :
  Forall2 R (map f l) l' -> Forall2 (fun a c => R (f a) c) l l'.
Proof.
  revert l'. induction l as [|a l IH]; intros l' H; inversion H; subst;
    constructor; auto.
Qed.

(** A selection of a list holds no more elements of a kind than the
    list. *)
Lemma selection_count {A} (f : A -> bool) (l : list A) (keep : list bool) :
  (List.length (filter f (map fst (filter snd (combine l keep))))
   <= List.length (filter f l))%nat.
Proof.
  revert keep. induction l as [|a l IH]; intros [|k keep]; cbn; try lia.
  specialize (IH keep).
  destruct k; cbn; destruct (f a); cbn; lia.
Qed.

(** Moving the projectiles and dropping those outside the margin does
    not add enemy projectiles. *)
Lemma moved_count (l : list Projectile.t) :
  List.length (filter Projectile.isEnemy
                 (filter inBounds (map moveProjectile l))) =
  List.length (filter Projectile.isEnemy
                 (filter (fun p => inBounds (moveProjectile p)) l)).
Proof.
  induction l as [|p l IH]; [reflexivity|].
  cbn [map filter]. destruct (inBounds (moveProjectile p)); [|exact IH].
  cbn [filter].
  change (Projectile.isEnemy (moveProjectile p)) with (Projectile.isEnemy p).
  destruct (Projectile.isEnemy p); cbn [List.length]; now rewrite IH.
Qed.

Lemma moved_count_app (l shots : list Projectile.t) :
  Forall (fun p => Projectile.isEnemy p = false) shots ->
  List.length (filter Projectile.isEnemy
                 (filter inBounds (map moveProjectile (l ++ shots)))) =
  List.length (filter Projectile.isEnemy
                 (filter (fun p => inBounds (moveProjectile p)) l)).
Proof.
  intro F. rewrite moved_count, !filter_app, length_app.
  assert (E : filter Projectile.isEnemy
                (filter (fun p => inBounds (moveProjectile p)) shots) = []).
  { induction F as [|p r Hp _ IH]; [reflexivity|].
    cbn [filter]. destruct (inBounds (moveProjectile p)); [|exact IH].
    cbn [filter]. now rewrite Hp. }
  rewrite E. cbn [List.length]. apply Nat.add_0_r.
Qed.

Lemma moved_count_le (l shots : list Projectile.t) :
  Forall (fun p => Projectile.isEnemy p = false) shots ->
  (List.length (filter Projectile.isEnemy
                  (filter inBounds (map moveProjectile (l ++ shots))))
   <= List.length (filter Projectile.isEnemy l))%nat.
Proof.
  intro F. rewrite (moved_count_app l shots F).
  induction l as [|p l IH]; [reflexivity|].
  cbn [filter]. destruct (inBounds (moveProjectile p)); cbn [filter];
    destruct (Projectile.isEnemy p); cbn [List.length]; lia.
Qed.

Lemma filter_all {A} (f : A -> bool) (l : list A) :
  Forall (fun a => f a = true) l -> filter f l = l.
Proof.
  induction 1 as [|a l Ha _ IH]; [reflexivity|].
  cbn [filter]. now rewrite Ha, IH.
Qed.

Lemma Forall2_nth_error {A B} (R : A -> B -> Prop) (l : list A)
  (l' : list B) (i : nat) (a : A) :
  Forall2 R l l' -> nth_error l i = Some a ->
  exists b, nth_error l' i = Some b /\ R a b.
Proof.
  intro H. revert i. induction H as [|x y l l' Hxy _ IH]; intros i Hn.
  - destruct i; discriminate.
  - destruct i as [|i]; cbn in *.
    + injection Hn as <-. now exists y.
    + now apply IH.
Qed.

Lemma Forall2_Forall {A B} (R : A -> B -> Prop) (P : A -> Prop)
  (Q : B -> Prop) (l : list A) (l' : list B) :
  (forall a b, R a b -> P a -> Q b) ->
  Forall2 R l l' -> Forall P l -> Forall Q l'.
Proof.
  intros H F2. induction F2 as [|x y l l' Hxy _ IH]; intro F;
    [constructor|].
  inversion F; subst. constructor; eauto.
Qed.

Lemma inject_succ (k : nat) :
  inject_Z (Z.of_nat (S k)) = (inject_Z (Z.of_nat k) + 1)%Q.
Proof.
  rewrite Nat2Z.inj_succ, <- Z.add_1_r. unfold inject_Z, Qplus. cbn.
  f_equal. lia.
Qed.

Lemma inject_nonneg (k : nat) : (0 <= inject_Z (Z.of_nat k))%Q.
Proof. change 0%Q with (inject_Z 0). rewrite <- Zle_Qle. lia. Qed.

Section RosterFacts.
Context {M : JsMath}.

(** One projectile of the pass: the enemies keep their slots, up to
    health, or one is removed. *)
Lemma collide_roster (p : Projectile.t) (w : World) :
  Forall2 hurt (GameState.enemies (gs w))
          (GameState.enemies (gs (snd (collide p w)))) \/
  (List.length (GameState.enemies (gs (snd (collide p w))))
   < List.length (GameState.enemies (gs w)))%nat.
Proof.
  destruct (Projectile.isEnemy p) eqn:Hp.
  - left.
    destruct (filterCollide_enemy_only [p] w) as (A & _).
    { constructor; [exact Hp | constructor]. }
    cbv zeta in A. cbn [filterCollide] in A.
    destruct (collide p w) as [k w1]. cbn [snd] in *.
    rewrite A. apply Forall2_hurt_refl.
  - unfold collide. rewrite Hp. cbn [negb].
    pose proof (enemyLoop_spec (List.length (GameState.enemies (gs w))) p w)
      as Hloop. cbv zeta in Hloop.
    destruct (enemyLoop (List.length (GameState.enemies (gs w))) p w)
      as [w'|]; [|left; apply Forall2_hurt_refl].
    destruct Hloop as (i & e & _ & Hn & _ & _ & ->).
    destruct (hitEnemy_spec i e p w) as (ps & bs & r & _ & _ & E).
    cbv zeta in E. cbn [snd]. rewrite E. clear E.
    cbn [gs GameState.enemies GameState.set_particles
         GameState.set_boltPickups GameState.set_score GameState.set_enemies].
    destruct (Enemy.health e - Projectile.damage p <=? 0).
    + right. pose proof (splice1_length i e _ Hn). lia.
    + left. apply Forall2_hurt_setAt; [apply Forall2_hurt_refl | exact Hn].
Qed.

Lemma filterCollide_count (ps : list Projectile.t) (w : World) :
  (List.length (GameState.enemies (gs (snd (filterCollide ps w))))
   <= List.length (GameState.enemies (gs w)))%nat.
Proof.
  destruct (filterCollide_kills ps w) as (k & Hk & _).
  unfold kills, tally in Hk. destruct Hk as (A & _). lia.
Qed.

(** A pass that removes no enemy keeps every enemy in its slot, up to
    health. *)
Lemma filterCollide_roster (ps : list Projectile.t) (w : World) :
  List.length (GameState.enemies (gs (snd (filterCollide ps w))))
    = List.length (GameState.enemies (gs w)) ->
  Forall2 hurt (GameState.enemies (gs w))
          (GameState.enemies (gs (snd (filterCollide ps w)))).
Proof.
  revert w. induction ps as [|p r IH]; intros w L.
  - apply Forall2_hurt_refl.
  - cbn [filterCollide] in *.
    pose proof (collide_roster p w) as Hc.
    destruct (collide p w) as [k w1]. cbn [snd] in Hc.
    pose proof (filterCollide_count r w1) as Hle.
    specialize (IH w1).
    destruct (filterCollide r w1) as [kept w2]. cbn [snd] in *.
    destruct Hc as [Hc | Hc]; [|lia].
    pose proof (Forall2_length Hc) as L1.
    apply (Forall2_hurt_trans _ _ _ Hc). apply IH. lia.
Qed.

(** The world entering the collision pass: the enemies updated in place,
    the old projectiles moved, and the volleys. *)
Lemma beforeCollisions_roster (inp : Input) (w w1 : World)
  (weapon : Weapon.t) :
  nth_error (GameState.weapons (gs w)) (GameState.currentWeapon (gs w)) =
    Some weapon ->
  shootStep inp (movePlayer inp w) = Some w1 ->
  let w0 := beforeCollisions w1 in
  exists pl shots,
    Forall (fun p => Projectile.isEnemy p = false) shots /\
    GameState.enemies (gs w0) =
      map (fun e => fst (updateEnemy pl e)) (GameState.enemies (gs w)) /\
    GameState.projectiles (gs w0) =
      filter inBounds
        (map moveProjectile (GameState.projectiles (gs w) ++ shots))
      ++ flat_map (fun e => snd (updateEnemy pl e))
                  (GameState.enemies (gs w)).
Proof.
  intros Hw E. cbv zeta.
  destruct (shootStep_frame inp (movePlayer inp w) weapon Hw)
    as (a & shots & ps & l & r & E' & Fs).
  rewrite E in E'. injection E' as ->.
  exists (GameState.player
            (gs (updateProjectiles
                   (tickInvincible
                      (mkWorld
                         (GameState.set_particles
                            (GameState.particles (gs (movePlayer inp w))
                             ++ ps)
                            (GameState.set_projectiles
                               (GameState.projectiles (gs (movePlayer inp w))
                                ++ shots)
                               (GameState.set_ammo a
                                  (gs (movePlayer inp w)))))
                         l r))))), shots.
  split; [exact Fs|].
  unfold beforeCollisions. rewrite updateEnemies_spec. cbv zeta.
  set (pl := GameState.player _).
  clearbody pl.
  set (f := fun e : Enemy.t => fst (updateEnemy pl e)).
  set (g := fun e : Enemy.t => snd (updateEnemy pl e)).
  clearbody f g.
  unfold updateProjectiles, tickInvincible, upd.
  cbn [gs GameState.player GameState.set_particles
       GameState.set_projectiles GameState.set_ammo].
  destruct (0 <? _);
    cbn [gs GameState.enemies GameState.projectiles GameState.set_player
         GameState.set_particles GameState.set_projectiles
         GameState.set_ammo GameState.set_enemies];
    split; reflexivity.
Qed.

(** The wave counter at the end of a running tick. *)
Lemma tick_wave (inp : Input) (w w1 wf : World) (weapon : Weapon.t) :
  gated (gs w) = false ->
  nth_error (GameState.weapons (gs w)) (GameState.currentWeapon (gs w)) =
    Some weapon ->
  shootStep inp (movePlayer inp w) = Some w1 ->
  gameLoop inp w = Some wf ->
  GameState.wave (gs wf) = GameState.wave (gs w) ->
  GameState.enemies (gs (collisions (beforeCollisions w1))) <> [].
Proof.
  intros G Hw E Eg Hwave.
  destruct (gameLoop_unfold inp w w1 G E) as [Es Ea].
  destruct (gameLoop_running inp w weapon G Hw)
    as (w0' & (Es' & _ & Hw' & Wv & _) & _).
  rewrite Es in Es'. injection Es' as Ec. rewrite <- Ec in Hw', Wv.
  rewrite Ea in Eg. clear Ec Es Ea.
  set (wc := collisions (beforeCollisions w1)) in *. clearbody wc.
  rename Hw' into Hwc.
  destruct (afterCollisions_spec wc weapon Hwc)
    as (w3 & spawned & ps & r & _ & Ef & _ & _ & _ & Ex).
  rewrite Ef, Ex in Eg. injection Eg as <-.
  cbn [gs GameState.wave GameState.set_particles GameState.set_enemies
       GameState.set_wave] in Hwave.
  intro Hnil. rewrite Hnil in Hwave. lia.
Qed.

(** A frame that removes no enemy and spawns no wave. *)
Lemma calm_tick (inp : Input) (w wf : World) (weapon : Weapon.t) :
  gated (gs w) = false ->
  nth_error (GameState.weapons (gs w)) (GameState.currentWeapon (gs w)) =
    Some weapon ->
  gameLoop inp w = Some wf ->
  List.length (GameState.enemies (gs wf))
    = List.length (GameState.enemies (gs w)) ->
  GameState.wave (gs wf) = GameState.wave (gs w) ->
  exists pl,
    Forall2 (fun e e' => hurt (fst (updateEnemy pl e)) e')
            (GameState.enemies (gs w)) (GameState.enemies (gs wf)) /\
    nth_error (GameState.weapons (gs wf)) (GameState.currentWeapon (gs wf)) =
      Some weapon /\
    (List.length (filter Projectile.isEnemy (GameState.projectiles (gs wf)))
     <= List.length (filter Projectile.isEnemy
                       (GameState.projectiles (gs w)))
        + List.length (flat_map (fun e => snd (updateEnemy pl e))
                                (GameState.enemies (gs w))))%nat.
Proof.
  intros G Hw Eg L Hwave.
  destruct (shootStep_keeps inp (movePlayer inp w) weapon Hw)
    as (w1 & E & _).
  pose proof (tick_wave inp w w1 wf weapon G Hw E Eg Hwave) as Hne.
  destruct (tick_end inp w w1 weapon G Hw E)
    as (wf' & Eg' & Hwf & _ & _ & Pf & _ & Ef). cbv zeta in Pf, Ef.
  rewrite Eg in Eg'. injection Eg' as <-.
  specialize (Ef Hne).
  destruct (beforeCollisions_roster inp w w1 weapon Hw E)
    as (pl & shots & Fs & En0 & Pr0). cbv zeta in En0, Pr0.
  exists pl. split; [|split; [exact Hwf|]].
  - apply Forall2_map_left. rewrite <- En0, Ef, collisions_spec.
    cbn [gs upd GameState.enemies GameState.set_projectiles].
    pose proof (filterCollide_roster
                  (GameState.projectiles (gs (beforeCollisions w1)))
                  (beforeCollisions w1)) as Hr.
    rewrite Ef, collisions_spec in L.
    cbn [gs upd GameState.enemies GameState.set_projectiles] in L.
    destruct (gs (snd (filterCollide
                         (GameState.projectiles (gs (beforeCollisions w1)))
                         (beforeCollisions w1)))) eqn:D.
    cbn [GameState.enemies GameState.set_projectiles] in *.
    apply Hr. rewrite L, En0, length_map. reflexivity.
  - rewrite Pf, collisions_spec.
    cbn [gs upd GameState.projectiles GameState.set_projectiles].
    destruct (filterCollide_sublist
                (GameState.projectiles (gs (beforeCollisions w1)))
                (beforeCollisions w1)) as (keep & _ & ->).
    etransitivity; [apply selection_count|].
    rewrite Pr0, filter_app, length_app.
    pose proof (moved_count_le (GameState.projectiles (gs w)) shots Fs) as A.
    pose proof (filter_length_le Projectile.isEnemy
                  (flat_map (fun e => snd (updateEnemy pl e))
                            (GameState.enemies (gs w)))) as B.
    lia.
Qed.

(** The enemy projectiles of the volleys of one frame. *)
Lemma volley_count (pl : Player.t) (es : list Enemy.t) :
  List.length (filter Projectile.isEnemy
                 (flat_map (fun e => snd (updateEnemy pl e)) es)) =
  list_sum (map (fun e => if firing e then volley (Enemy.type e) else 0%nat)
                es).
Proof.
  induction es as [|e r IH]; [reflexivity|].
  cbn [flat_map map]. rewrite filter_app, length_app, IH.
  unfold list_sum. cbn [fold_right]. f_equal.
  destruct (updateEnemy_spec pl e) as (_ & Hc & Fs). cbv zeta in Hc, Fs.
  assert (E : filter Projectile.isEnemy (snd (updateEnemy pl e))
              = snd (updateEnemy pl e)).
  { apply filter_all. eapply Forall_impl; [|exact Fs].
    now intros p (Hp & _). }
  rewrite E. unfold firing.
  destruct (Qle_bool (Enemy.shootCooldown e - 1) 0);
    [now destruct Hc | destruct Hc as [_ ->]; reflexivity].
Qed.

(** One enemy over one calm frame. *)
Lemma calm_enemy (pl : Player.t) (e e1 : Enemy.t) :
  hurt (fst (updateEnemy pl e)) e1 ->
  Enemy.type e1 = Enemy.type e /\
  (firing e = true ->
   Enemy.shootCooldown e1 = enemyFireRate (Enemy.type e)) /\
  (firing e = false ->
   Enemy.shootCooldown e1 = (Enemy.shootCooldown e - 1)%Q /\
   snd (updateEnemy pl e) = []).
Proof.
  intro H.
  destruct (updateEnemy_spec pl e) as (Hk & Hc & _). cbv zeta in Hk, Hc.
  unfold hurt in H.
  assert (Ht : Enemy.type e1 = Enemy.type (fst (updateEnemy pl e)))
    by (rewrite H; reflexivity).
  assert (Hcd : Enemy.shootCooldown e1
                = Enemy.shootCooldown (fst (updateEnemy pl e)))
    by (rewrite H; reflexivity).
  injection Hk as _ _ Hty.
  split; [congruence|]. unfold firing.
  destruct (Qle_bool (Enemy.shootCooldown e - 1) 0).
  - split; [intros _; destruct Hc; congruence | discriminate].
  - split; [discriminate|]. intros _. destruct Hc as [Hc1 Hc2].
    split; [congruence | exact Hc2].
Qed.

Lemma firing_iff (e : Enemy.t) :
  firing e = true <-> (Enemy.shootCooldown e <= 1)%Q.
Proof.
  unfold firing. rewrite Qle_bool_iff. split; intro; lra.
Qed.

Lemma firing_not (e : Enemy.t) :
  (1 < Enemy.shootCooldown e)%Q -> firing e = false.
Proof.
  intro H. destruct (firing e) eqn:F; [|reflexivity].
  apply firing_iff in F. lra.
Qed.

(** The cooldowns over a run of calm frames. *)
Lemma cadence_run (weapon : Weapon.t) (inps : list Input) :
  forall w,
    nth_error (GameState.weapons (gs w)) (GameState.currentWeapon (gs w)) =
      Some weapon ->
    calm inps w ->
    exists wf,
      run inps w = Some wf /\
      (forall i e,
         nth_error (GameState.enemies (gs w)) i = Some e ->
         exists e',
           nth_error (GameState.enemies (gs wf)) i = Some e' /\
           Enemy.type e' = Enemy.type e /\
           ((inject_Z (Z.of_nat (List.length inps)) < Enemy.shootCooldown e)%Q
            -> (Enemy.shootCooldown e' ==
                Enemy.shootCooldown e
                - inject_Z (Z.of_nat (List.length inps)))%Q) /\
           (inps <> [] ->
            (inject_Z (Z.of_nat (List.length inps)) - 1
             < Enemy.shootCooldown e)%Q ->
            (Enemy.shootCooldown e
             <= inject_Z (Z.of_nat (List.length inps)))%Q ->
            Enemy.shootCooldown e' = enemyFireRate (Enemy.type e))) /\
      (Forall (fun e => (inject_Z (Z.of_nat (List.length inps))
                         < Enemy.shootCooldown e)%Q)
              (GameState.enemies (gs w)) ->
       (List.length (filter Projectile.isEnemy
                       (GameState.projectiles (gs wf)))
        <= List.length (filter Projectile.isEnemy
                          (GameState.projectiles (gs w))))%nat).
Proof.
  induction inps as [|inp r IH]; intros w Hw Hc.
  - exists w. split; [reflexivity|]. split.
    + intros i e Hn. exists e. split; [exact Hn|]. split; [reflexivity|].
      split; [|congruence].
      intros _. cbn [List.length]. change (inject_Z (Z.of_nat 0)) with 0%Q.
      ring.
    + intros _. apply Nat.le_refl.
  - cbn [calm] in Hc. destruct Hc as (G & w' & Eg & L & Wv & Hc').
    destruct (calm_tick inp w w' weapon G Hw Eg L Wv)
      as (pl & F2 & Hw' & Cnt).
    destruct (IH w' Hw' Hc') as (wf & Er & Hidx & Hcnt).
    cbn [List.length]. rewrite inject_succ.
    pose proof (inject_nonneg (List.length r)) as Hr.
    exists wf. split; [cbn [run]; rewrite Eg; exact Er|]. split.
    + intros i e Hn.
      destruct (Forall2_nth_error _ _ _ i e F2 Hn) as (e1 & Hn1 & H1).
      destruct (calm_enemy pl e e1 H1) as (Ht1 & Hfire & Hcount).
      destruct (Hidx i e1 Hn1) as (e' & Hn' & Ht' & Hdown & Hreset).
      exists e'. split; [exact Hn'|]. split; [congruence|]. split.
      * intro Hlt.
        destruct Hcount as [Hcd _]; [apply firing_not; lra|].
        rewrite Hdown by (rewrite Hcd; lra). rewrite Hcd. ring.
      * intros _ Hlo Hhi. rewrite <- Ht1.
        destruct r as [|inp2 r2].
        -- cbn [run] in Er. injection Er as <-.
           rewrite Hn1 in Hn'. injection Hn' as <-.
           rewrite Ht1. apply Hfire. apply firing_iff.
           cbn [List.length] in Hhi.
           change (inject_Z (Z.of_nat 0)) with 0%Q in Hhi. lra.
        -- assert (H1r : (1 <= inject_Z (Z.of_nat
                                          (List.length (inp2 :: r2))))%Q).
           { cbn [List.length]. rewrite inject_succ.
             pose proof (inject_nonneg (List.length r2)). lra. }
           destruct Hcount as [Hcd _]; [apply firing_not; lra|].
           apply Hreset; [discriminate | rewrite Hcd; lra | rewrite Hcd; lra].
    + intro Fall.
      assert (Hquiet : flat_map (fun e => snd (updateEnemy pl e))
                                (GameState.enemies (gs w)) = []).
      { clear - Fall Hr F2. revert Fall.
        generalize (GameState.enemies (gs w)) as es. clear F2.
        induction es as [|e es IHes]; intro Fall; [reflexivity|].
        inversion Fall as [|? ? He Fes]; subst.
        cbn [flat_map]. rewrite (IHes Fes), app_nil_r.
        destruct (updateEnemy_spec pl e) as (_ & Hc & _). cbv zeta in Hc.
        destruct (Qle_bool (Enemy.shootCooldown e - 1) 0) eqn:Q;
          [|now destruct Hc].
        apply Qle_bool_iff in Q. lra. }
      rewrite Hquiet in Cnt. cbn [List.length] in Cnt.
      assert (Fall' : Forall (fun e => (inject_Z (Z.of_nat (List.length r))
                                        < Enemy.shootCooldown e)%Q)
                             (GameState.enemies (gs w'))).
      { refine (Forall2_Forall _ _ _ _ _ _ F2 Fall).
        intros e e1 H1 He. cbv beta in He.
        destruct (calm_enemy pl e e1 H1) as (_ & _ & Hcount).
        destruct Hcount as [Hcd _]; [apply firing_not; lra|].
        rewrite Hcd. lra. }
      specialize (Hcnt Fall'). lia.
Qed.

End RosterFacts.

(** X2.  The fire cadence of the enemies, in frames of the game.  Take a
    run of [n] running frames in which no enemy is removed and no wave is
    spawned.  The run completes and every enemy keeps its slot and its
    variant.  An enemy whose cooldown [c] at the start exceeds [n] has
    cooldown [c - n] at the end; an enemy with [n - 1 < c <= n] has its
    cooldown reset in the last frame to [R], the interval of its variant:
    30 for a boss, 90 for a tank, 120 for a drone.  So an enemy whose
    cooldown has just been reset is counted down for [R - 1] frames and
    reset again in frame [R].  If every cooldown exceeds [n], no enemy
    projectile is added in these frames: the number of enemy projectiles
    in flight does not grow.  In the first frame, the enemy projectiles
    that enter the collision pass are the old ones that stay strictly
    inside the margin when moved, and the volleys (5 projectiles for a
    boss, 1 otherwise) of exactly the enemies whose cooldown counted down
    by one is [<= 0]. *)
Theorem enemy_fire_cadence {M : JsMath} (inps : list Input) (w : World)
  (weapon : Weapon.t) :
  nth_error (GameState.weapons (gs w)) (GameState.currentWeapon (gs w)) =
    Some weapon ->
  calm inps w ->
  let n := inject_Z (Z.of_nat (List.length inps)) in
  exists wf,
    run inps w = Some wf /\
    (forall i e,
       nth_error (GameState.enemies (gs w)) i = Some e ->
       exists e',
         nth_error (GameState.enemies (gs wf)) i = Some e' /\
         Enemy.type e' = Enemy.type e /\
         ((n < Enemy.shootCooldown e)%Q ->
          (Enemy.shootCooldown e' == Enemy.shootCooldown e - n)%Q) /\
         (inps <> [] ->
          (n - 1 < Enemy.shootCooldown e)%Q ->
          (Enemy.shootCooldown e <= n)%Q ->
          Enemy.shootCooldown e' = enemyFireRate (Enemy.type e))) /\
    (Forall (fun e => (n < Enemy.shootCooldown e)%Q)
            (GameState.enemies (gs w)) ->
     (List.length (filter Projectile.isEnemy (GameState.projectiles (gs wf)))
      <= List.length (filter Projectile.isEnemy
                        (GameState.projectiles (gs w))))%nat) /\
    (forall inp rest w1,
       inps = inp :: rest ->
       shootStep inp (movePlayer inp w) = Some w1 ->
       List.length (filter Projectile.isEnemy
                      (GameState.projectiles (gs (beforeCollisions w1)))) =
       (List.length (filter Projectile.isEnemy
                       (filter (fun p => inBounds (moveProjectile p))
                               (GameState.projectiles (gs w))))
        + list_sum (map (fun e => if firing e
                                  then volley (Enemy.type e) else 0)
                        (GameState.enemies (gs w))))%nat).
Proof.
  intros Hw Hc. cbv zeta.
  destruct (cadence_run weapon inps w Hw Hc) as (wf & Er & Hidx & Hcnt).
  exists wf. split; [exact Er|]. split; [exact Hidx|]. split; [exact Hcnt|].
  intros inp rest w1 _ E.
  destruct (beforeCollisions_roster inp w w1 weapon Hw E)
    as (pl & shots & Fs & _ & Pr0). cbv zeta in Pr0.
  rewrite Pr0, filter_app, length_app, volley_count.
  now rewrite (moved_count_app _ _ Fs).
Qed.

(** A drone with cooldown 3 in front of an idle player: the cooldown is 1
    after two frames, and the third frame resets it to 120. *)
Lemma enemy_fire_cadence_witness :
  calm (M := exampleMath) [idleInput 0; idleInput 16] standoffWorld /\
  calm (M := exampleMath) [idleInput 0; idleInput 16; idleInput 32]
       standoffWorld /\
  exists wf2 wf3 e2 e3,
    run (M := exampleMath) [idleInput 0; idleInput 16] standoffWorld
      = Some wf2 /\
    nth_error (GameState.enemies (gs wf2)) 0 = Some e2 /\
    (Enemy.shootCooldown e2 == 1)%Q /\
    run (M := exampleMath) [idleInput 0; idleInput 16; idleInput 32]
        standoffWorld = Some wf3 /\
    nth_error (GameState.enemies (gs wf3)) 0 = Some e3 /\
    Enemy.shootCooldown e3 = 120%Q.
Proof.
  assert (C2 : calm (M := exampleMath) [idleInput 0; idleInput 16]
                    standoffWorld).
  { cbn [calm].
    repeat (split; [reflexivity|]; eexists;
            split; [vm_compute; reflexivity|];
            split; [reflexivity|]; split; [reflexivity|]).
    exact I. }
  assert (C3 : calm (M := exampleMath)
                    [idleInput 0; idleInput 16; idleInput 32] standoffWorld).
  { cbn [calm].
    repeat (split; [reflexivity|]; eexists;
            split; [vm_compute; reflexivity|];
            split; [reflexivity|]; split; [reflexivity|]).
    exact I. }
  split; [exact C2|]. split; [exact C3|].
  destruct (enemy_fire_cadence (M := exampleMath) _ standoffWorld blaster
              eq_refl C2) as (wf2 & E2 & H2 & _).
  destruct (enemy_fire_cadence (M := exampleMath) _ standoffWorld blaster
              eq_refl C3) as (wf3 & E3 & H3 & _).
  destruct (H2 0%nat _ eq_refl) as (e2 & N2 & _ & D2 & _).
  destruct (H3 0%nat _ eq_refl) as (e3 & N3 & _ & _ & R3).
  exists wf2, wf3, e2, e3.
  split; [exact E2|]. split; [exact N2|].
  split; [rewrite D2; [reflexivity | vm_compute; reflexivity]|].
  split; [exact E3|]. split; [exact N3|].
  apply R3; [discriminate | vm_compute; reflexivity | vm_compute; discriminate].
Defined.
